(** * Style-transfer layers of tfjs-layers: reflection padding, (conditional)
      instance normalization and the deprocessing layer.

    The layers are written against the tensor library tfjs-core.  A tensor is
    modelled by its shape and by the value it holds at every multi-index; the
    tfjs-core operations the layers call ([gather], [concat], [moments],
    broadcasting arithmetic, [reshape], [dot]) are modelled on that
    representation, and every layer function is transcribed statement by
    statement on top of them. *)

From Stdlib Require Import String.
From Stdlib Require Import List ZArith Bool Lia.
From Stdlib Require Import Reals Lra.
Import ListNotations.

Set Implicit Arguments.

(** ** Errors and the result monad *)

(** [ValueError] is the only error class the layers throw themselves;
    [TypeError] is what JavaScript raises on a method call on [null].  The
    other two stand for the failures of tfjs-core operations. *)
Inductive Error : Type :=
| ValueError
| TypeError
| ShapeMismatch
| IndexOutOfRange.

Inductive Result (A : Type) : Type :=
| Ok (a : A)
| Err (e : Error).

Arguments Ok {A} a.
Arguments Err {A} e.

Definition bind {A B : Type} (r : Result A) (k : A -> Result B) : Result B :=
  match r with
  | Ok a => k a
  | Err e => Err e
  end.

Notation "x <- r ;; k" := (bind r (fun x => k))
  (at level 61, r at next level, right associativity).

(** ** Multi-indices *)

(** [set_nth i v l] is the JavaScript assignment [l[i] = v] for [i] inside
    the array. *)
Fixpoint set_nth {A : Type} (i : nat) (v : A) (l : list A) : list A :=
  match l, i with
  | [], _ => []
  | _ :: l', O => v :: l'
  | a :: l', S i' => a :: set_nth i' v l'
  end.

Fixpoint remove_nth {A : Type} (i : nat) (l : list A) : list A :=
  match l, i with
  | [], _ => []
  | _ :: l', O => l'
  | a :: l', S i' => a :: remove_nth i' l'
  end.

Fixpoint insert_nth {A : Type} (i : nat) (v : A) (l : list A) : list A :=
  match i, l with
  | O, _ => v :: l
  | S i', a :: l' => a :: insert_nth i' v l'
  | S _, [] => [v]
  end.

Fixpoint shape_eqb (s1 s2 : list nat) : bool :=
  match s1, s2 with
  | [], [] => true
  | a :: s1', b :: s2' => Nat.eqb a b && shape_eqb s1' s2'
  | _, _ => false
  end.

(** A multi-index lies inside a shape when it has the same rank and every
    coordinate is below the corresponding dimension. *)
Fixpoint in_bounds (loc s : list nat) : Prop :=
  match loc, s with
  | [], [] => True
  | i :: loc', d :: s' => i < d /\ in_bounds loc' s'
  | _, _ => False
  end.

(** All the multi-indices of a shape, in row-major order. *)
Fixpoint locs (s : list nat) : list (list nat) :=
  match s with
  | [] => [[]]
  | d :: s' => flat_map (fun i => map (cons i) (locs s')) (seq 0 d)
  end.

Definition sizeFromShape (s : list nat) : nat := fold_right Nat.mul 1 s.

(** ** Tensors *)

Record Tensor (A : Type) : Type := mkTensor {
  shape : list nat;
  get : list nat -> A
}.

Arguments mkTensor {A} shape get.

Definition rank {A : Type} (t : Tensor A) : nat := length (shape t).

(** The values of a tensor in row-major order (what [dataSync] returns). *)
Definition dataSync {A : Type} (t : Tensor A) : list A :=
  map (get t) (locs (shape t)).

(** Two tensors are the same when they have the same shape and hold the same
    value at every index of that shape. *)
Definition tensor_eq {A : Type} (t1 t2 : Tensor A) : Prop :=
  shape t1 = shape t2 /\
  forall loc, in_bounds loc (shape t1) -> get t1 loc = get t2 loc.



(** A rank-4 tensor from nested arrays ([tensor4d]); [d] fills the holes of a
    ragged literal. *)
Definition tensor4d {A : Type} (d : A) (b h w c : nat)
    (v : list (list (list (list A)))) : Tensor A :=
  mkTensor [b; h; w; c]
    (fun loc =>
       nth (nth 3 loc 0)
         (nth (nth 2 loc 0) (nth (nth 1 loc 0) (nth (nth 0 loc 0) v []) []) [])
         d).

(** ** tfjs-core operations on tensors *)

Module tfc.

Section Ops.
Context {A : Type}.

(** [x.gather(indices, axis)]: the slices of [x] along [axis] at the given
    positions.  tfjs-core does not check the indices: for an index outside
    [[0, dim)] it returns a tensor whose values at that position are not
    defined (NaN on the CPU backend).  The element type has no such value,
    so the model stops with [IndexOutOfRange] there; every statement about
    a result of [gather] below is for indices inside the axis. *)
Definition gather (x : Tensor A) (indices : list Z) (axis : nat)
  : Result (Tensor A) :=
  match nth_error (shape x) axis with
  | None => Err ShapeMismatch
  | Some d =>
      if forallb (fun i => (0 <=? i)%Z && (i <? Z.of_nat d)%Z) indices
      then Ok (mkTensor
                 (set_nth axis (length indices) (shape x))
                 (fun loc =>
                    get x (set_nth axis
                             (Z.to_nat (nth (nth axis loc 0) indices 0%Z))
                             loc)))
      else Err IndexOutOfRange
  end.

(** [tfc.concat([a, b], axis)]: all dimensions but [axis] must agree. *)
Definition concat (a b : Tensor A) (axis : nat) : Result (Tensor A) :=
  match nth_error (shape a) axis, nth_error (shape b) axis with
  | Some da, Some db =>
      if shape_eqb (set_nth axis 0 (shape a)) (set_nth axis 0 (shape b))
      then Ok (mkTensor
                 (set_nth axis (da + db) (shape a))
                 (fun loc =>
                    let i := nth axis loc 0 in
                    if i <? da then get a loc
                    else get b (set_nth axis (i - da) loc)))
      else Err ShapeMismatch
  | _, _ => Err ShapeMismatch
  end.

(** Element-wise application of a function ([tfc.sqrt], and the
    tensor-with-number forms of [add] and [mul]). *)
Definition map_tensor (f : A -> A) (x : Tensor A) : Tensor A :=
  mkTensor (shape x) (fun loc => f (get x loc)).

(** Row-major position of a multi-index, and back. *)
Fixpoint locToIndex_from (acc : nat) (s loc : list nat) : nat :=
  match s, loc with
  | d :: s', i :: loc' => locToIndex_from (acc * d + i) s' loc'
  | _, _ => acc
  end.

Definition locToIndex (s loc : list nat) : nat := locToIndex_from 0 s loc.

Fixpoint indexToLoc (s : list nat) (index : nat) : list nat :=
  match s with
  | [] => []
  | _ :: s' =>
      (index / sizeFromShape s') :: indexToLoc s' (index mod sizeFromShape s')
  end.

(** [x.reshape(newShape)]: same values in row-major order; the sizes must
    agree. *)
Definition reshape (x : Tensor A) (newShape : list nat)
  : Result (Tensor A) :=
  if sizeFromShape (shape x) =? sizeFromShape newShape
  then Ok (mkTensor newShape
             (fun loc => get x (indexToLoc (shape x)
                                  (locToIndex newShape loc))))
  else Err ShapeMismatch.

(** Broadcasting of two shapes, aligned at their last dimension. *)
Fixpoint broadcast_rev (ra rb : list nat) : option (list nat) :=
  match ra, rb with
  | [], _ => Some rb
  | _, [] => Some ra
  | a :: ra', b :: rb' =>
      match broadcast_rev ra' rb' with
      | None => None
      | Some r =>
          if a =? 1 then Some (b :: r)
          else if b =? 1 then Some (a :: r)
          else if a =? b then Some (a :: r)
          else None
      end
  end.

Definition assertAndGetBroadcastShape (sa sb : list nat)
  : option (list nat) :=
  option_map (@rev nat) (broadcast_rev (rev sa) (rev sb)).

(** The index an operand of shape [s] is read at, for index [loc] of the
    broadcast result: its trailing coordinates, with 0 on the dimensions
    of size 1. *)
Fixpoint zero_unit_dims (s loc : list nat) : list nat :=
  match s, loc with
  | d :: s', i :: loc' => (if d =? 1 then 0 else i) :: zero_unit_dims s' loc'
  | _, _ => []
  end.

Definition broadcast_loc (s loc : list nat) : list nat :=
  zero_unit_dims s (skipn (length loc - length s) loc).

(** A binary element-wise operation with broadcasting. *)
Definition binop (f : A -> A -> A) (a b : Tensor A) : Result (Tensor A) :=
  match assertAndGetBroadcastShape (shape a) (shape b) with
  | Some s =>
      Ok (mkTensor s
            (fun loc => f (get a (broadcast_loc (shape a) loc))
                          (get b (broadcast_loc (shape b) loc))))
  | None => Err ShapeMismatch
  end.

(** Splitting a shape, and putting an index back together, along the
    axes of a reduction. *)
Definition is_axis (axes : list nat) (pos : nat) : bool :=
  existsb (Nat.eqb pos) axes.

Fixpoint reduced_dims (axes : list nat) (pos : nat) (s : list nat)
  : list nat :=
  match s with
  | [] => []
  | d :: s' =>
      if is_axis axes pos then d :: reduced_dims axes (S pos) s'
      else reduced_dims axes (S pos) s'
  end.

Fixpoint kept_dims (axes : list nat) (pos : nat) (s : list nat)
  : list nat :=
  match s with
  | [] => []
  | d :: s' =>
      if is_axis axes pos then kept_dims axes (S pos) s'
      else d :: kept_dims axes (S pos) s'
  end.

Fixpoint assemble (axes : list nat) (pos n : nat) (kept red : list nat)
  : list nat :=
  match n with
  | O => []
  | S n' =>
      if is_axis axes pos
      then hd 0 red :: assemble axes (S pos) n' kept (tl red)
      else hd 0 kept :: assemble axes (S pos) n' (tl kept) red
  end.

End Ops.

(** The arithmetic of tensor elements.  tfjs computes on 32-bit floats; the
    layers are transcribed over an arbitrary carrier with these operations,
    and [fnum n d] is the number literal [n/d]. *)
Class Arith (F : Type) : Type := {
  fadd : F -> F -> F;
  fsub : F -> F -> F;
  fmul : F -> F -> F;
  fdiv : F -> F -> F;
  fsqrt : F -> F;
  fnum : Z -> positive -> F
}.

Section Numeric.
Context {F : Type} `{Arith F}.

Definition fzero : F := fnum 0 1.
Definition fone : F := fnum 1 1.
Definition fnat (n : nat) : F := fnum (Z.of_nat n) 1.
Definition fsum (l : list F) : F := fold_right fadd fzero l.

Definition add : Tensor F -> Tensor F -> Result (Tensor F) := binop fadd.
Definition sub : Tensor F -> Tensor F -> Result (Tensor F) := binop fsub.
Definition mul : Tensor F -> Tensor F -> Result (Tensor F) := binop fmul.
Definition div : Tensor F -> Tensor F -> Result (Tensor F) := binop fdiv.

Definition sqrt (x : Tensor F) : Tensor F := map_tensor fsqrt x.
Definition addScalar (x : Tensor F) (c : F) : Tensor F :=
  map_tensor (fun v => fadd v c) x.
Definition mulScalar (x : Tensor F) (c : F) : Tensor F :=
  map_tensor (fun v => fmul v c) x.

Definition ones (s : list nat) : Tensor F := mkTensor s (fun _ => fone).
Definition zeros (s : list nat) : Tensor F := mkTensor s (fun _ => fzero).
Definition tensor1d (l : list F) : Tensor F :=
  mkTensor [length l] (fun loc => nth (nth 0 loc 0) l fzero).

(** The values of [x] a reduction over [axes] combines into the entry
    [kept] of its result. *)
Definition reduced_values (x : Tensor F) (axes : list nat)
    (kept : list nat) : list F :=
  map (fun red => get x (assemble axes 0 (rank x) kept red))
      (locs (reduced_dims axes 0 (shape x))).

(** [x.mean(axes)], without [keepDims]. *)
Definition mean (x : Tensor F) (axes : list nat) : Tensor F :=
  mkTensor (kept_dims axes 0 (shape x))
    (fun kept =>
       fdiv (fsum (reduced_values x axes kept))
            (fnat (sizeFromShape (reduced_dims axes 0 (shape x))))).

(** [tfc.moments(x, axes)]: the mean, and the mean of the squared
    deviations from it. *)
Definition moments (x : Tensor F) (axes : list nat)
  : Tensor F * Tensor F :=
  let m := mean x axes in
  let variance :=
    mkTensor (kept_dims axes 0 (shape x))
      (fun kept =>
         fdiv (fsum (map (fun v => fmul (fsub v (get m kept))
                                        (fsub v (get m kept)))
                         (reduced_values x axes kept)))
              (fnat (sizeFromShape (reduced_dims axes 0 (shape x))))) in
  (m, variance).

(** [tfc.dot(v, m)] of a vector and a matrix: the vector-matrix product.
    The layers call it with the selector and a [style_num x dim] table. *)
Definition dot (v : list F) (m : Tensor F) : Result (Tensor F) :=
  match shape m with
  | [rows; cols] =>
      if length v =? rows
      then Ok (mkTensor [cols]
                 (fun loc =>
                    fsum (map (fun k => fmul (nth k v fzero)
                                             (get m [k; nth 0 loc 0]))
                              (seq 0 rows))))
      else Err ShapeMismatch
  | _ => Err ShapeMismatch
  end.

(** [tfc.pad(x, paddings)] with the constant 0: [paddings[i]] holds the
    number of zeros before and after dimension [i].  The model covers
    amounts that are not negative, one pair per dimension; for other
    arguments (tfjs-core crops with a negative amount) it stops with
    [ShapeMismatch]. *)
Fixpoint pad_shape (s : list nat) (paddings : list (Z * Z)) : list nat :=
  match s, paddings with
  | d :: s', (before, after) :: ps =>
      (Z.to_nat before + d + Z.to_nat after) :: pad_shape s' ps
  | _, _ => []
  end.

(** The index of [x] an index of the padded tensor is read from; none in
    the margins. *)
Fixpoint pad_source (s : list nat) (paddings : list (Z * Z))
    (loc : list nat) : option (list nat) :=
  match s, paddings, loc with
  | d :: s', (before, _) :: ps, i :: loc' =>
      if (Z.to_nat before <=? i) && (i <? Z.to_nat before + d)
      then option_map (cons (i - Z.to_nat before)) (pad_source s' ps loc')
      else None
  | _, _, _ => Some []
  end.

Definition pad (x : Tensor F) (paddings : list (Z * Z))
  : Result (Tensor F) :=
  if (length paddings =? rank x)
     && forallb (fun p => (0 <=? fst p)%Z && (0 <=? snd p)%Z) paddings
  then Ok (mkTensor (pad_shape (shape x) paddings)
             (fun loc =>
                match pad_source (shape x) paddings loc with
                | Some src => get x src
                | None => fzero
                end))
  else Err ShapeMismatch.

End Numeric.

End tfc.

(** The real numbers as carrier: the exact arithmetic the floats
    approximate. *)
#[export] Instance RArith : tfc.Arith R := {|
  tfc.fadd := Rplus;
  tfc.fsub := Rminus;
  tfc.fmul := Rmult;
  tfc.fdiv := Rdiv;
  tfc.fsqrt := R_sqrt.sqrt;
  tfc.fnum := fun n d => (IZR n / IZR (Zpos d))%R
|}.

(** ** Per-channel statistics, written out

    The quantities the normalization layers are specified by, stated
    directly on the elements of the input: for the channel axis [a] and the
    channel [c], the values at every index whose coordinate on [a] is [c],
    their mean, and the mean of their squared deviations. *)

Module Statistics.

Section Stats.
Context {F : Type} `{tfc.Arith F}.

Definition axis_values (x : Tensor F) (a c : nat) : list F :=
  map (fun rest => get x (insert_nth a c rest))
      (locs (remove_nth a (shape x))).

Definition list_mean (l : list F) : F :=
  tfc.fdiv (tfc.fsum l) (tfc.fnat (length l)).

Definition list_variance (l : list F) : F :=
  let m := list_mean l in
  list_mean (map (fun v => tfc.fmul (tfc.fsub v m) (tfc.fsub v m)) l).

Definition axis_mean (x : Tensor F) (a c : nat) : F :=
  list_mean (axis_values x a c).

Definition axis_variance (x : Tensor F) (a c : nat) : F :=
  list_variance (axis_values x a c).

(** [(x - mean) / (sqrt(variance) + epsilon)] at one index. *)
Definition standardized (x : Tensor F) (a : nat) (epsilon : F)
    (loc : list nat) : F :=
  let c := nth a loc 0 in
  tfc.fdiv (tfc.fsub (get x loc) (axis_mean x a c))
           (tfc.fadd (tfc.fsqrt (axis_variance x a c)) epsilon).

(** The other placement of epsilon, under the square root:
    [(x - mean) / sqrt(variance + epsilon)]. *)
Definition standardized_eps_inside (x : Tensor F) (a : nat) (epsilon : F)
    (loc : list nat) : F :=
  let c := nth a loc 0 in
  tfc.fdiv (tfc.fsub (get x loc) (axis_mean x a c))
           (tfc.fsqrt (tfc.fadd (axis_variance x a c) epsilon)).

(** Optional scaling and optional shifting of a value. *)
Definition affine (scale center : bool) (g b v : F) : F :=
  let v := if scale then tfc.fmul v g else v in
  if center then tfc.fadd v b else v.

(** Entry [c] of a weight vector; a weight that was not allocated counts
    for nothing. *)
Definition weight_at (w : option (Tensor F)) (c : nat) : F :=
  match w with
  | Some t => get t [c]
  | None => tfc.fzero
  end.

(** A forward pass computes per sample when the output for sample [b]
    depends on sample [b] of the input alone. *)
Definition computed_per_sample (f : Tensor F -> Result (Tensor F)) : Prop :=
  forall (x x' r r' : Tensor F) (b : nat),
    shape x = shape x' ->
    (forall loc, in_bounds loc (shape x) -> nth 0 loc 0 = b ->
                 get x loc = get x' loc) ->
    f x = Ok r -> f x' = Ok r' ->
    forall loc, in_bounds loc (shape x) -> nth 0 loc 0 = b ->
                get r loc = get r' loc.

(** Row [i] of a table, as a vector. *)
Definition row (i : nat) (t : Tensor F) : Tensor F :=
  mkTensor (tl (shape t)) (fun loc => get t (i :: loc)).

(** The selector that picks style [i] out of [n]. *)
Definition one_hot (i n : nat) : list F :=
  map (fun k => if k =? i then tfc.fone else tfc.fzero) (seq 0 n).

(** Entry [c] of the product of a selector with a table. *)
Definition selected (sw : list F) (t : Tensor F) (c : nat) : F :=
  tfc.fsum (map (fun k => tfc.fmul (nth k sw tfc.fzero) (get t [k; c]))
                (seq 0 (length sw))).

End Stats.

End Statistics.

(** The sum of a list of reals. *)
Definition Rsum (l : list R) : R := fold_right Rplus 0%R l.

(** [math_utils.range(begin, end)] *)
Definition range (b e : nat) : list nat := seq b (e - b).

(** [generic_utils.pyListRepeat(value, n)] *)
Definition pyListRepeat {A : Type} (value : A) (numValues : nat) : list A :=
  repeat value numValues.

(** [array.splice(start, 1)]: a negative [start] counts from the end, a
    [start] beyond the end removes nothing. *)
Definition splice1 {A : Type} (start : Z) (l : list A) : list A :=
  let len := Z.of_nat (length l) in
  let s := if (start <? 0)%Z then Z.max (len + start) 0
           else Z.min start len in
  remove_nth (Z.to_nat s) l.

(** A [Shape] of the layers API may hold [null] for a dimension that is not
    known. *)
Definition Shape : Type := list (option Z).

(** The shape of a tensor as a [Shape]. *)
Definition known (s : list nat) : Shape := map (fun d => Some (Z.of_nat d)) s.

(** JavaScript truthiness of an optional boolean option. *)
Definition truthy (b : option bool) : bool :=
  match b with Some true => true | _ => false end.

(** ** Configuration objects

    [getConfig] returns a [ConfigDict], an object that maps option names to
    values, and a layer is made again from such an object by handing it to
    the constructor as its [args] ([fromConfig] of the base class is
    [new cls(config)]).  The object is modelled as an association list. *)

Module serialization.

Section Config.
Context {F : Type}.

Inductive ConfigValue : Type :=
| Undefined
| Null
| Bool (b : bool)
| Int (z : Z)
| Num (v : F)
| Str (s : string)
| Arr (l : list Z)
| Arr2 (l : list (list Z))
| Obj (className : string).

Definition ConfigDict : Type := list (string * ConfigValue).

(** [config[key]]: [undefined] for a key the object does not have. *)
Fixpoint lookup (key : string) (config : ConfigDict) : ConfigValue :=
  match config with
  | [] => Undefined
  | (k, v) :: rest => if String.eqb k key then v else lookup key rest
  end.

Definition has_key (key : string) (config : ConfigDict) : bool :=
  existsb (fun kv => String.eqb (fst kv) key) config.

(** [config[key] = v] *)
Fixpoint assign_key (key : string) (v : ConfigValue) (config : ConfigDict)
  : ConfigDict :=
  match config with
  | [] => [(key, v)]
  | (k, v') :: rest =>
      if String.eqb k key then (k, v) :: rest
      else (k, v') :: assign_key key v rest
  end.

(** [Object.assign(target, source)] *)
Definition assign (target source : ConfigDict) : ConfigDict :=
  fold_left (fun acc kv => assign_key (fst kv) (snd kv) acc) source target.

(** An optional boolean option as a value of the object. *)
Definition of_bool (b : option bool) : ConfigValue :=
  match b with Some b => Bool b | None => Undefined end.

(** The readings [args.key == null ? ... : args.key] make of a value, by
    the kind of value the option holds. *)
Definition as_int (v : ConfigValue) : option Z :=
  match v with Int z => Some z | _ => None end.

Definition as_num (v : ConfigValue) : option F :=
  match v with Num e => Some e | _ => None end.

Definition as_bool (v : ConfigValue) : option bool :=
  match v with Bool b => Some b | _ => None end.

Definition as_string (v : ConfigValue) : option string :=
  match v with Str s => Some s | _ => None end.

End Config.

Arguments ConfigValue F : clear implicits.
Arguments ConfigDict F : clear implicits.

End serialization.

(** ** Reflection padding (src/tfjs-layers/src/layers/reflectionpadding.ts) *)

Module ReflectionPadding.

(** [[[top, bottom], [left, right]]] *)
Definition Padding : Type := (Z * Z) * (Z * Z).

(** The values [lo, lo+1, ...] a counting [for] loop visits in [n] rounds. *)
Fixpoint count_from (lo : Z) (n : nat) : list Z :=
  match n with
  | O => []
  | S n' => lo :: count_from (lo + 1) n'
  end.

(** [for (let i = 1; i <= paddingNum; i++) rightIndex.push(width - i)] *)
Definition rightIndex (width paddingNum : Z) : list Z :=
  map (fun i => (width - i)%Z) (count_from 1 (Z.to_nat paddingNum)).

(** [for (let i = paddingNum - 1; i >= 0; i--) leftTopIndex.push(i)] *)
Definition leftTopIndex (paddingNum : Z) : list Z :=
  rev (count_from 0 (Z.to_nat paddingNum)).

(** [for (let i = 1; i <= paddingNum; i++)
       bottomIndex.push(height + paddingNum - i)] *)
Definition bottomIndex (height paddingNum : Z) : list Z :=
  map (fun i => (height + paddingNum - i)%Z)
      (count_from 1 (Z.to_nat paddingNum)).

Section Pad.
Context {A : Type}.

Definition reflection2dPadding (x : Tensor A) (padding : Padding)
  : Result (Tensor A) :=
  let paddingNum := fst (fst padding) in
  let width := Z.of_nat (nth 2 (shape x) 0) in
  let height := Z.of_nat (nth 1 (shape x) 0) in
  (* right *)
  b <- tfc.gather x (rightIndex width paddingNum) 2 ;;
  result <- tfc.concat x b 2 ;;
  (* left *)
  b <- tfc.gather x (leftTopIndex paddingNum) 2 ;;
  result <- tfc.concat b result 2 ;;
  (* top *)
  b <- tfc.gather result (leftTopIndex paddingNum) 1 ;;
  result <- tfc.concat b result 1 ;;
  (* bottom *)
  b <- tfc.gather result (bottomIndex height paddingNum) 1 ;;
  result <- tfc.concat result b 1 ;;
  Ok result.

End Pad.

(** The [padding] option: a number, an array of numbers, or an array of
    arrays of numbers (the constructor tells them apart with [typeof]). *)
Inductive PaddingArg : Type :=
| PadNumber (p : Z)
| PadPair (l : list Z)
| PadNested (l : list (list Z)).

Record ReflectionPadding2DLayerArgs : Type := mkArgs {
  args_padding : option PaddingArg;
  args_dim_ordering : option string
}.

Record ReflectionPadding2D : Type := mkLayer {
  dim_ordering : string;
  padding : Padding
}.

Definition constructor (args : option ReflectionPadding2DLayerArgs)
  : Result ReflectionPadding2D :=
  let args := match args with
              | None => mkArgs None None
              | Some a => a
              end in
  let dim_ordering := match args_dim_ordering args with
                      | None => "default"%string
                      | Some d => d
                      end in
  match args_padding args with
  | None => Ok (mkLayer dim_ordering ((1, 1), (1, 1))%Z)
  | Some (PadNumber p) => Ok (mkLayer dim_ordering ((p, p), (p, p)))
  | Some (PadPair l) =>
      match l with
      | [h; w] => Ok (mkLayer dim_ordering ((h, h), (w, w)))
      | _ => Err ValueError
      end
  | Some (PadNested l) =>
      match l with
      | [hp; wp] =>
          match hp with
          | [t; b] =>
              match wp with
              | [lft; rgt] => Ok (mkLayer dim_ordering ((t, b), (lft, rgt)))
              | _ => Err ValueError
              end
          | _ => Err ValueError
          end
      | _ => Err ValueError
      end
  end.

Definition computeOutputShape (l : ReflectionPadding2D) (inputShape : Shape)
  : Shape :=
  let rows :=
    match nth 1 inputShape None with
    | Some h => if (0 <=? h)%Z
                then Some (h + fst (fst (padding l)) + snd (fst (padding l)))%Z
                else None
    | None => None
    end in
  let cols :=
    match nth 2 inputShape None with
    | Some w => if (0 <=? w)%Z
                then Some (w + fst (snd (padding l)) + snd (snd (padding l)))%Z
                else None
    | None => None
    end in
  [nth 0 inputShape None; rows; cols; nth 3 inputShape None].

Definition call {A : Type} (l : ReflectionPadding2D) (inputs : Tensor A)
  : Result (Tensor A) :=
  reflection2dPadding inputs (padding l).

(** Construction followed by the forward pass. *)
Definition construct_and_call {A : Type}
    (args : option ReflectionPadding2DLayerArgs) (x : Tensor A)
  : Result (Tensor A) :=
  l <- constructor args ;; call l x.

(** The arguments [{padding: p}]. *)
Definition number_padding (p : Z) : option ReflectionPadding2DLayerArgs :=
  Some (mkArgs (Some (PadNumber p)) None).

(** *** The two index rules *)

(** The rule of the specification: relative index [-k] reads source index
    [k], relative index [n-1+k] reads source index [n-1-k]. *)
Definition spec_reflect (r n : Z) : Z :=
  if (r <? 0)%Z then (- r)%Z
  else if (n <=? r)%Z then (2 * (n - 1) - r)%Z
  else r.

(** The rule the code follows: relative index [-k] reads source index [k-1],
    relative index [n-1+k] reads source index [n-k]; the border element is
    repeated. *)
Definition mirror (r n : Z) : Z :=
  if (r <? 0)%Z then (- r - 1)%Z
  else if (n <=? r)%Z then (2 * n - 1 - r)%Z
  else r.

(** Source index on an axis of extent [n] for output index [j] under margin
    [p], by either rule. *)
Definition src_index (rule : Z -> Z -> Z) (j : nat) (p : Z) (n : nat) : nat :=
  Z.to_nat (rule (Z.of_nat j - p)%Z (Z.of_nat n)).

(** One axis padded by the rule of the code, as a tensor of its own. *)
Definition mirror_axis {A : Type} (x : Tensor A) (p : Z) (axis : nat)
  : Tensor A :=
  let n := nth axis (shape x) 0 in
  mkTensor (set_nth axis (n + 2 * Z.to_nat p) (shape x))
           (fun loc =>
              get x (set_nth axis (src_index mirror (nth axis loc 0) p n) loc)).

(** The margins the specification calls valid. *)
Definition valid_margins (h w : nat) (pad : Padding) : Prop :=
  (0 <= fst (fst pad) <= Z.of_nat h - 1)%Z /\
  (0 <= snd (fst pad) <= Z.of_nat h - 1)%Z /\
  (0 <= fst (snd pad) <= Z.of_nat w - 1)%Z /\
  (0 <= snd (snd pad) <= Z.of_nat w - 1)%Z.

(** The claimed contents of the padded tensor. *)
Definition reflection_rule {A : Type} (x : Tensor A) (pad : Padding)
    (r : Tensor A) : Prop :=
  forall b i j c,
    in_bounds [b; i; j; c] (shape r) ->
    get r [b; i; j; c] =
    get x [b;
           src_index spec_reflect i (fst (fst pad)) (nth 1 (shape x) 0);
           src_index spec_reflect j (fst (snd pad)) (nth 2 (shape x) 0);
           c].

(** *** [temporalPadding] *)

Section Temporal.
Context {F : Type} `{tfc.Arith F}.

(** Zeros before and after the middle dimension of a rank-3 tensor; the
    pattern handed to [tfc.pad] is [[[0, 0], padding, [0, 0]]]. *)
Definition temporalPadding (x : Tensor F) (padding : option (list Z))
  : Result (Tensor F) :=
  if negb (rank x =? 3) then Err ValueError
  else
    let padding := match padding with
                   | None => [1; 1]%Z
                   | Some p => p
                   end in
    match padding with
    | [p0; p1] => tfc.pad x [(0, 0); (p0, p1); (0, 0)]%Z
    | _ => Err ValueError
    end.

End Temporal.

(** *** Serialization *)

Section Serialization.
Context {F : Type}.
Import serialization.

(** [super.getConfig()], the entries of the base class. *)
Variable baseConfig : ConfigDict F.

(** [config = {padding: this.padding};
     Object.assign(config, baseConfig)] *)
Definition getConfig (l : ReflectionPadding2D) : ConfigDict F :=
  let config :=
    [("padding"%string,
      Arr2 [[fst (fst (padding l)); snd (fst (padding l))];
            [fst (snd (padding l)); snd (snd (padding l))]])] in
  assign config baseConfig.

(** The constructor arguments a configuration object is read as. *)
Definition args_of_config (config : ConfigDict F)
  : ReflectionPadding2DLayerArgs :=
  mkArgs
    (match lookup "padding" config with
     | Int p => Some (PadNumber p)
     | Arr l => Some (PadPair l)
     | Arr2 l => Some (PadNested l)
     | _ => None
     end)
    (as_string (lookup "dim_ordering" config)).

(** [new ReflectionPadding2D(config)] *)
Definition fromConfig (config : ConfigDict F) : Result ReflectionPadding2D :=
  constructor (Some (args_of_config config)).

End Serialization.

End ReflectionPadding.

(** ** Reflection padding on nested arrays (src/unnamed/part_000)

    The second definition of [reflection2dPadding] works on the nested
    array [x.arraySync()], which it mutates with [push] and [unshift], and
    ends with [tfc.tensor4d(xArray)].  Reading an array outside its bounds
    gives [undefined], so the entries of the mutated arrays are optional. *)

Module ReflectionPadding_part_000.

Section Arrays.
Context {X : Type}.

(** [arr[i]] *)
Definition js_index (arr : list X) (i : Z) : option X :=
  if (i <? 0)%Z then None else nth_error arr (Z.to_nat i).

(** The rounds [j, j+1, ...] of
    [for (let j = 0; j < num; j++) {
       item.push(originArr[len - (j + 1)])
       item.unshift(originArr[0 + j]) }] *)
Fixpoint push_unshift (originArr : list X) (len j : Z) (rounds : nat)
    (item : list (option X)) : list (option X) :=
  match rounds with
  | O => item
  | S rounds' =>
      let item := item ++ [js_index originArr (len - (j + 1))] in
      let item := js_index originArr (0 + j) :: item in
      push_unshift originArr len (j + 1) rounds' item
  end.

(** [originArr = item.concat([]); len = originArr.length] and the loop,
    for an array [item] without holes. *)
Definition mirror_array (num : Z) (item : list X) : list (option X) :=
  let originArr := item in
  let len := Z.of_nat (length originArr) in
  push_unshift originArr len 0 (Z.to_nat num) (map Some item).

End Arrays.

Section Pad.
Context {A : Type}.

(** A pixel is the array of its channel values; a row and an image that
    went through the loops may have holes. *)
Definition Pixel : Type := list A.
Definition Row : Type := list (option Pixel).
Definition Image : Type := list (option Row).

(** [x.arraySync()] of a rank-4 tensor; a tensor without elements is
    turned into the empty array, whatever its shape. *)
Definition arraySync (x : Tensor A) : option (list (list (list Pixel))) :=
  match shape x with
  | [B; H; W; C] =>
      if sizeFromShape (shape x) =? 0 then Some []
      else
        Some (map (fun b =>
                map (fun i =>
                  map (fun j =>
                    map (fun c => get x [b; i; j; c]) (seq 0 C))
                    (seq 0 W))
                  (seq 0 H))
                (seq 0 B))
  | _ => None
  end.

(** An image without holes, as an image that may have some. *)
Definition full_image (img : list (list Pixel)) : Image :=
  map (fun row => Some (map Some row)) img.

(** The array [xArray] the function hands to [tfc.tensor4d].  Only
    [xArray[0]] goes through the loops; for a tensor without elements
    [xArray[0]] is [undefined] and reading its [length] is a [TypeError].  On a tensor of
    another rank the function throws as well (in the loops or in
    [tensor4d]); the model does not tell these failures apart. *)
Definition reflection2dPadding (x : Tensor A)
    (padding : ReflectionPadding.Padding) : Result (list Image) :=
  match arraySync x with
  | None => Err ShapeMismatch
  | Some xArray =>
      let num := fst (fst padding) in
      match xArray with
      | [] => Err TypeError
      | first :: rest =>
          let rows := map (mirror_array num) first in
          let first' := mirror_array num rows in
          Ok (first' :: map full_image rest)
      end
  end.

Definition call (l : ReflectionPadding.ReflectionPadding2D)
    (inputs : Tensor A) : Result (list Image) :=
  reflection2dPadding inputs (ReflectionPadding.padding l).

End Pad.

End ReflectionPadding_part_000.

(** ** Instance normalization
       (src/tfjs-layers/src/layers/instancenormalization.ts) *)

Module InstanceNormalization.

Section Layer.
Context {F : Type} `{tfc.Arith F}.

(** The initializers are fixed to "zeros" and "ones" by the constructor;
    regularizers and constraints play no part in the forward pass. *)
Record InstanceNormalizationLayerArgs : Type := mkArgs {
  args_axis : option Z;
  args_epsilon : option F;
  args_center : option bool;
  args_scale : option bool
}.

Record Layer : Type := mkLayer {
  axis : Z;
  epsilon : F;
  center : option bool;
  scale : option bool;
  gamma : option (Tensor F);
  beta : option (Tensor F)
}.

Definition constructor (args : option InstanceNormalizationLayerArgs)
  : Layer :=
  let args := match args with
              | None => mkArgs None None None None
              | Some a => a
              end in
  mkLayer
    (match args_axis args with None => (-1)%Z | Some a => a end)
    (match args_epsilon args with None => tfc.fnum 1 1000 | Some e => e end)
    (args_center args)
    (args_scale args)
    None None.

(** [this.axis >= 0 ? this.axis : (this.axis + ndim)] *)
Definition resolve_axis (l : Layer) (ndim : nat) : Z :=
  if (0 <=? axis l)%Z then axis l else (axis l + Z.of_nat ndim)%Z.

(** [reductionAxes = range(0, ndim); reductionAxes.splice(axis, 1)] *)
Definition reductionAxes (l : Layer) (ndim : nat) : list nat :=
  splice1 (resolve_axis l ndim) (range 0 ndim).

Definition build (l : Layer) (inputShape : Shape) : Result Layer :=
  let axis' := resolve_axis l (length inputShape) in
  let dim := if (axis' <? 0)%Z then None
             else nth (Z.to_nat axis') inputShape None in
  match dim with
  | None => Err ValueError
  | Some dim =>
      let shape := [Z.to_nat dim] in
      let gamma := if truthy (scale l) then Some (tfc.ones shape)
                   else None in
      let beta := if truthy (center l) then Some (tfc.zeros shape)
                  else None in
      Ok (mkLayer (axis l) (epsilon l)
                  (center l) (scale l) gamma beta)
  end.

Definition computeOutputShape (l : Layer) (inputShape : Shape) : Shape :=
  inputShape.

(** [w.read().reshape(broadcastShape)] on a weight that may be [null]. *)
Definition read_reshape (w : option (Tensor F)) (broadcastShape : list nat)
  : Result (Tensor F) :=
  match w with
  | Some t => tfc.reshape t broadcastShape
  | None => Err TypeError
  end.

(** The forward pass.  [inputShape[axis]] is [undefined] when the axis
    lies outside the rank of the input; [build] has refused such an input
    shape with a [ValueError], which the model repeats here. *)
Definition call (l : Layer) (input : Tensor F) : Result (Tensor F) :=
  let inputShape := shape input in
  let ndim := length inputShape in
  let axis' := resolve_axis l ndim in
  let reductionAxes := reductionAxes l ndim in
  let broadcastShape := pyListRepeat 1 ndim in
  match (if (axis' <? 0)%Z then None
         else nth_error inputShape (Z.to_nat axis')) with
  | None => Err ValueError
  | Some d =>
      let broadcastShape := set_nth (Z.to_nat axis') d broadcastShape in
      broadcastBeta <-
        (if truthy (center l)
         then b <- read_reshape (beta l) broadcastShape ;; Ok (Some b)
         else Ok None) ;;
      broadcastGamma <-
        (if truthy (scale l)
         then g <- read_reshape (gamma l) broadcastShape ;; Ok (Some g)
         else Ok None) ;;
      let meanAndVar := tfc.moments input reductionAxes in
      let mean := fst meanAndVar in
      let variance := snd meanAndVar in
      let stddev := tfc.addScalar (tfc.sqrt variance) (epsilon l) in
      centred <- tfc.sub input mean ;;
      normed <- tfc.div centred stddev ;;
      normed <-
        (if truthy (scale l)
         then match broadcastGamma with
              | Some g => tfc.mul normed g
              | None => Err TypeError
              end
         else Ok normed) ;;
      normed <-
        (if truthy (center l)
         then match broadcastBeta with
              | Some b => tfc.add normed b
              | None => Err TypeError
              end
         else Ok normed) ;;
      Ok normed
  end.

(** *** Serialization *)

Section Serialization.
Import serialization.

(** The serialized regularizers and constraints, which the model of the
    layer does not keep, and [super.getConfig()]. *)
Variables beta_regularizer gamma_regularizer : ConfigValue F.
Variables beta_constraint gamma_constraint : ConfigValue F.
Variable baseConfig : ConfigDict F.

Definition getConfig (l : Layer) : ConfigDict F :=
  let config :=
    [("axis"%string, Int (axis l));
     ("epsilon"%string, Num (epsilon l));
     ("center"%string, of_bool (center l));
     ("scale"%string, of_bool (scale l));
     ("beta_initializer"%string, Obj "Zeros");
     ("gamma_initializer"%string, Obj "Ones");
     ("beta_regularizer"%string, beta_regularizer);
     ("gamma_regularizer"%string, gamma_regularizer);
     ("beta_constraint"%string, beta_constraint);
     ("gamma_constraint"%string, gamma_constraint)] in
  assign config baseConfig.

(** The constructor arguments a configuration object is read as. *)
Definition args_of_config (config : ConfigDict F)
  : InstanceNormalizationLayerArgs :=
  mkArgs (as_int (lookup "axis" config))
         (as_num (lookup "epsilon" config))
         (as_bool (lookup "center" config))
         (as_bool (lookup "scale" config)).

(** [new InstanceNormalization(config)] *)
Definition fromConfig (config : ConfigDict F) : Layer :=
  constructor (Some (args_of_config config)).

End Serialization.

End Layer.

End InstanceNormalization.

(** ** Conditional instance normalization
       (src/tfjs-layers/src/layers/conditionalinstancenormalization.ts) *)

Module ConditionalInstanceNormalization.

Section Layer.
Context {F : Type} `{tfc.Arith F}.

Record ConditionalInstanceNormalizationLayerArgs : Type := mkArgs {
  args_axis : option Z;
  args_epsilon : option F;
  args_center : option bool;
  args_scale : option bool;
  args_styleNum : option Z
}.

Record Layer : Type := mkLayer {
  axis : Z;
  epsilon : F;
  center : option bool;
  scale : option bool;
  style_num : option Z;
  gamma : option (Tensor F);
  beta : option (Tensor F);
  sw : option (list F)
}.

Definition constructor
    (args : option ConditionalInstanceNormalizationLayerArgs) : Layer :=
  let args := match args with
              | None => mkArgs None None None None None
              | Some a => a
              end in
  mkLayer
    (match args_axis args with None => (-1)%Z | Some a => a end)
    (match args_epsilon args with None => tfc.fnum 1 1000 | Some e => e end)
    (args_center args)
    (args_scale args)
    (args_styleNum args)
    None None None.

(** [this.sw = []; for (i = 0; i < style_num; i++) this.sw.push(0);
     this.sw[0] = 1]: the assignment extends an empty array. *)
Definition initial_sw (style_num : option Z) : list F :=
  let n := match style_num with Some n => Z.to_nat n | None => O end in
  match repeat tfc.fzero n with
  | [] => [tfc.fone]
  | _ :: rest => tfc.fone :: rest
  end.

(** [this.axis >= 0 ? this.axis : (this.axis + ndim)] *)
Definition resolve_axis (l : Layer) (ndim : nat) : Z :=
  if (0 <=? axis l)%Z then axis l else (axis l + Z.of_nat ndim)%Z.

(** [reductionAxes = range(0, ndim); reductionAxes.splice(axis, 1)] *)
Definition reductionAxes (l : Layer) (ndim : nat) : list nat :=
  splice1 (resolve_axis l ndim) (range 0 ndim).

(** [build] has just created the selector when it tests [this.sw != null],
    so it always allocates the two [style_num x dim] tables.  A negative
    number of rows cannot be allocated; without [style_num] the tables hold
    no data, which is modelled as no rows. *)
Definition build (l : Layer) (inputShape : Shape) : Result Layer :=
  let axis' := resolve_axis l (length inputShape) in
  let dim := if (axis' <? 0)%Z then None
             else nth (Z.to_nat axis') inputShape None in
  match dim with
  | None => Err ValueError
  | Some dim =>
      let sw := initial_sw (style_num l) in
      let rows := match style_num l with Some n => n | None => 0%Z end in
      if (0 <=? rows)%Z
      then
        let new_shape := [Z.to_nat rows; Z.to_nat dim] in
        Ok (mkLayer (axis l)
                    (epsilon l) (center l) (scale l) (style_num l)
                    (Some (tfc.ones new_shape))
                    (Some (tfc.zeros new_shape))
                    (Some sw))
      else Err ShapeMismatch
  end.

Definition computeOutputShape (l : Layer) (inputShape : Shape) : Shape :=
  inputShape.

(** Weights read from a trained model replace the initial tables
    ([LayerVariable.write]); nothing else of the layer changes. *)
Definition load_weights (l : Layer) (g b : Tensor F) : Layer :=
  mkLayer (axis l) (epsilon l) (center l) (scale l) (style_num l)
          (Some g) (Some b) (sw l).

(** The same layer with other values of the [scale] and [center]
    options. *)
Definition with_toggles (l : Layer) (sc ce : option bool) : Layer :=
  mkLayer (axis l) (epsilon l) ce sc (style_num l)
          (gamma l) (beta l) (sw l).

(** [tfc.dot(this.sw, w.read())] on a weight that may be [null]. *)
Definition read_dot (sw : list F) (w : option (Tensor F))
  : Result (Tensor F) :=
  match w with
  | Some t => tfc.dot sw t
  | None => Err TypeError
  end.

Definition call (l : Layer) (input : Tensor F) : Result (Tensor F) :=
  let inputShape := shape input in
  let ndim := length inputShape in
  let axis' := resolve_axis l ndim in
  let reductionAxes := reductionAxes l ndim in
  let broadcastShape := pyListRepeat 1 ndim in
  match (if (axis' <? 0)%Z then None
         else nth_error inputShape (Z.to_nat axis')) with
  | None => Err ValueError
  | Some d =>
      let broadcastShape := set_nth (Z.to_nat axis') d broadcastShape in
      let meanAndVar := tfc.moments input reductionAxes in
      let mean := fst meanAndVar in
      let variance := snd meanAndVar in
      let stddev := tfc.addScalar (tfc.sqrt variance) (epsilon l) in
      centred <- tfc.sub input mean ;;
      normed <- tfc.div centred stddev ;;
      match sw l with
      | Some sw =>
          betaW <- read_dot sw (beta l) ;;
          gammaW <- read_dot sw (gamma l) ;;
          broadcastBeta <- tfc.reshape betaW broadcastShape ;;
          broadcastGamma <- tfc.reshape gammaW broadcastShape ;;
          normed <- tfc.mul normed broadcastGamma ;;
          normed <- tfc.add normed broadcastBeta ;;
          Ok normed
      | None =>
          broadcastBeta <-
            (if truthy (center l)
             then b <- InstanceNormalization.read_reshape (beta l)
                         broadcastShape ;; Ok (Some b)
             else Ok None) ;;
          broadcastGamma <-
            (if truthy (scale l)
             then g <- InstanceNormalization.read_reshape (gamma l)
                         broadcastShape ;; Ok (Some g)
             else Ok None) ;;
          normed <-
            (if truthy (scale l)
             then match broadcastGamma with
                  | Some g => tfc.mul normed g
                  | None => Err TypeError
                  end
             else Ok normed) ;;
          normed <-
            (if truthy (center l)
             then match broadcastBeta with
                  | Some b => tfc.add normed b
                  | None => Err TypeError
                  end
             else Ok normed) ;;
          Ok normed
      end
  end.

(** *** Serialization *)

Section Serialization.
Import serialization.

(** The serialized regularizers and constraints, which the model of the
    layer does not keep, and [super.getConfig()]. *)
Variables beta_regularizer gamma_regularizer : ConfigValue F.
Variables beta_constraint gamma_constraint : ConfigValue F.
Variable baseConfig : ConfigDict F.

Definition getConfig (l : Layer) : ConfigDict F :=
  let config :=
    [("axis"%string, Int (axis l));
     ("epsilon"%string, Num (epsilon l));
     ("center"%string, of_bool (center l));
     ("scale"%string, of_bool (scale l));
     ("beta_initializer"%string, Obj "Zeros");
     ("gamma_initializer"%string, Obj "Ones");
     ("beta_regularizer"%string, beta_regularizer);
     ("gamma_regularizer"%string, gamma_regularizer);
     ("beta_constraint"%string, beta_constraint);
     ("gamma_constraint"%string, gamma_constraint);
     ("style_num"%string,
      match style_num l with Some n => Int n | None => Undefined end)] in
  assign config baseConfig.

(** The constructor arguments a configuration object is read as: the
    constructor reads [args.styleNum]. *)
Definition args_of_config (config : ConfigDict F)
  : ConditionalInstanceNormalizationLayerArgs :=
  mkArgs (as_int (lookup "axis" config))
         (as_num (lookup "epsilon" config))
         (as_bool (lookup "center" config))
         (as_bool (lookup "scale" config))
         (as_int (lookup "styleNum" config)).

(** [new ConditionalInstanceNormalization(config)] *)
Definition fromConfig (config : ConfigDict F) : Layer :=
  constructor (Some (args_of_config config)).

End Serialization.

End Layer.

End ConditionalInstanceNormalization.

(** ** The deprocessing layer *)

(** src/tfjs-layers/src/layers/deprocess.ts *)
Module DeprocessStylizedImage.

Section Layer.
Context {F : Type}.

Record Layer : Type := mkLayer { activation : string }.

Definition constructor (args : option (option string)) : Layer :=
  let args_activation := match args with None => None | Some a => a end in
  mkLayer (match args_activation with
           | None => "sigmoid"%string
           | Some a => a
           end).

Definition computeOutputShape (l : Layer) (inputShape : Shape) : Shape :=
  inputShape.

Definition call (l : Layer) (inputs : Tensor F) : Tensor F := inputs.

(** [getConfig] returns [super.getConfig()], the entries of the base
    class, as it is. *)
Definition getConfig (baseConfig : serialization.ConfigDict F) (l : Layer)
  : serialization.ConfigDict F :=
  baseConfig.

(** [new DeprocessStylizedImage(config)] *)
Definition fromConfig (config : serialization.ConfigDict F) : Layer :=
  constructor
    (Some (serialization.as_string
             (serialization.lookup "activation" config))).

End Layer.

End DeprocessStylizedImage.

(** src/unnamed/part_001: the second definition of the same class. *)
Module DeprocessStylizedImage_part_001.

Section Layer.
Context {F : Type} `{tfc.Arith F}.

Record Layer : Type := mkLayer { activation : option string }.

Definition constructor (args : option (option string)) : Layer :=
  mkLayer (match args with None => None | Some a => a end).

Definition computeOutputShape (l : Layer) (inputShape : Shape) : Shape :=
  inputShape.

(** [this.activation === s], where the activation may be [undefined]. *)
Definition strict_equal (a : option string) (s : string) : bool :=
  match a with
  | Some a => String.eqb a s
  | None => false
  end.

Definition call (l : Layer) (inputs : Tensor F) : Tensor F :=
  let x := inputs in
  if strict_equal (activation l) "tanh"
  then tfc.mulScalar (tfc.addScalar x (tfc.fnum 1 1)) (tfc.fnum 255 2)
  else tfc.mulScalar x (tfc.fnum 255 1).

(** [getConfig] returns [super.getConfig()], the entries of the base
    class, as it is. *)
Definition getConfig (baseConfig : serialization.ConfigDict F) (l : Layer)
  : serialization.ConfigDict F :=
  baseConfig.

(** [new DeprocessStylizedImage(config)] *)
Definition fromConfig (config : serialization.ConfigDict F) : Layer :=
  constructor
    (Some (serialization.as_string
             (serialization.lookup "activation" config))).

End Layer.

End DeprocessStylizedImage_part_001.

(** ** Inputs and layers used in the examples *)

Module Examples.

Definition x23 : Tensor Z :=
  tensor4d 0%Z 1 2 3 1 [[[[1]; [2]; [3]]; [[4]; [5]; [6]]]]%Z.

Definition x33 : Tensor Z :=
  tensor4d 0%Z 1 3 3 1
    [[[[1]; [2]; [3]]; [[4]; [5]; [6]]; [[7]; [8]; [9]]]]%Z.

Definition x44 : Tensor Z :=
  tensor4d 0%Z 1 4 4 1
    [[[[1]; [2]; [3]; [4]]; [[5]; [6]; [7]; [8]];
      [[9]; [10]; [11]; [12]]; [[13]; [14]; [15]; [16]]]]%Z.

(** A batch of two 1x1 images with one channel, and the same batch with
    the second image changed. *)
Definition batch_a : Tensor R :=
  tensor4d 0%R 2 1 1 1 [[[[0]]]; [[[2]]]]%R.

Definition batch_b : Tensor R :=
  tensor4d 0%R 2 1 1 1 [[[[0]]]; [[[0]]]]%R.

(** A 2x2 image whose only channel is constant. *)
Definition flat5 : Tensor R :=
  tensor4d 0%R 1 2 2 1 [[[[5]; [5]]; [[5]; [5]]]]%R.

Definition one_pixel : Tensor R := tfc.tensor1d [1%R].

(** [new InstanceNormalization()] *)
Definition plain_default : @InstanceNormalization.Layer R :=
  InstanceNormalization.constructor None.

(** [new InstanceNormalization({epsilon: 0, center: true, scale: true})],
    and the layer [build] makes of it for a last dimension of 1. *)
Definition unit_weights_args
  : @InstanceNormalization.InstanceNormalizationLayerArgs R :=
  InstanceNormalization.mkArgs None (Some 0%R) (Some true) (Some true).

Definition unit_weights : @InstanceNormalization.Layer R :=
  InstanceNormalization.mkLayer (-1) 0%R (Some true) (Some true)
    (Some (tfc.ones [1])) (Some (tfc.zeros [1])).

(** [new InstanceNormalization({epsilon: 0})]: neither scale nor shift. *)
Definition bare_eps0 : @InstanceNormalization.Layer R :=
  InstanceNormalization.constructor
    (Some (InstanceNormalization.mkArgs None (Some 0%R) None None)).

(** [new ConditionalInstanceNormalization({styleNum: 1})], built. *)
Definition conditional_built
  : Result (@ConditionalInstanceNormalization.Layer R) :=
  ConditionalInstanceNormalization.build
    (ConditionalInstanceNormalization.constructor
       (Some (ConditionalInstanceNormalization.mkArgs None None None None
                (Some 1%Z))))
    (known [2; 1; 1; 1]).

(** [new ConditionalInstanceNormalization(
       {center: false, scale: false, styleNum: 1})],
    and the layer [build] makes of it for a last dimension of 1. *)
Definition toggles_off_args
  : @ConditionalInstanceNormalization.ConditionalInstanceNormalizationLayerArgs R :=
  ConditionalInstanceNormalization.mkArgs None None (Some false) (Some false)
    (Some 1%Z).

Definition toggles_off : @ConditionalInstanceNormalization.Layer R :=
  ConditionalInstanceNormalization.mkLayer (-1) (1 / 1000)%R
    (Some false) (Some false) (Some 1%Z)
    (Some (tfc.ones [1; 1])) (Some (tfc.zeros [1; 1]))
    (Some [tfc.fone]).

(** A one-style table that holds [v] for every channel. *)
Definition constant_table (v : R) : Tensor R := mkTensor [1; 1] (fun _ => v).



Definition two_styles_args
  : @ConditionalInstanceNormalization.ConditionalInstanceNormalizationLayerArgs R :=
  ConditionalInstanceNormalization.mkArgs None None None None (Some 2%Z).

Definition two_styles_built : @ConditionalInstanceNormalization.Layer R :=
  ConditionalInstanceNormalization.mkLayer (-1) (1 / 1000)%R None None
    (Some 2%Z)
    (Some (tfc.ones [2; 1])) (Some (tfc.zeros [2; 1]))
    (Some [tfc.fone; tfc.fzero]).


(** [new InstanceNormalization({center: true, scale: true})], and the
    layer [build] makes of it for a last dimension of 1. *)
Definition affine_args
  : @InstanceNormalization.InstanceNormalizationLayerArgs R :=
  InstanceNormalization.mkArgs None None (Some true) (Some true).

Definition affine_built : @InstanceNormalization.Layer R :=
  InstanceNormalization.mkLayer (-1) (1 / 1000)%R (Some true) (Some true)
    (Some (tfc.ones [1])) (Some (tfc.zeros [1])).

(** A 1x3 image with two channels in the layout
    [batch, channels, height, width], and the layer for that layout. *)
Definition wide : Tensor R :=
  tensor4d 0%R 1 2 1 3 [[[[1; 2; 3]]; [[4; 5; 6]]]]%R.

Definition channels_first : @InstanceNormalization.Layer R :=
  InstanceNormalization.constructor
    (Some (InstanceNormalization.mkArgs (Some 1%Z) None None None)).

(** A sequence of two steps with one feature, [[[3], [4]]]. *)
Definition steps : Tensor R :=
  mkTensor [1; 2; 1]
    (fun loc => match nth 1 loc 0 with O => 3%R | _ => 4%R end).

(** A batch without samples. *)
Definition no_sample : Tensor Z := mkTensor [0; 2; 3; 1] (fun _ => 0%Z).

(** [new ReflectionPadding2D({padding: 1})] *)
Definition pad_by_1 : ReflectionPadding.ReflectionPadding2D :=
  ReflectionPadding.mkLayer "default" ((1, 1), (1, 1))%Z.

(** A 1x2 image with two channels, and the same image with other values
    in channel 1. *)
Definition two_channels : Tensor R :=
  tensor4d 0%R 1 1 2 2 [[[[1; 10]; [3; 20]]]]%R.

Definition two_channels_changed : Tensor R :=
  tensor4d 0%R 1 1 2 2 [[[[1; 50]; [3; 70]]]]%R.

(** [new ConditionalInstanceNormalization({axis: 1})], with a selector. *)
Definition conditional_channels_first
  : @ConditionalInstanceNormalization.Layer R :=
  ConditionalInstanceNormalization.mkLayer 1 (1 / 1000)%R None None
    (Some 1%Z)
    (Some (tfc.ones [1; 2])) (Some (tfc.zeros [1; 2]))
    (Some [tfc.fone]).

(** [new ConditionalInstanceNormalization({styleNum: 0})], and the layer
    [build] makes of it for a last dimension of 1. *)
Definition no_style_args
  : @ConditionalInstanceNormalization.ConditionalInstanceNormalizationLayerArgs R :=
  ConditionalInstanceNormalization.mkArgs None None None None (Some 0%Z).

Definition no_style_built : @ConditionalInstanceNormalization.Layer R :=
  ConditionalInstanceNormalization.mkLayer (-1) (1 / 1000)%R None None
    (Some 0%Z)
    (Some (tfc.ones [0; 1])) (Some (tfc.zeros [0; 1]))
    (Some [tfc.fone]).

(** The entries of the base class in a configuration. *)
Definition base_config : serialization.ConfigDict R :=
  [("name"%string, serialization.Str "layer_1");
   ("trainable"%string, serialization.Bool true)].

(** The deprocessing layer of the second definition in mode "tanh". *)
Definition tanh_layer : DeprocessStylizedImage_part_001.Layer :=
  DeprocessStylizedImage_part_001.constructor (Some (Some "tanh"%string)).

End Examples.

(** * Properties *)

(** ** Reflection padding *)

Module ReflectionPaddingFacts.

Import ReflectionPadding.
Import Examples.

Lemma shape_eqb_refl s : shape_eqb s s = true.
Proof. induction s; simpl; auto. rewrite Nat.eqb_refl; auto. Qed.

Lemma count_from_length n : forall lo, length (count_from lo n) = n.
Proof. induction n; simpl; intros; auto. Qed.

Lemma nth_count_from n : forall lo k d, k < n ->
  nth k (count_from lo n) d = (lo + Z.of_nat k)%Z.
Proof.
  induction n; intros lo k d Hk; [lia|].
  destruct k; simpl; [lia|]. rewrite IHn by lia. lia.
Qed.

Lemma In_count_from n : forall lo z, In z (count_from lo n) ->
  (lo <= z < lo + Z.of_nat n)%Z.
Proof.
  induction n; simpl; intros lo z Hin; [contradiction|].
  destruct Hin as [<-|Hin]; [lia|]. apply IHn in Hin. lia.
Qed.

Lemma rightIndex_in_range w p :
  Z.to_nat p <= w ->
  forallb (fun i => (0 <=? i)%Z && (i <? Z.of_nat w)%Z)
          (rightIndex (Z.of_nat w) p) = true.
Proof.
  intros Hp. apply forallb_forall. intros z Hin.
  unfold rightIndex in Hin. apply in_map_iff in Hin. destruct Hin as [i [<- Hi]].
  apply In_count_from in Hi. apply andb_true_iff.
  split; [apply Z.leb_le | apply Z.ltb_lt]; lia.
Qed.

Lemma leftTopIndex_in_range d p :
  Z.to_nat p <= d ->
  forallb (fun i => (0 <=? i)%Z && (i <? Z.of_nat d)%Z)
          (leftTopIndex p) = true.
Proof.
  intros Hp. apply forallb_forall. intros z Hin.
  unfold leftTopIndex in Hin. apply in_rev in Hin.
  apply In_count_from in Hin. apply andb_true_iff.
  split; [apply Z.leb_le | apply Z.ltb_lt]; lia.
Qed.

Lemma bottomIndex_in_range h d p :
  d = Z.to_nat p + h ->
  forallb (fun i => (0 <=? i)%Z && (i <? Z.of_nat d)%Z)
          (bottomIndex (Z.of_nat h) p) = true.
Proof.
  intros ->. apply forallb_forall. intros z Hin.
  unfold bottomIndex in Hin. apply in_map_iff in Hin. destruct Hin as [i [<- Hi]].
  apply In_count_from in Hi. apply andb_true_iff.
  split; [apply Z.leb_le | apply Z.ltb_lt]; lia.
Qed.

Lemma rightIndex_length w p : length (rightIndex w p) = Z.to_nat p.
Proof. unfold rightIndex. rewrite length_map. apply count_from_length. Qed.
Lemma leftTopIndex_length p : length (leftTopIndex p) = Z.to_nat p.
Proof. unfold leftTopIndex. rewrite length_rev. apply count_from_length. Qed.
Lemma bottomIndex_length h p : length (bottomIndex h p) = Z.to_nat p.
Proof. unfold bottomIndex. rewrite length_map. apply count_from_length. Qed.

Lemma nth_rightIndex w p k : k < Z.to_nat p ->
  nth k (rightIndex w p) 0%Z = (w - 1 - Z.of_nat k)%Z.
Proof.
  intros Hk. unfold rightIndex.
  rewrite nth_indep with (d' := (w - 0)%Z)
    by (rewrite length_map, count_from_length; lia).
  rewrite (map_nth (fun i => (w - i)%Z)). rewrite nth_count_from by lia. lia.
Qed.

Lemma nth_bottomIndex h p k : k < Z.to_nat p ->
  nth k (bottomIndex h p) 0%Z = (h + p - 1 - Z.of_nat k)%Z.
Proof.
  intros Hk. unfold bottomIndex.
  rewrite nth_indep with (d' := (h + p - 0)%Z)
    by (rewrite length_map, count_from_length; lia).
  rewrite (map_nth (fun i => (h + p - i)%Z)). rewrite nth_count_from by lia. lia.
Qed.

Lemma nth_leftTopIndex p k : k < Z.to_nat p ->
  nth k (leftTopIndex p) 0%Z = (p - 1 - Z.of_nat k)%Z.
Proof.
  intros Hk. unfold leftTopIndex.
  rewrite rev_nth by (rewrite count_from_length; lia).
  rewrite count_from_length. rewrite nth_count_from by lia. lia.
Qed.

Ltac idx :=
  unfold src_index, mirror;
  repeat match goal with
         | |- context [(?a <? ?b)%Z] => destruct (Z.ltb_spec a b)
         | |- context [(?a <=? ?b)%Z] => destruct (Z.leb_spec a b)
         end; lia.

Section Pad.
Context {A : Type}.

(** What [reflection2dPadding] returns when its margin [padding[0][0]]
    fits the input: every output element is the input element at the
    mirrored row and column.  A negative margin counts as 0, which is what
    [Z.to_nat] makes of it. *)
Lemma pad_general (x : Tensor A) (B H W C : nat) (pad : Padding) :
  let n := Z.to_nat (fst (fst pad)) in
  shape x = [B; H; W; C] ->
  n <= H -> n <= W ->
  exists r, reflection2dPadding x pad = Ok r /\
    shape r = [B; H + 2 * n; W + 2 * n; C] /\
    forall b i j c, in_bounds [b; i; j; c] (shape r) ->
      get r [b; i; j; c] =
      get x [b; src_index mirror i (Z.of_nat n) H;
                src_index mirror j (Z.of_nat n) W; c].
Proof.
intros n0 Hs HH HW. subst n0.
unfold reflection2dPadding. set (p := fst (fst pad)) in *.
unfold tfc.gather at 1. rewrite Hs. cbn [nth nth_error].
rewrite rightIndex_in_range by lia. cbn [bind].
unfold tfc.concat at 1. rewrite Hs. cbn [shape nth_error set_nth]. rewrite shape_eqb_refl.
cbn [bind].
unfold tfc.gather at 1. rewrite Hs. cbn [nth nth_error].
rewrite leftTopIndex_in_range by lia. cbn [bind].
unfold tfc.concat at 1. cbn [shape nth_error set_nth]. rewrite shape_eqb_refl.
cbn [bind].
unfold tfc.gather at 1. cbn [shape nth nth_error set_nth].
rewrite leftTopIndex_in_range by lia. cbn [bind].
unfold tfc.concat at 1. cbn [shape nth_error set_nth]. rewrite shape_eqb_refl.
cbn [bind].
unfold tfc.gather at 1. cbn [shape nth nth_error set_nth].
rewrite !rightIndex_length, !leftTopIndex_length.
rewrite (@bottomIndex_in_range H (Z.to_nat p + H) p) by lia. cbn [bind].
unfold tfc.concat at 1. cbn [shape nth_error set_nth]. rewrite shape_eqb_refl.
cbn [bind].
eexists. split; [reflexivity|]. split.
- cbn [shape]. rewrite bottomIndex_length. repeat (f_equal; try lia).
- cbn [shape get nth set_nth in_bounds]. rewrite bottomIndex_length.
  intros b i j c (Hb & Hi & Hj & Hc & _).
  set (n := Z.to_nat p) in *.
  assert (Hn : Z.of_nat n = Z.max p 0) by (subst n; lia).
  assert (same : forall r r' k k', r = r' -> k = k' ->
            get x [b; r; k; c] = get x [b; r'; k'; c])
    by (intros; subst; reflexivity).
  destruct (Nat.ltb_spec i (n + H)).
  + destruct (Nat.ltb_spec i n); destruct (Nat.ltb_spec j n);
      try destruct (Nat.ltb_spec (j - n) W);
      rewrite ?nth_leftTopIndex, ?nth_rightIndex by lia;
      apply same; idx.
  + rewrite nth_bottomIndex by lia.
    destruct (Nat.ltb_spec (Z.to_nat (Z.of_nat H + p - 1 - Z.of_nat (i - (n + H)))) n);
      destruct (Nat.ltb_spec j n);
      try destruct (Nat.ltb_spec (j - n) W);
      rewrite ?nth_leftTopIndex, ?nth_rightIndex by lia;
      apply same; idx.
Qed.

Lemma pad_explicit (x : Tensor A) (B H W C : nat) (p : Z) (pad : Padding) :
  shape x = [B; H; W; C] ->
  fst (fst pad) = p ->
  (0 <= p)%Z -> (p <= Z.of_nat H)%Z -> (p <= Z.of_nat W)%Z ->
  exists r, reflection2dPadding x pad = Ok r /\
    shape r = [B; H + 2 * Z.to_nat p; W + 2 * Z.to_nat p; C] /\
    forall b i j c, in_bounds [b; i; j; c] (shape r) ->
      get r [b; i; j; c] =
      get x [b; src_index mirror i p H; src_index mirror j p W; c].
Proof.
  intros Hs Hpad H0 HH HW.
  destruct (@pad_general x B H W C pad Hs) as (r & Hr & Hshape & Hget);
    try (rewrite Hpad; lia).
  rewrite Hpad in *. rewrite Z2Nat.id in Hget by lia.
  exists r. auto.
Qed.

Lemma in_bounds4 (loc : list nat) (B H W C : nat) :
  in_bounds loc [B; H; W; C] ->
  exists b i j c, loc = [b; i; j; c] /\ b < B /\ i < H /\ j < W /\ c < C.
Proof.
  intros Hin.
  destruct loc as [|b [|i [|j [|c [|? ?]]]]]; cbn in Hin; try tauto.
  exists b, i, j, c. tauto.
Qed.

(** A margin below zero runs none of the index loops: nothing is gathered
    and the input comes back as it is. *)
Lemma pad_nonpositive (x : Tensor A) (B H W C : nat) (pad : Padding) :
  shape x = [B; H; W; C] ->
  (fst (fst pad) <= 0)%Z ->
  exists r, reflection2dPadding x pad = Ok r /\ tensor_eq r x.
Proof.
  intros Hs Hp.
  destruct (@pad_general x B H W C pad Hs) as (r & Hr & Hshape & Hget);
    try lia.
  replace (Z.to_nat (fst (fst pad))) with 0 in * by lia.
  exists r. split; [exact Hr|]. split.
  - rewrite Hshape, Hs. repeat (f_equal; try lia).
  - intros loc Hin. pose proof Hin as Hin'. rewrite Hshape in Hin'.
    apply in_bounds4 in Hin'.
    destruct Hin' as (b & i & j & c & -> & Hb & Hi & Hj & Hc).
    rewrite Hget by exact Hin.
    f_equal. f_equal. f_equal; [idx | f_equal; idx].
Qed.

(** The shape [call] returns depends on [padding[0][0]] alone. *)
Lemma call_shape (l : ReflectionPadding2D) (x r : Tensor A)
    (B H W C : nat) :
  shape x = [B; H; W; C] ->
  (0 <= fst (fst (padding l)) <= Z.of_nat (Nat.min H W))%Z ->
  call l x = Ok r ->
  shape r = [B; H + 2 * Z.to_nat (fst (fst (padding l)));
             W + 2 * Z.to_nat (fst (fst (padding l))); C].
Proof.
  intros Hs Hp Hcall.
  destruct (@pad_explicit x B H W C _ (padding l) Hs eq_refl)
    as (r' & Hr' & Hshape & _); try lia.
  unfold call in Hcall. rewrite Hr' in Hcall. injection Hcall as <-.
  exact Hshape.
Qed.

(** With one margin [p] on all four sides the padded tensor has the mirror
    property on both axes: column [p-1-k] repeats column [p+k], and row
    [p-1-k] repeats row [p+k]. *)
Lemma mirror_property_uniform (x r : Tensor A) (B H W C : nat) (p : Z) :
  shape x = [B; H; W; C] ->
  (0 <= p <= Z.of_nat (Nat.min H W))%Z ->
  reflection2dPadding x ((p, p), (p, p)) = Ok r ->
  forall b i j c k,
    k < Z.to_nat p -> b < B -> c < C ->
    (j < W + 2 * Z.to_nat p ->
     get r [b; Z.to_nat p - 1 - k; j; c] = get r [b; Z.to_nat p + k; j; c]) /\
    (i < H + 2 * Z.to_nat p ->
     get r [b; i; Z.to_nat p - 1 - k; c] = get r [b; i; Z.to_nat p + k; c]).
Proof.
  intros Hs Hp Hcall b i j c k Hk Hb Hc.
  destruct (@pad_explicit x B H W C p ((p, p), (p, p)) Hs eq_refl)
    as (r' & Hr' & Hshape & Hget); try lia.
  rewrite Hr' in Hcall. injection Hcall as <-.
  split; intros Hlt.
  - rewrite !Hget by (rewrite Hshape; cbn; lia).
    f_equal. f_equal. f_equal. idx.
  - rewrite !Hget by (rewrite Hshape; cbn; lia).
    f_equal. f_equal. f_equal. f_equal. idx.
Qed.

End Pad.

Example pad_x23_by_1 :
  option_map (fun r => (shape r, dataSync r))
    (match construct_and_call (number_padding 1) x23 with
     | Ok r => Some r
     | Err _ => None
     end)
  = Some ([1; 4; 5; 1],
          [1; 1; 2; 3; 3;
           1; 1; 2; 3; 3;
           4; 4; 5; 6; 6;
           4; 4; 5; 6; 6]%Z).
Proof. reflexivity. Qed.

(** C1 (as stated, refuted): with the valid margin 1 on every side of the
    2x3 input [[1,2,3],[4,5,6]], the top-left output element is 1, the
    border element itself, where reflection without edge duplication reads
    source row 1, column 1, which holds 5. *)
Lemma C1_reflect_rule_refuted :
  exists r,
    construct_and_call (number_padding 1) x23 = Ok r /\
    valid_margins 2 3 ((1, 1), (1, 1))%Z /\
    ~ reflection_rule x23 ((1, 1), (1, 1))%Z r.
Proof.
  eexists. split; [reflexivity|]. split.
  - unfold valid_margins. cbn. lia.
  - intros Hrule.
    specialize (Hrule 0 0 0 0).
    cbn in Hrule.
    assert (Hb : 0 < 1 /\ 0 < 4 /\ 0 < 5 /\ 0 < 1 /\ True) by (repeat split; lia).
    specialize (Hrule Hb). discriminate Hrule.
Qed.

(** C1 (amended): for a rank-4 input of shape [B, H, W, C] and one valid
    margin [p] on all four sides, the output element at row [i], column [j]
    is the input element at row [mirror (i - p) H], column
    [mirror (j - p) W], where the mirror repeats the border: relative index
    [-k] reads source index [k-1] and relative index [n-1+k] reads source
    index [n-k].  The rule is the same on both axes, and the result is the
    width padding followed by the height padding as well as the height
    padding followed by the width padding. *)
Theorem C1_mirror_rule {A : Type} (x : Tensor A) (B H W C : nat) (p : Z) :
  shape x = [B; H; W; C] ->
  valid_margins H W ((p, p), (p, p)) ->
  exists r,
    reflection2dPadding x ((p, p), (p, p)) = Ok r /\
    shape r = [B; H + 2 * Z.to_nat p; W + 2 * Z.to_nat p; C] /\
    (forall b i j c,
        in_bounds [b; i; j; c] (shape r) ->
        get r [b; i; j; c] =
        get x [b; src_index mirror i p H; src_index mirror j p W; c]) /\
    tensor_eq r (mirror_axis (mirror_axis x p 2) p 1) /\
    tensor_eq r (mirror_axis (mirror_axis x p 1) p 2).
Proof.
  intros Hs (Ht & _ & Hl & _). cbn [fst snd] in Ht, Hl.
  destruct (@pad_explicit A x B H W C p ((p, p), (p, p)) Hs eq_refl)
    as (r & Hr & Hshape & Hget); try lia.
  exists r. repeat split; auto.
  - unfold mirror_axis. cbn [shape]. rewrite Hs, Hshape. reflexivity.
  - intros loc Hin. rewrite Hshape in Hin.
    apply in_bounds4 in Hin.
    destruct Hin as (b & i & j & c & -> & Hb & Hi & Hj & Hc).
    rewrite Hget by (rewrite Hshape; cbn; lia).
    unfold mirror_axis. cbn [shape get]. rewrite Hs. reflexivity.
  - unfold mirror_axis. cbn [shape]. rewrite Hs, Hshape. reflexivity.
  - intros loc Hin. rewrite Hshape in Hin.
    apply in_bounds4 in Hin.
    destruct Hin as (b & i & j & c & -> & Hb & Hi & Hj & Hc).
    rewrite Hget by (rewrite Hshape; cbn; lia).
    unfold mirror_axis. cbn [shape get]. rewrite Hs. reflexivity.
Qed.

Lemma C1_mirror_rule_witness :
  exists r,
    reflection2dPadding x23 ((1, 1), (1, 1))%Z = Ok r /\
    shape r = [1; 4; 5; 1] /\
    get r [0; 0; 4; 0] = 3%Z /\
    get r [0; 3; 0; 0] = 4%Z.
Proof.
  destruct (@C1_mirror_rule Z x23 1 2 3 1 1%Z) as (r & Hr & Hshape & Hget & _).
  - reflexivity.
  - unfold valid_margins. cbn. lia.
  - exists r. split; [exact Hr|]. split; [exact Hshape|].
    split; rewrite Hget by (rewrite Hshape; cbn; lia); reflexivity.
Defined.

(** C3 (defect of the code): the layer is configured with four distinct
    valid margins, top 1, bottom 2, left 1, right 1, on a 1x4x4x1 input.
    [computeOutputShape] announces [1, 7, 6, 1]; the forward call pads every
    side by [padding[0][0]] = 1 and returns a tensor of shape
    [1, 6, 6, 1]. *)
Theorem C3_call_shape_ignores_three_margins :
  exists l r,
    constructor (Some (mkArgs (Some (PadNested [[1; 2]; [1; 1]]%Z)) None))
      = Ok l /\
    valid_margins 4 4 (padding l) /\
    call l x44 = Ok r /\
    shape r = [1; 6; 6; 1] /\
    computeOutputShape l (known (shape x44))
      = [Some 1; Some 7; Some 6; Some 1]%Z.
Proof.
  eexists. eexists. split; [reflexivity|]. split.
  - unfold valid_margins. cbn. lia.
  - split; [reflexivity|]. split; reflexivity.
Qed.

(** Where the four margins are equal the two shapes agree. *)
Lemma call_shape_uniform {A : Type} (l : ReflectionPadding2D)
    (x r : Tensor A) (B H W C : nat) (p : Z) :
  shape x = [B; H; W; C] ->
  padding l = ((p, p), (p, p)) ->
  (0 <= p <= Z.of_nat (Nat.min H W))%Z ->
  call l x = Ok r ->
  known (shape r) = computeOutputShape l (known (shape x)).
Proof.
  intros Hs Hpad Hp Hcall.
  rewrite (@call_shape A l x r B H W C Hs) by (rewrite ?Hpad; cbn; auto).
  unfold computeOutputShape, known. rewrite Hs, Hpad. cbn.
  replace (0 <=? Z.of_nat H)%Z with true by (symmetry; apply Z.leb_le; lia).
  replace (0 <=? Z.of_nat W)%Z with true by (symmetry; apply Z.leb_le; lia).
  repeat (f_equal; try lia).
Qed.

(** C4 (as stated, refuted): margins the specification calls invalid raise
    no error.  The margin -1 is taken as 0 and the input comes back
    unchanged; the margin 2 on an input of height 2 exceeds H-1 and yields a
    padded tensor, of shape [1, 6, 7, 1]. *)
Lemma C4_invalid_margins_accepted :
  ~ valid_margins 2 3 ((-1, -1), (-1, -1))%Z /\
  ~ valid_margins 2 3 ((2, 2), (2, 2))%Z /\
  (exists r, construct_and_call (number_padding (-1)) x23 = Ok r /\
             tensor_eq r x23) /\
  (exists r, construct_and_call (number_padding 2) x23 = Ok r /\
             shape r = [1; 6; 7; 1]).
Proof.
  split; [unfold valid_margins; cbn; lia|].
  split; [unfold valid_margins; cbn; lia|].
  split.
  - destruct (@pad_nonpositive Z x23 1 2 3 1 ((-1, -1), (-1, -1))%Z)
      as (r & Hr & Heq); [reflexivity | cbn; lia |].
    exists r. split; [exact Hr | exact Heq].
  - eexists. split; reflexivity.
Qed.

(** C4 (amended): the margins are not validated.  For every number [p] given
    as the padding of the layer, construction succeeds; on a rank-4 input of
    extents H and W the forward call raises no error whenever
    [p <= min H W]: it returns a tensor of shape
    [B, H + 2 max(p,0), W + 2 max(p,0), C], which for [p <= 0] is the input
    itself. *)
Theorem C4_margins_not_validated {A : Type} (x : Tensor A)
    (B H W C : nat) (p : Z) :
  shape x = [B; H; W; C] ->
  (p <= Z.of_nat (Nat.min H W))%Z ->
  exists l r,
    constructor (number_padding p) = Ok l /\
    call l x = Ok r /\
    shape r = [B; H + 2 * Z.to_nat p; W + 2 * Z.to_nat p; C] /\
    ((p <= 0)%Z -> tensor_eq r x).
Proof.
  intros Hs Hp.
  destruct (@pad_general A x B H W C ((p, p), (p, p)) Hs)
    as (r & Hr & Hshape & _); cbn [fst]; try lia.
  eexists. exists r. split; [reflexivity|]. split; [exact Hr|].
  split; [exact Hshape|].
  intros Hneg.
  destruct (@pad_nonpositive A x B H W C ((p, p), (p, p)) Hs Hneg)
    as (r' & Hr' & Heq).
  rewrite Hr in Hr'. injection Hr' as <-. exact Heq.
Qed.

Lemma C4_margins_not_validated_witness :
  exists l r,
    constructor (number_padding 2) = Ok l /\
    call l x23 = Ok r /\
    shape r = [1; 2 + 2 * Z.to_nat 2; 3 + 2 * Z.to_nat 2; 1] /\
    ((2 <= 0)%Z -> tensor_eq r x23).
Proof.
  apply (@C4_margins_not_validated Z x23 1 2 3 1 2%Z).
  - reflexivity.
  - cbn. lia.
Defined.

(** C8 (defect of the code): the layer is configured with height margin 1
    and width margin 2 on a 3x3 input, both valid.  The forward call pads
    the width by [padding[0][0]] = 1 as well, so that in output row 1, which
    is [1, 1, 2, 3, 3], column [left-1-0] = 1 holds 1 and column [left+0] = 2
    holds 2: the mirror property fails for the configured left margin.  The
    defect is the one of C3. *)
Theorem C8_mirror_fails_for_distinct_margins :
  exists l r,
    constructor (Some (mkArgs (Some (PadPair [1; 2]%Z)) None)) = Ok l /\
    padding l = ((1, 1), (2, 2))%Z /\
    valid_margins 3 3 (padding l) /\
    call l x33 = Ok r /\
    get r [0; 1; 2 - 1 - 0; 0] = 1%Z /\
    get r [0; 1; 2 + 0; 0] = 2%Z.
Proof.
  eexists. eexists. split; [reflexivity|]. split; [reflexivity|]. split.
  - unfold valid_margins. cbn. lia.
  - split; [reflexivity|]. split; reflexivity.
Qed.

End ReflectionPaddingFacts.

(** ** Facts about the tensor operations *)

Module TensorFacts.

Import Statistics.

Lemma length_locs s : length (locs s) = sizeFromShape s.
Proof.
  induction s as [|d s IH]; [reflexivity|].
  cbn [locs sizeFromShape fold_right].
  fold (sizeFromShape s). rewrite <- IH.
  generalize 0 as st. induction d; intros st; cbn [seq flat_map]; [reflexivity|].
  rewrite length_app, length_map, IHd. lia.
Qed.

Lemma in_locs s : forall loc, In loc (locs s) <-> in_bounds loc s.
Proof.
  induction s as [|d s IH]; intros loc.
  - destruct loc; cbn; split; intros Hx; auto; try tauto.
    destruct Hx as [Hx|[]]. discriminate Hx.
  - cbn [locs]. rewrite in_flat_map. split.
    + intros (i & Hi & Hin). apply in_map_iff in Hin.
      destruct Hin as (l' & <- & Hl'). apply in_seq in Hi. cbn. split; [lia|].
      apply IH; auto.
    + destruct loc as [|i l']; cbn; [tauto|]. intros (Hi & Hl').
      exists i. split; [apply in_seq; lia|]. apply in_map. apply IH; auto.
Qed.

Lemma in_bounds_length loc : forall s, in_bounds loc s -> length loc = length s.
Proof.
  induction loc; destruct s; cbn; try tauto. intros (_ & Hin). f_equal; auto.
Qed.

Lemma in_bounds_app l1 : forall s1 l2 s2,
  length l1 = length s1 ->
  in_bounds (l1 ++ l2) (s1 ++ s2) <-> in_bounds l1 s1 /\ in_bounds l2 s2.
Proof.
  induction l1; destruct s1; cbn; intros; try discriminate; [tauto|].
  rewrite IHl1 by lia. tauto.
Qed.

Lemma in_bounds_snoc_inv loc s C :
  in_bounds loc (s ++ [C]) ->
  exists pre c, loc = pre ++ [c] /\ in_bounds pre s /\ c < C.
Proof.
  revert s. induction loc as [|i loc IH]; intros s Hin.
  - destruct s; cbn in Hin; tauto.
  - destruct s as [|d s]; cbn in Hin.
    + destruct Hin as (Hi & Hin). destruct loc; [|cbn in Hin; tauto].
      exists [], i. cbn. auto.
    + destruct Hin as (Hi & Hin). apply IH in Hin.
      destruct Hin as (pre & c & -> & Hpre & Hc).
      exists (i :: pre), c. cbn. auto.
Qed.

(** Removing and inserting a coordinate. *)
Lemma remove_nth_seq a : forall st n, a < n ->
  remove_nth a (seq st n) = seq st a ++ seq (st + S a) (n - S a).
Proof.
  induction a; intros st n Hn; destruct n; try lia; cbn [seq remove_nth app].
  - f_equal; lia.
  - rewrite IHa by lia. cbn [app]. f_equal. f_equal; f_equal; lia.
Qed.

Lemma splice1_range (a n : nat) : a < n ->
  splice1 (Z.of_nat a) (range 0 n) = seq 0 a ++ seq (S a) (n - S a).
Proof.
  intros Ha. unfold splice1, range. rewrite length_seq, Nat.sub_0_r.
  replace (Z.of_nat a <? 0)%Z with false by (symmetry; apply Z.ltb_ge; lia).
  rewrite Z.min_l by lia. rewrite Nat2Z.id.
  apply remove_nth_seq; auto.
Qed.

Lemma existsb_eqb_seq pos : forall len st,
  existsb (Nat.eqb pos) (seq st len) = (st <=? pos) && (pos <? st + len).
Proof.
  induction len; intros st; cbn [seq existsb].
  - symmetry. apply andb_false_iff.
    destruct (Nat.leb_spec st pos); [right; apply Nat.ltb_ge; lia | left; auto].
  - rewrite IHlen.
    destruct (Nat.eqb_spec pos st); destruct (Nat.leb_spec st pos);
      destruct (Nat.leb_spec (S st) pos); destruct (Nat.ltb_spec pos (S st + len));
      destruct (Nat.ltb_spec pos (st + S len)); cbn; try reflexivity; lia.
Qed.

Lemma is_axis_all_but a n pos : a < n -> pos < n ->
  tfc.is_axis (seq 0 a ++ seq (S a) (n - S a)) pos = negb (pos =? a).
Proof.
  intros Ha Hp. unfold tfc.is_axis. rewrite existsb_app, !existsb_eqb_seq.
  destruct (Nat.eqb_spec pos a); destruct (Nat.leb_spec 0 pos);
    destruct (Nat.ltb_spec pos (0 + a)); destruct (Nat.leb_spec (S a) pos);
    destruct (Nat.ltb_spec pos (S a + (n - S a))); cbn; try reflexivity; lia.
Qed.

Section Split.
Variable axes : list nat.
Variable a : nat.

(** Past the channel axis every dimension is reduced. *)
Lemma dims_after s : forall pos,
  (forall q, pos <= q < pos + length s -> tfc.is_axis axes q = true) ->
  tfc.kept_dims axes pos s = [] /\ tfc.reduced_dims axes pos s = s.
Proof.
  induction s as [|d s IH]; intros pos Hq; cbn; [auto|].
  rewrite Hq by (cbn; lia).
  destruct (IH (S pos)) as (-> & ->); [intros; apply Hq; cbn; lia|]. auto.
Qed.

Lemma assemble_after n : forall pos kept red,
  (forall q, pos <= q < pos + n -> tfc.is_axis axes q = true) ->
  length red = n ->
  tfc.assemble axes pos n kept red = red.
Proof.
  induction n; intros pos kept red Hq Hlen; cbn.
  - destruct red; [reflexivity|discriminate].
  - rewrite Hq by lia. destruct red as [|r red]; [discriminate|]. cbn.
    rewrite IHn; auto. intros; apply Hq; lia.
Qed.

Lemma dims_at s : forall pos,
  pos <= a < pos + length s ->
  (forall q, pos <= q < pos + length s -> tfc.is_axis axes q = negb (q =? a)) ->
  tfc.kept_dims axes pos s = [nth (a - pos) s 0] /\
  tfc.reduced_dims axes pos s = remove_nth (a - pos) s.
Proof.
  induction s as [|d s IH]; intros pos Ha Hq; cbn [length] in *; [lia|].
  cbn [tfc.kept_dims tfc.reduced_dims]. rewrite Hq by lia.
  destruct (Nat.eqb_spec pos a) as [->|Hne]; cbn [negb].
  - rewrite Nat.sub_diag. cbn [nth remove_nth].
    destruct (@dims_after s (S a)) as (-> & ->); auto.
    intros q Hq'. rewrite Hq by lia.
    destruct (Nat.eqb_spec q a); [lia|reflexivity].
  - destruct (IH (S pos)) as (-> & ->); [lia | intros; apply Hq; lia |].
    replace (a - pos) with (S (a - S pos)) by lia. cbn. auto.
Qed.

Lemma assemble_at n : forall pos c red,
  pos <= a < pos + n ->
  (forall q, pos <= q < pos + n -> tfc.is_axis axes q = negb (q =? a)) ->
  length red = n - 1 ->
  tfc.assemble axes pos n [c] red = insert_nth (a - pos) c red.
Proof.
  induction n; intros pos c red Ha Hq Hlen; [lia|].
  cbn [tfc.assemble]. rewrite Hq by lia.
  destruct (Nat.eqb_spec pos a) as [->|Hne]; cbn [negb].
  - rewrite Nat.sub_diag. cbn. f_equal.
    apply assemble_after; [|lia].
    intros q Hq'. rewrite Hq by lia.
    destruct (Nat.eqb_spec q a); [lia|reflexivity].
  - replace (a - pos) with (S (a - S pos)) by lia.
    destruct red as [|r red]; [cbn in Hlen; lia|]. cbn [hd tl insert_nth].
    f_equal. apply IHn; [lia | intros; apply Hq; lia | cbn in Hlen; lia].
Qed.
End Split.

Lemma length_remove_nth {A} (l : list A) : forall a, a < length l ->
  length (remove_nth a l) = length l - 1.
Proof.
  induction l; intros [|a'] Ha; cbn in *; try lia.
  rewrite IHl by lia. lia.
Qed.

Lemma remove_nth_last {A} (s : list A) (c : A) :
  remove_nth (length s) (s ++ [c]) = s.
Proof. induction s; cbn; [reflexivity|]. f_equal; auto. Qed.

Lemma insert_nth_last {A} (l : list A) (c : A) :
  insert_nth (length l) c l = l ++ [c].
Proof. induction l; cbn; [reflexivity|]. f_equal; auto. Qed.

Lemma nth_last (l : list nat) (c : nat) : nth (length l) (l ++ [c]) 0 = c.
Proof. induction l; cbn; auto. Qed.

Section Moments.
Context {F : Type} `{tfc.Arith F}.

Lemma moments_all_but (x : Tensor F) (a : nat) :
  a < rank x ->
  let mv := tfc.moments x (splice1 (Z.of_nat a) (range 0 (rank x))) in
  shape (fst mv) = [nth a (shape x) 0] /\
  shape (snd mv) = [nth a (shape x) 0] /\
  forall c, get (fst mv) [c] = axis_mean x a c /\
            get (snd mv) [c] = axis_variance x a c.
Proof.
  intros Ha mv. subst mv. unfold rank in *.
  rewrite splice1_range by auto.
  set (axes := seq 0 a ++ seq (S a) (length (shape x) - S a)).
  assert (Hax : forall q, 0 <= q < 0 + length (shape x) ->
                          tfc.is_axis axes q = negb (q =? a))
    by (intros q Hq; apply is_axis_all_but; lia).
  destruct (@dims_at axes a (shape x) 0) as (Hk & Hr); [lia | exact Hax |].
  rewrite Nat.sub_0_r in Hk, Hr.
  assert (Hvals : forall c, tfc.reduced_values x axes [c] = axis_values x a c).
  { intros c. unfold tfc.reduced_values, axis_values. rewrite Hr.
    apply map_ext_in. intros red Hin. unfold rank.
    rewrite (@assemble_at axes a); [rewrite Nat.sub_0_r; reflexivity | lia | exact Hax |].
    apply in_locs, in_bounds_length in Hin. rewrite Hin.
    apply length_remove_nth; auto. }
  assert (Hsize : forall c, sizeFromShape (tfc.reduced_dims axes 0 (shape x))
                  = length (axis_values x a c)).
  { intros c. unfold axis_values. rewrite length_map, length_locs, Hr. reflexivity. }
  unfold tfc.moments, tfc.mean. cbn [fst snd shape get].
  rewrite Hk. repeat split; auto.
  - rewrite Hvals, (Hsize c). reflexivity.
  - rewrite Hvals, (Hsize c). unfold axis_variance, list_variance, list_mean.
    rewrite length_map. reflexivity.
Qed.
End Moments.

(** Broadcasting against a vector and against a reshaped vector. *)
Lemma broadcast_rev_nil_r l : tfc.broadcast_rev l [] = Some l.
Proof. destruct l; reflexivity. Qed.

Lemma broadcast_snoc_vec s C :
  tfc.assertAndGetBroadcastShape (s ++ [C]) [C] = Some (s ++ [C]).
Proof.
  unfold tfc.assertAndGetBroadcastShape. rewrite rev_app_distr. cbn [rev app].
  cbn [tfc.broadcast_rev]. rewrite broadcast_rev_nil_r.
  rewrite Nat.eqb_refl. destruct (C =? 1); cbn [option_map rev];
    rewrite rev_involutive; reflexivity.
Qed.

Lemma broadcast_rev_ones l : tfc.broadcast_rev l (repeat 1 (length l)) = Some l.
Proof.
  induction l as [|a l IH]; [reflexivity|]. cbn [length repeat tfc.broadcast_rev].
  rewrite IH. destruct (Nat.eqb_spec a 1); [subst; reflexivity|]. reflexivity.
Qed.

Lemma rev_repeat {A} (a : A) n : rev (repeat a n) = repeat a n.
Proof.
  induction n; [reflexivity|]. cbn [repeat rev]. rewrite IHn.
  clear. induction n; cbn; [reflexivity|]. f_equal. exact IHn.
Qed.

Lemma broadcast_snoc_ones s C :
  tfc.assertAndGetBroadcastShape (s ++ [C]) (repeat 1 (length s) ++ [C])
  = Some (s ++ [C]).
Proof.
  unfold tfc.assertAndGetBroadcastShape. rewrite !rev_app_distr. cbn [rev app].
  rewrite rev_repeat. cbn [tfc.broadcast_rev].
  rewrite <- (length_rev s) at 1. rewrite broadcast_rev_ones.
  rewrite Nat.eqb_refl. destruct (C =? 1); cbn [option_map rev];
    rewrite rev_involutive; reflexivity.
Qed.

Lemma zero_unit_dims_in_bounds loc : forall s, in_bounds loc s ->
  tfc.zero_unit_dims s loc = loc.
Proof.
  induction loc as [|i loc IH]; destruct s as [|d s]; cbn; try tauto.
  intros (Hi & Hin). rewrite IH by auto.
  destruct (Nat.eqb_spec d 1); [f_equal; lia | reflexivity].
Qed.

Lemma broadcast_loc_self s loc : in_bounds loc s -> tfc.broadcast_loc s loc = loc.
Proof.
  intros Hin. unfold tfc.broadcast_loc.
  rewrite (in_bounds_length _ _ Hin), Nat.sub_diag. cbn [skipn].
  apply zero_unit_dims_in_bounds; auto.
Qed.

Lemma broadcast_loc_vec pre c C : c < C ->
  tfc.broadcast_loc [C] (pre ++ [c]) = [c].
Proof.
  intros Hc. unfold tfc.broadcast_loc. rewrite length_app. cbn [length].
  replace (length pre + 1 - 1) with (length pre) by lia.
  rewrite skipn_app, Nat.sub_diag, skipn_all. cbn.
  destruct (Nat.eqb_spec C 1); [f_equal; lia | reflexivity].
Qed.

Lemma zero_unit_dims_ones pre : forall c C, c < C ->
  tfc.zero_unit_dims (repeat 1 (length pre) ++ [C]) (pre ++ [c])
  = repeat 0 (length pre) ++ [c].
Proof.
  induction pre; intros c C Hc; cbn.
  - destruct (Nat.eqb_spec C 1); [f_equal; lia | reflexivity].
  - f_equal. apply IHpre; auto.
Qed.

Lemma broadcast_loc_ones pre c C : c < C ->
  tfc.broadcast_loc (repeat 1 (length pre) ++ [C]) (pre ++ [c])
  = repeat 0 (length pre) ++ [c].
Proof.
  intros Hc. unfold tfc.broadcast_loc. rewrite !length_app, repeat_length.
  rewrite Nat.sub_diag. cbn [skipn]. apply zero_unit_dims_ones; auto.
Qed.

(** Reshaping a vector to the broadcast shape. *)
Lemma sizeFromShape_ones k C : sizeFromShape (repeat 1 k ++ [C]) = C.
Proof. induction k; cbn; [lia|]. unfold sizeFromShape in IHk. rewrite IHk. lia. Qed.

Lemma set_nth_last_ones k C : set_nth k C (repeat 1 (S k)) = repeat 1 k ++ [C].
Proof. induction k; cbn; [reflexivity|]. f_equal. exact IHk. Qed.

Lemma locToIndex_ones k c C :
  tfc.locToIndex (repeat 1 k ++ [C]) (repeat 0 k ++ [c]) = c.
Proof.
  unfold tfc.locToIndex. induction k; cbn; [reflexivity|]. exact IHk.
Qed.

Lemma reshape_vec {A} (t : Tensor A) k C :
  shape t = [C] ->
  exists r, tfc.reshape t (repeat 1 k ++ [C]) = Ok r /\
    shape r = repeat 1 k ++ [C] /\
    forall c, get r (repeat 0 k ++ [c]) = get t [c].
Proof.
  intros Hs. unfold tfc.reshape. rewrite Hs, sizeFromShape_ones.
  replace (sizeFromShape [C]) with C by (cbn; lia). rewrite Nat.eqb_refl.
  eexists. split; [reflexivity|]. split; [reflexivity|].
  intros c. cbn [get]. rewrite locToIndex_ones.
  cbn [tfc.indexToLoc sizeFromShape fold_right].
  rewrite Nat.div_1_r. reflexivity.
Qed.

Lemma in_bounds_snoc pre c s C :
  in_bounds (pre ++ [c]) (s ++ [C]) -> length pre = length s /\ c < C.
Proof.
  intros Hin. pose proof (in_bounds_length _ _ Hin) as Hlen.
  rewrite !length_app in Hlen. cbn in Hlen.
  assert (Hl : length pre = length s) by lia. split; [exact Hl|].
  apply in_bounds_app in Hin; [|exact Hl]. cbn in Hin. tauto.
Qed.

Section Binop.
Context {A : Type}.

Lemma binop_vec (f : A -> A -> A) (t w : Tensor A) s C :
  shape t = s ++ [C] -> shape w = [C] ->
  exists r, tfc.binop f t w = Ok r /\ shape r = s ++ [C] /\
    forall pre c, in_bounds (pre ++ [c]) (s ++ [C]) ->
      get r (pre ++ [c]) = f (get t (pre ++ [c])) (get w [c]).
Proof.
  intros Ht Hw. unfold tfc.binop. rewrite Ht, Hw, broadcast_snoc_vec.
  eexists. split; [reflexivity|]. split; [reflexivity|].
  intros pre c Hin. cbn [get].
  rewrite broadcast_loc_self by exact Hin.
  rewrite broadcast_loc_vec by (apply in_bounds_snoc in Hin; tauto).
  reflexivity.
Qed.

Lemma binop_ones (f : A -> A -> A) (t w : Tensor A) s C :
  shape t = s ++ [C] -> shape w = repeat 1 (length s) ++ [C] ->
  exists r, tfc.binop f t w = Ok r /\ shape r = s ++ [C] /\
    forall pre c, in_bounds (pre ++ [c]) (s ++ [C]) ->
      get r (pre ++ [c]) =
      f (get t (pre ++ [c])) (get w (repeat 0 (length s) ++ [c])).
Proof.
  intros Ht Hw. unfold tfc.binop. rewrite Ht, Hw, broadcast_snoc_ones.
  eexists. split; [reflexivity|]. split; [reflexivity|].
  intros pre c Hin. cbn [get].
  rewrite broadcast_loc_self by exact Hin.
  apply in_bounds_snoc in Hin. destruct Hin as (Hlen & Hc).
  rewrite <- Hlen. rewrite broadcast_loc_ones by exact Hc.
  reflexivity.
Qed.
End Binop.

(** Membership in the reduction axes, and taking a coordinate out of an
    index and putting it back. *)
Lemma in_all_but (a n q : nat) : a < n ->
  In q (seq 0 a ++ seq (S a) (n - S a)) <-> q < n /\ q <> a.
Proof. intros Ha. rewrite in_app_iff, !in_seq. lia. Qed.

Lemma insert_remove_nth (loc : list nat) : forall a, a < length loc ->
  insert_nth a (nth a loc 0) (remove_nth a loc) = loc.
Proof.
  induction loc as [|i loc IH].
  - intros a Ha. cbn in Ha. lia.
  - intros a Ha. destruct a as [|a].
    + reflexivity.
    + cbn in *. f_equal. apply IH. lia.
Qed.

Lemma in_bounds_remove_nth (loc : list nat) : forall s a,
  in_bounds loc s -> in_bounds (remove_nth a loc) (remove_nth a s).
Proof.
  induction loc as [|i loc IH]; intros s a Hin; destruct s as [|d s];
    destruct a; cbn in *; try tauto.
  split; [tauto|]. apply IH. tauto.
Qed.

End TensorFacts.

(** ** The normalization layers *)

Module NormalizationFacts.

Import Statistics.
Import TensorFacts.

Section CallSpec.
Context {F : Type} `{tfc.Arith F}.

(** The subtraction and the division of the forward pass, when the channel
    axis is the last one. *)
Lemma standardize_last (x : Tensor F) s C (eps : F) :
  shape x = s ++ [C] ->
  let mv := tfc.moments x
              (splice1 (Z.of_nat (length s)) (range 0 (length (shape x)))) in
  exists centred r,
    tfc.sub x (fst mv) = Ok centred /\
    tfc.div centred (tfc.addScalar (tfc.sqrt (snd mv)) eps) = Ok r /\
    shape r = s ++ [C] /\
    forall pre c, in_bounds (pre ++ [c]) (s ++ [C]) ->
      get r (pre ++ [c]) = standardized x (length s) eps (pre ++ [c]).
Proof.
  intros Hs mv.
  assert (Ha : length s < rank x)
    by (unfold rank; rewrite Hs, length_app; cbn; lia).
  pose proof (@moments_all_but _ _ x (length s) Ha) as Hm.
  unfold rank in Hm. cbv zeta in Hm. fold mv in Hm.
  destruct Hm as (Hsm & Hsv & Hget).
  clearbody mv. destruct mv as [m v]. cbn [fst snd] in *.
  rewrite Hs, nth_last in Hsm, Hsv.
  destruct (@binop_vec F tfc.fsub x m s C Hs Hsm) as (r1 & Hr1 & Hs1 & Hg1).
  destruct (@binop_vec F tfc.fdiv r1 (tfc.addScalar (tfc.sqrt v) eps) s C Hs1)
    as (r2 & Hr2 & Hs2 & Hg2); [exact Hsv|].
  exists r1, r2. split; [exact Hr1|]. split; [exact Hr2|]. split; [exact Hs2|].
  intros pre c Hin. rewrite Hg2, Hg1 by exact Hin.
  unfold standardized. apply in_bounds_snoc in Hin. destruct Hin as (Hlen & Hc).
  rewrite <- Hlen, nth_last, Hlen.
  destruct (Hget c) as (-> & Hv).
  unfold tfc.addScalar, tfc.sqrt, tfc.map_tensor. cbn [get]. rewrite Hv.
  reflexivity.
Qed.

(** The resolved axis and the broadcast shape, for the last axis. *)
Lemma resolve_last_axis (ax : Z) (s : list nat) (C : nat) :
  ax = (-1)%Z \/ ax = Z.of_nat (length s) ->
  (if (0 <=? ax)%Z then ax else (ax + Z.of_nat (length (s ++ [C])))%Z)
  = Z.of_nat (length s).
Proof.
  rewrite length_app. cbn [length]. intros [-> | ->].
  - change (0 <=? -1)%Z with false. cbv iota. lia.
  - replace (0 <=? Z.of_nat (length s))%Z with true
      by (symmetry; apply Z.leb_le; lia). reflexivity.
Qed.

Lemma nth_error_last {A} (s : list A) (c : A) :
  nth_error (s ++ [c]) (length s) = Some c.
Proof. induction s; cbn; auto. Qed.

Lemma broadcastShape_last (s : list nat) (C : nat) :
  set_nth (length s) C (pyListRepeat 1 (length (s ++ [C])))
  = repeat 1 (length s) ++ [C].
Proof.
  unfold pyListRepeat. rewrite length_app. cbn [length].
  replace (length s + 1) with (S (length s)) by lia.
  apply set_nth_last_ones.
Qed.

Lemma read_reshape_last (w : option (Tensor F)) (t : Tensor F) k C :
  w = Some t -> shape t = [C] ->
  exists r, InstanceNormalization.read_reshape w (repeat 1 k ++ [C]) = Ok r /\
    shape r = repeat 1 k ++ [C] /\
    forall c, get r (repeat 0 k ++ [c]) = weight_at w c.
Proof.
  intros -> Hs. unfold InstanceNormalization.read_reshape.
  destruct (@reshape_vec F t k C Hs) as (r & Hr & Hsr & Hg).
  exists r. auto.
Qed.

Lemma call_last_axis (l : InstanceNormalization.Layer) (x : Tensor F) s C :
  shape x = s ++ [C] ->
  InstanceNormalization.axis l = (-1)%Z \/
  InstanceNormalization.axis l = Z.of_nat (length s) ->
  (truthy (InstanceNormalization.scale l) = true ->
   exists g, InstanceNormalization.gamma l = Some g /\ shape g = [C]) ->
  (truthy (InstanceNormalization.center l) = true ->
   exists b, InstanceNormalization.beta l = Some b /\ shape b = [C]) ->
  exists r, InstanceNormalization.call l x = Ok r /\
    shape r = shape x /\
    forall pre c, in_bounds (pre ++ [c]) (shape x) ->
      get r (pre ++ [c]) =
      affine (truthy (InstanceNormalization.scale l))
             (truthy (InstanceNormalization.center l))
             (weight_at (InstanceNormalization.gamma l) c)
             (weight_at (InstanceNormalization.beta l) c)
             (standardized x (length s) (InstanceNormalization.epsilon l)
                           (pre ++ [c])).
Proof.
  intros Hs Hax Hg Hb. unfold InstanceNormalization.call.
  unfold InstanceNormalization.reductionAxes,
    InstanceNormalization.resolve_axis. cbv zeta.
  destruct (@standardize_last x s C (InstanceNormalization.epsilon l) Hs)
    as (ctr & n0 & Hctr & Hn0 & Hsn0 & Hgn0).
  rewrite Hs in *. rewrite (@resolve_last_axis _ s C Hax) in *.
  replace (Z.of_nat (length s) <? 0)%Z with false
    by (symmetry; apply Z.ltb_ge; lia).
  rewrite Nat2Z.id, nth_error_last, broadcastShape_last.
  unfold affine.
  destruct (truthy (InstanceNormalization.center l)) eqn:Ec;
    destruct (truthy (InstanceNormalization.scale l)) eqn:Es.
  - destruct (Hg eq_refl) as (g & Hgl & Hgs).
    destruct (Hb eq_refl) as (b & Hbl & Hbs).
    destruct (@read_reshape_last _ b (length s) C Hbl Hbs) as (rb & -> & Hsrb & Hgrb).
    destruct (@read_reshape_last _ g (length s) C Hgl Hgs) as (rg & -> & Hsrg & Hgrg).
    cbn [bind]. rewrite Hctr. cbn [bind]. rewrite Hn0. cbn [bind].
    destruct (@binop_ones F tfc.fmul n0 rg s C Hsn0 Hsrg) as (r1 & Hr1 & Hs1 & Hg1).
    unfold tfc.mul. rewrite Hr1. cbn [bind].
    destruct (@binop_ones F tfc.fadd r1 rb s C Hs1 Hsrb) as (r2 & Hr2 & Hs2 & Hg2).
    unfold tfc.add. rewrite Hr2. cbn [bind].
    exists r2. split; [reflexivity|]. split; [congruence|].
    intros pre c Hin.
    rewrite Hg2, Hg1, Hgn0, Hgrg, Hgrb by exact Hin. reflexivity.
  - destruct (Hb eq_refl) as (b & Hbl & Hbs).
    destruct (@read_reshape_last _ b (length s) C Hbl Hbs) as (rb & -> & Hsrb & Hgrb).
    cbn [bind]. rewrite Hctr. cbn [bind]. rewrite Hn0. cbn [bind].
    destruct (@binop_ones F tfc.fadd n0 rb s C Hsn0 Hsrb) as (r2 & Hr2 & Hs2 & Hg2).
    unfold tfc.add. rewrite Hr2. cbn [bind].
    exists r2. split; [reflexivity|]. split; [congruence|].
    intros pre c Hin.
    rewrite Hg2, Hgn0, Hgrb by exact Hin. reflexivity.
  - destruct (Hg eq_refl) as (g & Hgl & Hgs).
    destruct (@read_reshape_last _ g (length s) C Hgl Hgs) as (rg & -> & Hsrg & Hgrg).
    cbn [bind]. rewrite Hctr. cbn [bind]. rewrite Hn0. cbn [bind].
    destruct (@binop_ones F tfc.fmul n0 rg s C Hsn0 Hsrg) as (r1 & Hr1 & Hs1 & Hg1).
    unfold tfc.mul. rewrite Hr1. cbn [bind].
    exists r1. split; [reflexivity|]. split; [congruence|].
    intros pre c Hin.
    rewrite Hg1, Hgn0, Hgrg by exact Hin. reflexivity.
  - cbn [bind]. rewrite Hctr. cbn [bind]. rewrite Hn0. cbn [bind].
    exists n0. split; [reflexivity|]. split; [congruence|].
    intros pre c Hin.
    rewrite Hgn0 by exact Hin. reflexivity.
Qed.

Lemma read_dot_table (w : option (Tensor F)) (t : Tensor F) (sw : list F) C :
  w = Some t -> shape t = [length sw; C] ->
  exists r, ConditionalInstanceNormalization.read_dot sw w = Ok r /\
    shape r = [C] /\
    forall c, get r [c] = selected sw t c.
Proof.
  intros -> Hs. unfold ConditionalInstanceNormalization.read_dot, tfc.dot.
  rewrite Hs, Nat.eqb_refl.
  eexists. split; [reflexivity|]. split; [reflexivity|].
  intros c. reflexivity.
Qed.

Lemma cond_call_last_axis (l : ConditionalInstanceNormalization.Layer)
    (x : Tensor F) s C (sel : list F) (gt bt : Tensor F) :
  shape x = s ++ [C] ->
  ConditionalInstanceNormalization.axis l = (-1)%Z \/
  ConditionalInstanceNormalization.axis l = Z.of_nat (length s) ->
  ConditionalInstanceNormalization.sw l = Some sel ->
  ConditionalInstanceNormalization.gamma l = Some gt ->
  ConditionalInstanceNormalization.beta l = Some bt ->
  shape gt = [length sel; C] ->
  shape bt = [length sel; C] ->
  exists r, ConditionalInstanceNormalization.call l x = Ok r /\
    shape r = shape x /\
    forall pre c, in_bounds (pre ++ [c]) (shape x) ->
      get r (pre ++ [c]) =
      tfc.fadd
        (tfc.fmul
           (standardized x (length s)
              (ConditionalInstanceNormalization.epsilon l) (pre ++ [c]))
           (selected sel gt c))
        (selected sel bt c).
Proof.
  intros Hs Hax Hsw Hgl Hbl Hgs Hbs.
  unfold ConditionalInstanceNormalization.call.
  unfold ConditionalInstanceNormalization.reductionAxes,
    ConditionalInstanceNormalization.resolve_axis. cbv zeta.
  destruct (@standardize_last x s C
              (ConditionalInstanceNormalization.epsilon l) Hs)
    as (ctr & n0 & Hctr & Hn0 & Hsn0 & Hgn0).
  rewrite Hs in *. rewrite (@resolve_last_axis _ s C Hax) in *.
  replace (Z.of_nat (length s) <? 0)%Z with false
    by (symmetry; apply Z.ltb_ge; lia).
  rewrite Nat2Z.id, nth_error_last, broadcastShape_last.
  rewrite Hctr. cbn [bind]. rewrite Hn0. cbn [bind]. rewrite Hsw.
  destruct (@read_dot_table _ bt sel C Hbl Hbs) as (bw & -> & Hsbw & Hgbw).
  destruct (@read_dot_table _ gt sel C Hgl Hgs) as (gw & -> & Hsgw & Hggw).
  cbn [bind].
  destruct (@reshape_vec F bw (length s) C Hsbw) as (rb & -> & Hsrb & Hgrb).
  destruct (@reshape_vec F gw (length s) C Hsgw) as (rg & -> & Hsrg & Hgrg).
  cbn [bind].
  destruct (@binop_ones F tfc.fmul n0 rg s C Hsn0 Hsrg) as (r1 & Hr1 & Hs1 & Hg1).
  unfold tfc.mul. rewrite Hr1. cbn [bind].
  destruct (@binop_ones F tfc.fadd r1 rb s C Hs1 Hsrb) as (r2 & Hr2 & Hs2 & Hg2).
  unfold tfc.add. rewrite Hr2. cbn [bind].
  exists r2. split; [reflexivity|]. split; [congruence|].
  intros pre c Hin.
  rewrite Hg2, Hg1, Hgn0, Hgrg, Hgrb, Hggw, Hgbw by exact Hin. reflexivity.
Qed.

End CallSpec.

Section Claims.
Context {F : Type} `{tfc.Arith F}.

(** Every element of the input, from every sample, is among the values of
    its channel. *)
Lemma axis_values_complete (x : Tensor F) (a : nat) (loc : list nat) :
  a < rank x -> in_bounds loc (shape x) ->
  In (get x loc) (axis_values x a (nth a loc 0)).
Proof.
  intros Ha Hin. unfold axis_values. apply in_map_iff.
  exists (remove_nth a loc). split.
  - rewrite insert_remove_nth; [reflexivity|].
    rewrite (in_bounds_length _ _ Hin). exact Ha.
  - apply in_locs. apply in_bounds_remove_nth. exact Hin.
Qed.

(** C2 (amended): for every input tensor and a channel axis that resolves
    to [a], the forward pass of both layers reduces over every axis except
    [a]; the batch axis 0 is among the reduced axes unless it is the channel
    axis itself.  The mean and the variance hold one entry per channel: the
    mean, and the mean squared deviation, of all the elements of that
    channel, every sample of the batch included. *)
Theorem C2_statistics_over_every_axis_but_the_channel_axis
    (x : Tensor F) (a : nat)
    (pl : @InstanceNormalization.Layer F)
    (cl : @ConditionalInstanceNormalization.Layer F) :
  a < rank x ->
  InstanceNormalization.resolve_axis pl (rank x) = Z.of_nat a ->
  ConditionalInstanceNormalization.resolve_axis cl (rank x) = Z.of_nat a ->
  let axes := InstanceNormalization.reductionAxes pl (rank x) in
  ConditionalInstanceNormalization.reductionAxes cl (rank x) = axes /\
  (forall q, In q axes <-> q < rank x /\ q <> a) /\
  (a <> 0 -> In 0 axes) /\
  shape (fst (tfc.moments x axes)) = [nth a (shape x) 0] /\
  shape (snd (tfc.moments x axes)) = [nth a (shape x) 0] /\
  (forall c, get (fst (tfc.moments x axes)) [c] = axis_mean x a c /\
             get (snd (tfc.moments x axes)) [c] = axis_variance x a c) /\
  (forall loc, in_bounds loc (shape x) ->
               In (get x loc) (axis_values x a (nth a loc 0))).
Proof.
  intros Ha Hp Hc axes. subst axes.
  unfold InstanceNormalization.reductionAxes,
    ConditionalInstanceNormalization.reductionAxes.
  rewrite Hp, Hc.
  destruct (@moments_all_but F _ x a Ha) as (Hsm & Hsv & Hget).
  split; [reflexivity|].
  rewrite splice1_range in * by exact Ha.
  split; [intros q; apply in_all_but; exact Ha|].
  split; [intros Hne; apply in_all_but; [exact Ha | lia]|].
  split; [exact Hsm|]. split; [exact Hsv|]. split; [exact Hget|].
  intros loc Hin. apply axis_values_complete; assumption.
Qed.






(** With a selector present the conditional layer never looks at its
    [scale] and [center] options. *)
Lemma cond_call_ignores_toggles
    (l : @ConditionalInstanceNormalization.Layer F) (x : Tensor F)
    (sc ce : option bool) :
  ConditionalInstanceNormalization.sw l <> None ->
  ConditionalInstanceNormalization.call
    (ConditionalInstanceNormalization.with_toggles l sc ce) x
  = ConditionalInstanceNormalization.call l x.
Proof.
  intros Hsw. destruct l as [ax eps ce0 sc0 sn g b sel].
  cbn [ConditionalInstanceNormalization.sw] in Hsw.
  destruct sel as [sel|]; [|congruence].
  reflexivity.
Qed.

(** C9 (amended): in the plain forward pass gamma scaling is applied exactly
    when [scale] is enabled and beta shifting exactly when [center] is
    enabled, each whatever the other.  In the conditional forward pass of a
    layer with a selector, which every built layer has, the selected gamma
    scaling and the selected beta shifting are both applied, whatever the
    two options say. *)
Theorem C9_toggles_plain_only
    (pl : @InstanceNormalization.Layer F)
    (cl : @ConditionalInstanceNormalization.Layer F)
    (x : Tensor F) (s : list nat) (C : nat)
    (sel : list F) (gt bt : Tensor F) :
  shape x = s ++ [C] ->
  InstanceNormalization.axis pl = (-1)%Z \/
  InstanceNormalization.axis pl = Z.of_nat (length s) ->
  ConditionalInstanceNormalization.axis cl = (-1)%Z \/
  ConditionalInstanceNormalization.axis cl = Z.of_nat (length s) ->
  (truthy (InstanceNormalization.scale pl) = true ->
   exists g, InstanceNormalization.gamma pl = Some g /\ shape g = [C]) ->
  (truthy (InstanceNormalization.center pl) = true ->
   exists b, InstanceNormalization.beta pl = Some b /\ shape b = [C]) ->
  ConditionalInstanceNormalization.sw cl = Some sel ->
  ConditionalInstanceNormalization.gamma cl = Some gt ->
  ConditionalInstanceNormalization.beta cl = Some bt ->
  shape gt = [length sel; C] -> shape bt = [length sel; C] ->
  (exists r, InstanceNormalization.call pl x = Ok r /\
     forall pre c, in_bounds (pre ++ [c]) (shape x) ->
       get r (pre ++ [c]) =
       let v := standardized x (length s)
                  (InstanceNormalization.epsilon pl) (pre ++ [c]) in
       let v := if truthy (InstanceNormalization.scale pl)
                then tfc.fmul v (weight_at (InstanceNormalization.gamma pl) c)
                else v in
       if truthy (InstanceNormalization.center pl)
       then tfc.fadd v (weight_at (InstanceNormalization.beta pl) c)
       else v) /\
  (exists r, ConditionalInstanceNormalization.call cl x = Ok r /\
     (forall pre c, in_bounds (pre ++ [c]) (shape x) ->
        get r (pre ++ [c]) =
        tfc.fadd
          (tfc.fmul
             (standardized x (length s)
                (ConditionalInstanceNormalization.epsilon cl) (pre ++ [c]))
             (selected sel gt c))
          (selected sel bt c)) /\
     forall sc ce,
       ConditionalInstanceNormalization.call
         (ConditionalInstanceNormalization.with_toggles cl sc ce) x = Ok r).
Proof.
  intros Hs Hpa Hca Hg Hb Hsw Hgl Hbl Hgs Hbs. split.
  - destruct (@call_last_axis F _ pl x s C Hs Hpa Hg Hb)
      as (r & Hr & _ & Hget).
    exists r. split; [exact Hr|]. exact Hget.
  - destruct (@cond_call_last_axis F _ cl x s C sel gt bt
                Hs Hca Hsw Hgl Hbl Hgs Hbs)
      as (r & Hr & _ & Hget).
    exists r. split; [exact Hr|]. split; [exact Hget|].
    intros sc ce. rewrite cond_call_ignores_toggles; [exact Hr|].
    rewrite Hsw. discriminate.
Qed.

Lemma resolve_default_axis (ax : Z) (pre : Shape) (d : option Z) :
  ax = (-1)%Z ->
  (if (0 <=? ax)%Z then ax else (ax + Z.of_nat (length (pre ++ [d])))%Z)
  = Z.of_nat (length pre).
Proof.
  intros ->. rewrite length_app. cbn [length].
  change (0 <=? -1)%Z with false. cbv iota. lia.
Qed.

Lemma nth_shape_last (pre : Shape) (d : option Z) :
  nth (length pre) (pre ++ [d]) None = d.
Proof. induction pre; cbn; auto. Qed.

Lemma length_one_hot (i n : nat) : length (one_hot (F:=F) i n) = n.
Proof. unfold one_hot. rewrite length_map, length_seq. reflexivity. Qed.

Lemma nth_one_hot (i n k : nat) : k < n ->
  nth k (one_hot i n) tfc.fzero = if k =? i then tfc.fone else tfc.fzero.
Proof.
  intros Hk. unfold one_hot.
  rewrite nth_indep
    with (d' := (fun q => if q =? i then tfc.fone else tfc.fzero) 0)
    by (rewrite length_map, length_seq; exact Hk).
  rewrite (map_nth (fun q => if q =? i then tfc.fone else tfc.fzero)).
  rewrite seq_nth by exact Hk. reflexivity.
Qed.

Lemma map_const_seq (v : F) (len st : nat) :
  (forall k, In k (seq st len) -> (k =? 0) = false) ->
  map (fun k => if k =? 0 then tfc.fone else v) (seq st len) = repeat v len.
Proof.
  revert st. induction len; intros st Hk; [reflexivity|].
  cbn [seq map repeat]. rewrite Hk by (cbn; auto). f_equal.
  apply IHlen. intros k Hin. apply Hk. cbn. auto.
Qed.

(** The selector [build] creates selects style 0. *)
Lemma initial_sw_one_hot (n : option Z) :
  ConditionalInstanceNormalization.initial_sw n =
  one_hot 0 (Nat.max 1 (match n with Some n => Z.to_nat n | None => 0 end)).
Proof.
  unfold ConditionalInstanceNormalization.initial_sw.
  set (k := match n with Some n0 => Z.to_nat n0 | None => 0 end).
  destruct k as [|k]; [reflexivity|].
  cbn [repeat Nat.max]. unfold one_hot. cbn [seq map Nat.eqb]. f_equal.
  symmetry. apply map_const_seq.
  intros q Hq. apply in_seq in Hq. apply Nat.eqb_neq. lia.
Qed.

(** C10: constructed without [axis] and [epsilon], both layers have the
    channel axis -1 and the epsilon 1e-3; [build] keeps them, and the
    forward pass of the built layer standardizes along the last axis,
    [rank - 1], with epsilon 1e-3. *)
Theorem C10_default_axis_and_epsilon
    (pa : @InstanceNormalization.InstanceNormalizationLayerArgs F)
    (ca : @ConditionalInstanceNormalization.ConditionalInstanceNormalizationLayerArgs F)
    (pl : @InstanceNormalization.Layer F)
    (cl : @ConditionalInstanceNormalization.Layer F)
    (inputShape pre : Shape) (x : Tensor F) (s : list nat) (C : nat) :
  InstanceNormalization.args_axis pa = None ->
  InstanceNormalization.args_epsilon pa = None ->
  ConditionalInstanceNormalization.args_axis ca = None ->
  ConditionalInstanceNormalization.args_epsilon ca = None ->
  shape x = s ++ [C] ->
  inputShape = pre ++ [Some (Z.of_nat C)] -> length pre = length s ->
  InstanceNormalization.build
    (InstanceNormalization.constructor (Some pa)) inputShape = Ok pl ->
  ConditionalInstanceNormalization.build
    (ConditionalInstanceNormalization.constructor (Some ca)) inputShape
    = Ok cl ->
  (exists n, ConditionalInstanceNormalization.args_styleNum ca = Some n /\
             (1 <= n)%Z) ->
  (InstanceNormalization.axis
     (InstanceNormalization.constructor (F:=F) None) = (-1)%Z /\
   InstanceNormalization.epsilon
     (InstanceNormalization.constructor (F:=F) None) = tfc.fnum 1 1000 /\
   ConditionalInstanceNormalization.axis
     (ConditionalInstanceNormalization.constructor (F:=F) None) = (-1)%Z /\
   ConditionalInstanceNormalization.epsilon
     (ConditionalInstanceNormalization.constructor (F:=F) None)
     = tfc.fnum 1 1000) /\
  (InstanceNormalization.axis
     (InstanceNormalization.constructor (Some pa)) = (-1)%Z /\
   InstanceNormalization.epsilon
     (InstanceNormalization.constructor (Some pa)) = tfc.fnum 1 1000 /\
   ConditionalInstanceNormalization.axis
     (ConditionalInstanceNormalization.constructor (Some ca)) = (-1)%Z /\
   ConditionalInstanceNormalization.epsilon
     (ConditionalInstanceNormalization.constructor (Some ca))
     = tfc.fnum 1 1000) /\
  (InstanceNormalization.axis pl = (-1)%Z /\
   InstanceNormalization.epsilon pl = tfc.fnum 1 1000 /\
   ConditionalInstanceNormalization.axis cl = (-1)%Z /\
   ConditionalInstanceNormalization.epsilon cl = tfc.fnum 1 1000) /\
  (exists r, InstanceNormalization.call pl x = Ok r /\
     forall pre c, in_bounds (pre ++ [c]) (shape x) ->
       get r (pre ++ [c]) =
       affine (truthy (InstanceNormalization.scale pl))
              (truthy (InstanceNormalization.center pl))
              (weight_at (InstanceNormalization.gamma pl) c)
              (weight_at (InstanceNormalization.beta pl) c)
              (standardized x (rank x - 1) (tfc.fnum 1 1000) (pre ++ [c]))) /\
  (exists r sel gt bt,
     ConditionalInstanceNormalization.sw cl = Some sel /\
     ConditionalInstanceNormalization.gamma cl = Some gt /\
     ConditionalInstanceNormalization.beta cl = Some bt /\
     ConditionalInstanceNormalization.call cl x = Ok r /\
     forall pre c, in_bounds (pre ++ [c]) (shape x) ->
       get r (pre ++ [c]) =
       tfc.fadd
         (tfc.fmul
            (standardized x (rank x - 1) (tfc.fnum 1 1000) (pre ++ [c]))
            (selected sel gt c))
         (selected sel bt c)).
Proof.
  intros Hpax Hpeps Hcax Hceps Hs Hin Hlen Hpb Hcb (n & Hn & Hn1).
  assert (Hrank : rank x - 1 = length s)
    by (unfold rank; rewrite Hs, length_app; cbn; lia).
  rewrite Hrank.
  split; [repeat split; reflexivity|].
  split; [cbn; rewrite Hpax, Hpeps, Hcax, Hceps; repeat split; reflexivity|].
  (* the plain layer as built *)
  unfold InstanceNormalization.build, InstanceNormalization.resolve_axis
    in Hpb.
  cbv zeta in Hpb.
  assert (Hax0 : InstanceNormalization.axis
                   (InstanceNormalization.constructor (Some pa)) = (-1)%Z)
    by (cbn; rewrite Hpax; reflexivity).
  rewrite Hin, (@resolve_default_axis _ pre _ Hax0) in Hpb.
  replace (Z.of_nat (length pre) <? 0)%Z with false in Hpb
    by (symmetry; apply Z.ltb_ge; lia).
  rewrite Nat2Z.id, nth_shape_last, Nat2Z.id in Hpb.
  injection Hpb as <-.
  (* the conditional layer as built *)
  unfold ConditionalInstanceNormalization.build,
    ConditionalInstanceNormalization.resolve_axis in Hcb.
  cbv zeta in Hcb.
  assert (Hax1 : ConditionalInstanceNormalization.axis
                   (ConditionalInstanceNormalization.constructor (Some ca))
                 = (-1)%Z)
    by (cbn; rewrite Hcax; reflexivity).
  rewrite Hin, (@resolve_default_axis _ pre _ Hax1) in Hcb.
  replace (Z.of_nat (length pre) <? 0)%Z with false in Hcb
    by (symmetry; apply Z.ltb_ge; lia).
  rewrite Nat2Z.id, nth_shape_last, Nat2Z.id in Hcb.
  cbn [ConditionalInstanceNormalization.style_num
       ConditionalInstanceNormalization.constructor] in Hcb.
  rewrite Hn in Hcb.
  replace (0 <=? n)%Z with true in Hcb by (symmetry; apply Z.leb_le; lia).
  injection Hcb as <-.
  cbn [InstanceNormalization.axis InstanceNormalization.epsilon
       InstanceNormalization.scale InstanceNormalization.center
       InstanceNormalization.gamma InstanceNormalization.beta
       InstanceNormalization.constructor
       ConditionalInstanceNormalization.axis
       ConditionalInstanceNormalization.epsilon
       ConditionalInstanceNormalization.sw
       ConditionalInstanceNormalization.gamma
       ConditionalInstanceNormalization.beta
       ConditionalInstanceNormalization.constructor].
  rewrite Hpax, Hpeps, Hcax, Hceps.
  split; [repeat split; reflexivity|]. split.
  - set (l := InstanceNormalization.mkLayer _ _ _ _ _ _).
    destruct (@call_last_axis F _ l x s C Hs) as (r & Hr & _ & Hget).
    + left. reflexivity.
    + subst l. cbn [InstanceNormalization.scale InstanceNormalization.gamma].
      intros ->. eexists. split; reflexivity.
    + subst l. cbn [InstanceNormalization.center InstanceNormalization.beta].
      intros ->. eexists. split; reflexivity.
    + exists r. split; [exact Hr|]. exact Hget.
  - set (l := ConditionalInstanceNormalization.mkLayer _ _ _ _ _ _ _ _).
    set (sel := ConditionalInstanceNormalization.initial_sw (F:=F) (Some n)).
    assert (Hsel : length sel = Z.to_nat n).
    { subst sel. rewrite initial_sw_one_hot, length_one_hot. lia. }
    destruct (@cond_call_last_axis F _ l x s C sel
                (tfc.ones [Z.to_nat n; C]) (tfc.zeros [Z.to_nat n; C]) Hs)
      as (r & Hr & _ & Hget);
      try reflexivity; try (left; reflexivity);
      try (cbn [shape tfc.ones tfc.zeros]; rewrite Hsel; reflexivity).
    exists r. do 3 eexists. repeat (split; [reflexivity|]).
    split; [exact Hr|]. exact Hget.
Qed.

End Claims.

(** *** Exact arithmetic *)

Section RealFacts.
Local Open Scope R_scope.

Lemma fsum_Rsum (l : list R) : tfc.fsum l = Rsum l.
Proof.
  unfold tfc.fsum, Rsum. induction l as [|v l IH]; cbn [fold_right].
  - unfold tfc.fzero. cbn. lra.
  - rewrite IH. reflexivity.
Qed.

Lemma fnat_INR (n : nat) : tfc.fnat n = INR n.
Proof. unfold tfc.fnat. cbn. rewrite <- INR_IZR_INZ. lra. Qed.

Lemma list_mean_R (l : list R) : list_mean l = Rsum l / INR (length l).
Proof. unfold list_mean. rewrite fsum_Rsum, fnat_INR. reflexivity. Qed.

Lemma Rsum_map_scale (k : R) (f : R -> R) (l : list R) :
  Rsum (map (fun t => f t * k) l) = Rsum (map f l) * k.
Proof.
  unfold Rsum. induction l as [|v l IH]; cbn [map fold_right]; [lra|].
  rewrite IH. lra.
Qed.

Lemma Rsum_map_shift (m : R) (l : list R) :
  Rsum (map (fun t => t - m) l) = Rsum l - INR (length l) * m.
Proof.
  unfold Rsum. induction l as [|v l IH]; [cbn; lra|].
  cbn [map fold_right length]. rewrite IH, S_INR. lra.
Qed.

Lemma Rsum_squares_nonneg (f : R -> R) (l : list R) :
  0 <= Rsum (map (fun t => f t * f t) l).
Proof.
  unfold Rsum. induction l as [|v l IH]; cbn [map fold_right]; [lra|].
  pose proof (Rle_0_sqr (f v)) as Hs. unfold Rsqr in Hs. lra.
Qed.

Lemma list_variance_R (l : list R) :
  list_variance l =
  Rsum (map (fun t => (t - list_mean l) * (t - list_mean l)) l)
  / INR (length l).
Proof.
  unfold list_variance. cbv zeta. rewrite list_mean_R, length_map.
  reflexivity.
Qed.

(** Standardizing a list of values with non-zero variance gives mean 0 and
    variance 1. *)
Lemma standardized_list_stats (l : list R) :
  list_variance l <> 0 ->
  let out := map (fun t => (t - list_mean l) / (sqrt (list_variance l) + 0)) l in
  list_mean out = 0 /\ list_variance out = 1.
Proof.
  intros Hv out.
  set (m := list_mean l) in *. set (v := list_variance l) in *.
  assert (HN : INR (length l) <> 0).
  { intros H0. apply Hv. subst v. rewrite list_variance_R, H0.
    unfold Rdiv. rewrite Rinv_0. lra. }
  assert (HNpos : 0 < INR (length l)) by (pose proof (pos_INR (length l)); lra).
  assert (Hvpos : 0 < v).
  { assert (0 <= v); [|lra]. subst v. rewrite list_variance_R.
    apply Rmult_le_pos; [apply Rsum_squares_nonneg with (f := fun t => t - list_mean l)|].
    left. apply Rinv_0_lt_compat. exact HNpos. }
  assert (Hs : sqrt v * sqrt v = v) by (apply sqrt_sqrt; lra).
  assert (Hspos : 0 < sqrt v) by (apply sqrt_lt_R0; exact Hvpos).
  assert (Hmean : list_mean out = 0).
  { rewrite list_mean_R. subst out. rewrite length_map.
    replace (map (fun t => (t - m) / (sqrt v + 0)) l)
      with (map (fun t => (fun u => u - m) t * / (sqrt v + 0)) l)
      by (apply map_ext; intros; reflexivity).
    rewrite Rsum_map_scale, Rsum_map_shift.
    assert (Hm : Rsum l = INR (length l) * m).
    { subst m. rewrite list_mean_R. field. exact HN. }
    rewrite Hm. field. split; lra. }
  split; [exact Hmean|].
  rewrite list_variance_R, Hmean. subst out. rewrite length_map, map_map.
  replace (map (fun t => ((t - m) / (sqrt v + 0) - 0) * ((t - m) / (sqrt v + 0) - 0)) l)
    with (map (fun t => (fun u => (u - m) * (u - m)) t * / v) l).
  2:{ apply map_ext. intros t. cbv beta. rewrite <- Hs at 1. field. lra. }
  rewrite Rsum_map_scale.
  assert (Hvdef : Rsum (map (fun u => (u - m) * (u - m)) l) = v * INR (length l)).
  { subst v. rewrite list_variance_R. fold m. field. exact HN. }
  rewrite Hvdef. field. split; lra.
Qed.

Lemma Rsum_indicator (f : nat -> R) (i : nat) : forall len st,
  Rsum (map (fun k => (if (k =? i)%nat then 1 else 0) * f k) (seq st len))
  = if ((st <=? i) && (i <? st + len))%nat then f i else 0.
Proof.
  unfold Rsum. induction len; intros st; cbn [seq map fold_right].
  - replace ((st <=? i) && (i <? st + 0))%nat with false; [reflexivity|].
    symmetry. apply andb_false_iff.
    destruct (Nat.leb_spec st i); [right; apply Nat.ltb_ge; lia | left; reflexivity].
  - rewrite IHlen.
    destruct (Nat.eqb_spec st i); destruct (Nat.leb_spec st i);
      destruct (Nat.leb_spec (S st) i); destruct (Nat.ltb_spec i (S st + len));
      destruct (Nat.ltb_spec i (st + S len)); cbn [andb]; subst; try lia; lra.
Qed.

Lemma selected_one_hot (t : Tensor R) (i n c : nat) :
  (i < n)%nat -> selected (one_hot i n) t c = get t [i; c].
Proof.
  intros Hi. unfold selected. rewrite fsum_Rsum, length_one_hot.
  rewrite map_ext_in with
    (g := fun k => (if (k =? i)%nat then 1 else 0) * get t [k; c]).
  - rewrite Rsum_indicator.
    replace ((0 <=? i) && (i <? 0 + n))%nat with true; [reflexivity|].
    symmetry. apply andb_true_iff. split; [apply Nat.leb_le | apply Nat.ltb_lt]; lia.
  - intros k Hk. apply in_seq in Hk. rewrite nth_one_hot by lia.
    destruct (k =? i)%nat; unfold tfc.fone, tfc.fzero; cbn; lra.
Qed.

End RealFacts.

Section Conditional.
Local Open Scope R_scope.
Import ConditionalInstanceNormalization.





End Conditional.

Section Plain.
Local Open Scope R_scope.
Import InstanceNormalization.

Lemma axis_values_last (x : Tensor R) (s : list nat) (C c : nat) :
  shape x = s ++ [C] ->
  axis_values x (length s) c = map (fun rest => get x (rest ++ [c])) (locs s).
Proof.
  intros Hs. unfold axis_values. rewrite Hs, remove_nth_last.
  apply map_ext_in. intros rest Hin.
  apply in_locs, in_bounds_length in Hin. rewrite <- Hin, insert_nth_last.
  reflexivity.
Qed.

(** C7 (amended): for every input tensor (channel axis last) the value
    before the affine step is [(x - mean) / (sqrt(variance) + epsilon)],
    epsilon being added after the square root.  With gamma = 1, beta = 0
    and epsilon = 0 the output has, in exact arithmetic, mean 0 and variance
    1 over the reduced axes for every channel whose variance is not 0. *)
Theorem C7_epsilon_added_to_the_standard_deviation
    (l : Layer (F:=R)) (x : Tensor R) (s : list nat) (C : nat) :
  shape x = s ++ [C] ->
  axis l = (-1)%Z \/ axis l = Z.of_nat (length s) ->
  (truthy (scale l) = true -> exists g, gamma l = Some g /\ shape g = [C]) ->
  (truthy (center l) = true -> exists b, beta l = Some b /\ shape b = [C]) ->
  exists r,
    call l x = Ok r /\
    (forall pre c, in_bounds (pre ++ [c]) (shape x) ->
       get r (pre ++ [c]) =
       affine (truthy (scale l)) (truthy (center l))
         (weight_at (gamma l) c) (weight_at (beta l) c)
         ((get x (pre ++ [c]) - axis_mean x (length s) c)
          / (sqrt (axis_variance x (length s) c) + epsilon l))) /\
    (epsilon l = 0 ->
     (truthy (scale l) = true -> forall c, weight_at (gamma l) c = 1) ->
     (truthy (center l) = true -> forall c, weight_at (beta l) c = 0) ->
     forall c, (c < C)%nat -> axis_variance x (length s) c <> 0 ->
       axis_mean r (length s) c = 0 /\ axis_variance r (length s) c = 1).
Proof.
  intros Hs Hax Hg Hb.
  destruct (@call_last_axis R _ l x s C Hs Hax Hg Hb) as (r & Hr & Hsr & Hget).
  exists r. split; [exact Hr|]. split.
  - intros pre c Hin. rewrite (Hget pre c Hin). unfold standardized.
    rewrite Hs in Hin. apply in_bounds_snoc in Hin. destruct Hin as (Hlen & _).
    rewrite <- Hlen, nth_last. reflexivity.
  - intros Heps Hone Hzero c Hc Hv.
    assert (Hout : axis_values r (length s) c =
                   map (fun t => (t - list_mean (axis_values x (length s) c))
                                 / (sqrt (list_variance (axis_values x (length s) c)) + 0))
                       (axis_values x (length s) c)).
    { rewrite (@axis_values_last r s C c) by congruence.
      rewrite (@axis_values_last x s C c) by exact Hs.
      rewrite map_map. apply map_ext_in. intros rest Hin.
      assert (Hb' : in_bounds (rest ++ [c]) (shape x)).
      { rewrite Hs. apply in_bounds_app.
        - apply in_locs, in_bounds_length in Hin. exact Hin.
        - split; [apply in_locs; exact Hin|]. cbn. auto. }
      rewrite (Hget rest c Hb'). unfold standardized.
      rewrite Hs in Hb'. apply in_bounds_snoc in Hb'. destruct Hb' as (Hl & _).
      rewrite <- Hl, nth_last, Hl, Heps.
      rewrite <- (@axis_values_last x s C c) by exact Hs.
      fold (axis_mean x (length s) c). fold (axis_variance x (length s) c).
      unfold affine.
      destruct (truthy (scale l)) eqn:Es; destruct (truthy (center l)) eqn:Ec;
        rewrite ?(Hone eq_refl c), ?(Hzero eq_refl c);
        cbn [tfc.fadd tfc.fmul tfc.fdiv tfc.fsub tfc.fsqrt RArith];
        unfold Rdiv; ring. }
    unfold axis_mean, axis_variance. rewrite Hout.
    apply standardized_list_stats. exact Hv.
Qed.

End Plain.

(** *** Examples *)

Section Examples.
Local Open Scope R_scope.
Import Examples.

Ltac r_eval :=
  unfold standardized, axis_mean, axis_variance, list_variance, list_mean,
    axis_values, selected;
  cbn [batch_a batch_b flat5 tensor4d shape get remove_nth locs flat_map seq map app
       insert_nth nth length];
  unfold tfc.fsum, tfc.fnat, tfc.fzero, tfc.fone;
  cbn [fold_right tfc.fadd tfc.fsub tfc.fmul tfc.fdiv tfc.fsqrt tfc.fnum
       RArith Z.of_nat Pos.of_succ_nat Pos.succ].

Lemma standardized_batch_a (eps : R) :
  0 < eps -> standardized batch_a 3 eps [0; 0; 0; 0]%nat < 0.
Proof.
  intros He. r_eval.
  match goal with |- _ / (sqrt ?v + _) < 0 =>
    pose proof (sqrt_pos v) as Hv; set (sv := sqrt v) in * end.
  assert (Hinv : 0 < / (sv + eps)) by (apply Rinv_0_lt_compat; lra).
  unfold Rdiv at 1. 
  replace (0 - (0 + (2 + 0 * / 1)) * / (2 * / 1)) with (-1) by lra.
  lra.
Qed.

Lemma standardized_batch_b (eps : R) :
  standardized batch_b 3 eps [0; 0; 0; 0]%nat = 0.
Proof.
  r_eval. unfold Rdiv at 1.
  replace (0 - (0 + (0 + 0 / 1)) / (2 / 1)) with 0 by lra. ring.
Qed.

Lemma same_first_sample (loc : list nat) :
  in_bounds loc (shape batch_a) -> nth 0 loc 0%nat = 0%nat ->
  get batch_a loc = get batch_b loc.
Proof.
  intros Hin Hb. apply ReflectionPaddingFacts.in_bounds4 in Hin.
  destruct Hin as (b & i & j & c & -> & Hb' & Hi & Hj & Hc).
  cbn in Hb. subst b.
  replace i with 0%nat by lia. replace j with 0%nat by lia.
  replace c with 0%nat by lia. reflexivity.
Qed.

(** C2 (as stated, refuted): the two batches [batch_a] and [batch_b] have
    the same first sample, yet the outputs for the first sample differ:
    the statistics are taken across the batch.  This holds for the plain
    layer and for the conditional layer. *)
Lemma C2_statistics_mix_the_samples :
  ~ computed_per_sample (InstanceNormalization.call plain_default) /\
  exists cl, conditional_built = Ok cl /\
    ~ computed_per_sample (ConditionalInstanceNormalization.call cl).
Proof.
  split.
  - intros Hps.
    destruct (@call_last_axis R _ plain_default batch_a [2; 1; 1]%nat 1%nat)
      as (ra & Hra & _ & Hga);
      [reflexivity | left; reflexivity | discriminate | discriminate |].
    destruct (@call_last_axis R _ plain_default batch_b [2; 1; 1]%nat 1%nat)
      as (rb & Hrb & _ & Hgb);
      [reflexivity | left; reflexivity | discriminate | discriminate |].
    assert (Hin : in_bounds ([0; 0; 0] ++ [0])%nat (shape batch_a))
      by (cbn; repeat split; lia).
    assert (Ea : get ra [0; 0; 0; 0]%nat
                 = standardized batch_a 3 (1 / 1000) [0; 0; 0; 0]%nat)
      by exact (Hga [0; 0; 0]%nat 0%nat Hin).
    assert (Eb : get rb [0; 0; 0; 0]%nat
                 = standardized batch_b 3 (1 / 1000) [0; 0; 0; 0]%nat)
      by exact (Hgb [0; 0; 0]%nat 0%nat Hin).
    specialize (Hps batch_a batch_b ra rb 0%nat eq_refl same_first_sample
                    Hra Hrb [0; 0; 0; 0]%nat Hin eq_refl).
    rewrite Ea, Eb, standardized_batch_b in Hps.
    pose proof (@standardized_batch_a (1 / 1000)) as Ha. lra.
  - eexists. split; [reflexivity|].
    intros Hps.
    match type of Hps with
    | computed_per_sample (ConditionalInstanceNormalization.call ?l) =>
        set (cl := l) in *
    end.
    destruct (@cond_call_last_axis R _ cl batch_a [2; 1; 1]%nat 1%nat
                (ConditionalInstanceNormalization.initial_sw (Some 1%Z))
                (tfc.ones [1; 1]%nat) (tfc.zeros [1; 1]%nat))
      as (ra & Hra & _ & Hga);
      [reflexivity | left; reflexivity | reflexivity | reflexivity | reflexivity
       | reflexivity | reflexivity |].
    destruct (@cond_call_last_axis R _ cl batch_b [2; 1; 1]%nat 1%nat
                (ConditionalInstanceNormalization.initial_sw (Some 1%Z))
                (tfc.ones [1; 1]%nat) (tfc.zeros [1; 1]%nat))
      as (rb & Hrb & _ & Hgb);
      [reflexivity | left; reflexivity | reflexivity | reflexivity | reflexivity
       | reflexivity | reflexivity |].
    assert (Hin : in_bounds ([0; 0; 0] ++ [0])%nat (shape batch_a))
      by (cbn; repeat split; lia).
    assert (Ea : get ra [0; 0; 0; 0]%nat
                 = standardized batch_a 3 (1 / 1000) [0; 0; 0; 0]%nat
                   * (1 / 1 * (1 / 1) + 0 / 1) + (1 / 1 * (0 / 1) + 0 / 1))
      by exact (Hga [0; 0; 0]%nat 0%nat Hin).
    assert (Eb : get rb [0; 0; 0; 0]%nat
                 = standardized batch_b 3 (1 / 1000) [0; 0; 0; 0]%nat
                   * (1 / 1 * (1 / 1) + 0 / 1) + (1 / 1 * (0 / 1) + 0 / 1))
      by exact (Hgb [0; 0; 0]%nat 0%nat Hin).
    specialize (Hps batch_a batch_b ra rb 0%nat eq_refl same_first_sample
                    Hra Hrb [0; 0; 0; 0]%nat Hin eq_refl).
    rewrite Ea, Eb, standardized_batch_b in Hps.
    pose proof (@standardized_batch_a (1 / 1000)) as Ha. lra.
Qed.

Lemma C2_statistics_over_every_axis_but_the_channel_axis_witness :
  InstanceNormalization.reductionAxes plain_default (rank batch_a)
    = [0; 1; 2]%nat /\
  get (fst (tfc.moments batch_a
              (InstanceNormalization.reductionAxes plain_default
                 (rank batch_a)))) [0%nat]
    = axis_mean batch_a 3 0.
Proof.
  destruct (@C2_statistics_over_every_axis_but_the_channel_axis R _
              batch_a 3 plain_default
              (ConditionalInstanceNormalization.constructor None))
    as (_ & _ & _ & _ & _ & Hm & _).
  - cbn. lia.
  - reflexivity.
  - reflexivity.
  - split; [reflexivity | apply Hm].
Defined.



Lemma call_fails_off_the_last_axis :
  InstanceNormalization.call channels_first wide = Err ShapeMismatch.
Proof. reflexivity. Qed.

Lemma variance_batch_a : axis_variance batch_a 3 0 <> 0.
Proof.
  r_eval.
  match goal with |- ?v <> 0 => replace v with 1 by lra end. lra.
Qed.

Lemma C7_epsilon_added_to_the_standard_deviation_witness :
  exists r,
    InstanceNormalization.call bare_eps0 batch_a = Ok r /\
    axis_mean r 3 0 = 0 /\ axis_variance r 3 0 = 1.
Proof.
  destruct (@C7_epsilon_added_to_the_standard_deviation bare_eps0 batch_a
              [2; 1; 1]%nat 1%nat)
    as (r & Hr & _ & Hstat).
  - reflexivity.
  - left. reflexivity.
  - discriminate.
  - discriminate.
  - exists r. split; [exact Hr|].
    apply (Hstat eq_refl).
    + discriminate.
    + discriminate.
    + lia.
    + exact variance_batch_a.
Defined.

Lemma standardized_flat5 (i j : nat) :
  (i < 2)%nat -> (j < 2)%nat ->
  standardized flat5 3 0 [0; i; j; 0]%nat = 0.
Proof.
  intros Hi Hj.
  assert (Hget : get flat5 [0; i; j; 0]%nat = 5).
  { destruct i as [|[|i]]; [| |lia]; (destruct j as [|[|j]]; [| |lia]); reflexivity. }
  unfold standardized. rewrite Hget. r_eval.
  unfold Rdiv at 1.
  replace (5 - (5 + (5 + (5 + (5 + 0 / 1)))) / (4 / 1)) with 0 by lra.
  ring.
Qed.

(** C7 (as stated, refuted): the constant 2x2 input [flat5] is normalized
    with gamma = 1, beta = 0 and epsilon = 0; every output element is 0, so
    the variance of the output is 0 and not 1.  And with the channel axis
    1 of a [1, 2, 1, 3]-shaped input the forward pass returns no value at
    all: the per-channel mean does not broadcast against the input. *)
Lemma C7_constant_channel_has_no_unit_variance :
  InstanceNormalization.call channels_first wide = Err ShapeMismatch /\
  InstanceNormalization.build
    (InstanceNormalization.constructor (Some unit_weights_args))
    (known (shape flat5)) = Ok unit_weights /\
  exists r,
    InstanceNormalization.call unit_weights flat5 = Ok r /\
    axis_variance r 3 0 <> 1.
Proof.
  split; [reflexivity|]. split; [reflexivity|].
  destruct (@call_last_axis R _ unit_weights flat5 [1; 2; 2]%nat 1%nat)
    as (r & Hr & Hsr & Hget).
  - reflexivity.
  - left. reflexivity.
  - intros _. eexists. split; reflexivity.
  - intros _. eexists. split; reflexivity.
  - exists r. split; [exact Hr|].
    assert (Hz : forall i j, (i < 2)%nat -> (j < 2)%nat ->
                             get r [0; i; j; 0]%nat = 0).
    { intros i j Hi Hj.
      assert (Hin : in_bounds ([0; i; j] ++ [0])%nat (shape flat5))
        by (cbn; repeat split; lia).
      pose proof (Hget [0; i; j]%nat 0%nat Hin) as E.
      cbn [app length] in E.
      change (InstanceNormalization.epsilon unit_weights) with 0 in E.
      rewrite standardized_flat5 in E by assumption.
      rewrite E. unfold affine. cbn. unfold tfc.fone, tfc.fzero. cbn. lra. }
    unfold axis_variance, axis_values. rewrite Hsr.
    cbn [flat5 tensor4d shape remove_nth locs flat_map seq map app insert_nth].
    rewrite !Hz by lia.
    unfold list_variance, list_mean, tfc.fsum, tfc.fnat.
    cbn [map fold_right length tfc.fadd tfc.fsub tfc.fmul tfc.fdiv tfc.fnum
         RArith Z.of_nat Pos.of_succ_nat Pos.succ].
    unfold tfc.fzero. cbn [tfc.fnum RArith]. lra.
Qed.

(** Where epsilon is added matters: on [batch_a], whose channel has mean 1
    and variance 1, epsilon 3 added after the square root divides by 4,
    added before it divides by 2. *)
Lemma epsilon_placement_matters :
  standardized batch_a 3 3 [0; 0; 0; 0]%nat = - (1 / 4) /\
  standardized_eps_inside batch_a 3 3 [0; 0; 0; 0]%nat = - (1 / 2).
Proof.
  split.
  - r_eval.
    match goal with |- context [sqrt ?v] => replace v with 1 by lra end.
    rewrite sqrt_1. lra.
  - unfold standardized_eps_inside. r_eval.
    match goal with |- context [sqrt ?v] => replace v with (2 * 2) by lra end.
    rewrite sqrt_square by lra. lra.
Qed.

(** C9 (as stated, refuted): a conditional layer constructed with [scale]
    and [center] disabled, built, and loaded with gamma 2 and beta 0 doubles
    the standardized value; loaded with gamma 1 and beta 3 it adds 3 to
    it. *)
Lemma C9_conditional_ignores_scale_and_center :
  ConditionalInstanceNormalization.build
    (ConditionalInstanceNormalization.constructor (Some toggles_off_args))
    (known (shape batch_a))
    = Ok toggles_off /\
  truthy (ConditionalInstanceNormalization.scale toggles_off) = false /\
  truthy (ConditionalInstanceNormalization.center toggles_off) = false /\
  (exists r,
     ConditionalInstanceNormalization.call
       (ConditionalInstanceNormalization.load_weights toggles_off
          (constant_table 2) (constant_table 0))
       batch_a = Ok r /\
     get r [0; 0; 0; 0]%nat
       = 2 * standardized batch_a 3 (1 / 1000) [0; 0; 0; 0]%nat /\
     get r [0; 0; 0; 0]%nat
       <> standardized batch_a 3 (1 / 1000) [0; 0; 0; 0]%nat) /\
  (exists r,
     ConditionalInstanceNormalization.call
       (ConditionalInstanceNormalization.load_weights toggles_off
          (constant_table 1) (constant_table 3))
       batch_a = Ok r /\
     get r [0; 0; 0; 0]%nat
       = standardized batch_a 3 (1 / 1000) [0; 0; 0; 0]%nat + 3 /\
     get r [0; 0; 0; 0]%nat
       <> standardized batch_a 3 (1 / 1000) [0; 0; 0; 0]%nat).
Proof.
  split; [reflexivity|]. split; [reflexivity|]. split; [reflexivity|].
  assert (Hin : in_bounds ([0; 0; 0] ++ [0])%nat (shape batch_a))
    by (cbn; repeat split; lia).
  pose proof (@standardized_batch_a (1 / 1000)) as Ha.
  split.
  - destruct (@cond_call_last_axis R _
                (ConditionalInstanceNormalization.load_weights toggles_off
                   (constant_table 2) (constant_table 0))
                batch_a [2; 1; 1]%nat 1%nat [tfc.fone]
                (constant_table 2) (constant_table 0))
      as (r & Hr & _ & Hget);
      try reflexivity; try (left; reflexivity).
    exists r. split; [exact Hr|].
    assert (E : get r [0; 0; 0; 0]%nat
                = standardized batch_a 3 (1 / 1000) [0; 0; 0; 0]%nat
                  * (1 / 1 * 2 + 0 / 1) + (1 / 1 * 0 + 0 / 1))
      by exact (Hget [0; 0; 0]%nat 0%nat Hin).
    rewrite E. split; lra.
  - destruct (@cond_call_last_axis R _
                (ConditionalInstanceNormalization.load_weights toggles_off
                   (constant_table 1) (constant_table 3))
                batch_a [2; 1; 1]%nat 1%nat [tfc.fone]
                (constant_table 1) (constant_table 3))
      as (r & Hr & _ & Hget);
      try reflexivity; try (left; reflexivity).
    exists r. split; [exact Hr|].
    assert (E : get r [0; 0; 0; 0]%nat
                = standardized batch_a 3 (1 / 1000) [0; 0; 0; 0]%nat
                  * (1 / 1 * 1 + 0 / 1) + (1 / 1 * 3 + 0 / 1))
      by exact (Hget [0; 0; 0]%nat 0%nat Hin).
    rewrite E. split; lra.
Qed.

Lemma C9_toggles_plain_only_witness :
  (exists r, InstanceNormalization.call plain_default batch_a = Ok r) /\
  (exists r,
     ConditionalInstanceNormalization.call
       (ConditionalInstanceNormalization.load_weights toggles_off
          (constant_table 2) (constant_table 0)) batch_a = Ok r /\
     forall sc ce,
       ConditionalInstanceNormalization.call
         (ConditionalInstanceNormalization.with_toggles
            (ConditionalInstanceNormalization.load_weights toggles_off
               (constant_table 2) (constant_table 0)) sc ce) batch_a = Ok r).
Proof.
  destruct (@C9_toggles_plain_only R _ plain_default
              (ConditionalInstanceNormalization.load_weights toggles_off
                 (constant_table 2) (constant_table 0))
              batch_a [2; 1; 1]%nat 1%nat [tfc.fone]
              (constant_table 2) (constant_table 0))
    as ((r1 & H1 & _) & (r2 & H2 & _ & H3)).
  - reflexivity.
  - left. reflexivity.
  - left. reflexivity.
  - discriminate.
  - discriminate.
  - reflexivity.
  - reflexivity.
  - reflexivity.
  - reflexivity.
  - reflexivity.
  - split; [exists r1; exact H1 | exists r2; split; [exact H2 | exact H3]].
Defined.

Lemma C10_default_axis_and_epsilon_witness :
  InstanceNormalization.axis affine_built = (-1)%Z /\
  InstanceNormalization.epsilon affine_built = 1 / 1000 /\
  ConditionalInstanceNormalization.epsilon two_styles_built = 1 / 1000 /\
  (exists r, InstanceNormalization.call affine_built batch_a = Ok r) /\
  (exists r,
     ConditionalInstanceNormalization.call two_styles_built batch_a = Ok r).
Proof.
  destruct (@C10_default_axis_and_epsilon R _ affine_args two_styles_args
              affine_built two_styles_built
              [None; Some 1; Some 1; Some 1]%Z [None; Some 1; Some 1]%Z
              batch_a [2; 1; 1]%nat 1%nat)
    as (_ & _ & (Ha & He & _ & Hce) & (r1 & H1 & _)
        & (r2 & _ & _ & _ & _ & _ & _ & H2 & _)).
  - reflexivity.
  - reflexivity.
  - reflexivity.
  - reflexivity.
  - reflexivity.
  - reflexivity.
  - reflexivity.
  - reflexivity.
  - reflexivity.
  - exists 2%Z. split; [reflexivity | lia].
  - split; [exact Ha|]. split; [exact He|]. split; [exact Hce|].
    split; [exists r1; exact H1 | exists r2; exact H2].
Defined.

End Examples.

End NormalizationFacts.

(** ** The deprocessing layer *)

Module DeprocessFacts.

Import Examples.

Section Deprocess.
Local Open Scope R_scope.
Import DeprocessStylizedImage_part_001.

(** C6 (amended): for every input tensor [x], the layer of deprocess.ts
    returns [x] unchanged whatever its mode, "sigmoid" and the default
    included; the layer of the second definition returns
    [(x + 1.0) * 127.5] elementwise in mode "tanh" (so -1 gives 0, 0 gives
    127.5 and 1 gives 255) and [x * 255] for every other mode.  All results
    have the shape of [x], and no mode is refused. *)
Theorem C6_deprocess_as_implemented (x : Tensor R) :
  (forall l : DeprocessStylizedImage.Layer,
     DeprocessStylizedImage.call l x = x) /\
  (forall l : Layer,
     activation l = Some "tanh"%string ->
     shape (call l x) = shape x /\
     (forall loc, get (call l x) loc = (get x loc + 1) * (255 / 2)) /\
     (forall loc, get x loc = -1 -> get (call l x) loc = 0) /\
     (forall loc, get x loc = 0 -> get (call l x) loc = 255 / 2) /\
     (forall loc, get x loc = 1 -> get (call l x) loc = 255)) /\
  (forall l : Layer,
     activation l <> Some "tanh"%string ->
     shape (call l x) = shape x /\
     forall loc, get (call l x) loc = get x loc * 255).
Proof.
  split; [reflexivity|]. split.
  - intros l Hact. unfold call. rewrite Hact.
    cbn [strict_equal String.eqb Ascii.eqb Bool.eqb].
    assert (Hg : forall loc,
               get (tfc.mulScalar (tfc.addScalar x (tfc.fnum 1 1))
                                  (tfc.fnum 255 2)) loc
               = (get x loc + 1) * (255 / 2)).
    { intros loc. cbn. lra. }
    split; [reflexivity|]. split; [exact Hg|].
    repeat split; intros loc Hx; rewrite Hg, Hx; lra.
  - intros l Hact. unfold call.
    assert (Hne : strict_equal (activation l) "tanh" = false).
    { unfold strict_equal. destruct (activation l) as [a|]; [|reflexivity].
      destruct (String.eqb_spec a "tanh"); [subst; congruence | reflexivity]. }
    rewrite Hne. split; [reflexivity|]. intros loc. cbn. lra.
Qed.

(** C6 (as stated, refuted): the unknown mode "relu" is not refused, the
    one layer returns its input and the other one 255 times its input; the
    second layer is not the identity in mode "sigmoid", and the first one
    does not rescale in mode "tanh". *)
Lemma C6_unknown_mode_returns_a_tensor :
  DeprocessStylizedImage.call
    (DeprocessStylizedImage.constructor (Some (Some "relu"%string)))
    one_pixel = one_pixel /\
  get (call (constructor (Some (Some "relu"%string))) one_pixel) [0%nat]
    = 255 /\
  get (call (constructor (Some (Some "sigmoid"%string))) one_pixel) [0%nat]
    <> get one_pixel [0%nat] /\
  get (DeprocessStylizedImage.call
         (DeprocessStylizedImage.constructor (Some (Some "tanh"%string)))
         one_pixel) [0%nat]
    <> (get one_pixel [0%nat] + 1) * (255 / 2).
Proof.
  split; [reflexivity|]. split; [cbn; lra|]. split; cbn; lra.
Qed.

Lemma C6_deprocess_as_implemented_witness :
  get (call (constructor (Some (Some "tanh"%string))) one_pixel) [0%nat]
  = 255.
Proof.
  destruct (C6_deprocess_as_implemented one_pixel) as (_ & Ht & _).
  destruct (Ht (constructor (Some (Some "tanh"%string))) eq_refl)
    as (_ & _ & _ & _ & H1).
  apply H1. reflexivity.
Defined.

End Deprocess.

End DeprocessFacts.

(** ** The reflection-padding layer: construction, failure and shapes *)

Module PaddingLayerFacts.

Import ReflectionPadding.
Import ReflectionPaddingFacts.
Import Examples.

(** X1: the constructor refuses a padding option only with a [ValueError],
    and only when it is an array that does not hold two entries, or a nested
    array one of whose inner arrays does not hold two entries.  Otherwise it
    keeps [dim_ordering] ("default" when absent) and stores the margins
    [[1,1],[1,1]] for no option, [[p,p],[p,p]] for a number [p],
    [[h,h],[w,w]] for a pair [h, w], and a nested array as it is. *)
Theorem constructor_refuses_only_arrays_of_the_wrong_length
    (arg : option PaddingArg) (d : option string) :
  match constructor (Some (mkArgs arg d)) with
  | Err e =>
      e = ValueError /\
      ((exists l, arg = Some (PadPair l) /\ length l <> 2) \/
       (exists l, arg = Some (PadNested l) /\
                  (length l <> 2 \/ exists q, In q l /\ length q <> 2)))
  | Ok lay =>
      dim_ordering lay
        = match d with Some s => s | None => "default"%string end /\
      match arg with
      | None => padding lay = ((1, 1), (1, 1))%Z
      | Some (PadNumber p) => padding lay = ((p, p), (p, p))
      | Some (PadPair l) =>
          length l = 2 /\
          padding lay = ((nth 0 l 0, nth 0 l 0), (nth 1 l 0, nth 1 l 0))%Z
      | Some (PadNested l) =>
          length l = 2 /\ (forall q, In q l -> length q = 2) /\
          padding lay =
            ((nth 0 (nth 0 l []) 0, nth 1 (nth 0 l []) 0),
             (nth 0 (nth 1 l []) 0, nth 1 (nth 1 l []) 0))%Z
      end
  end.
Proof.
  unfold constructor. cbn [args_padding args_dim_ordering].
  destruct arg as [[p | l | l] |].
  - split; reflexivity.
  - destruct l as [|h [|w [|? ?]]]; cbn.
    + split; [reflexivity|]. left. exists [].
      split; [reflexivity | cbn; lia].
    + split; [reflexivity|]. left. eexists.
      split; [reflexivity | cbn; lia].
    + repeat split.
    + split; [reflexivity|]. left. eexists.
      split; [reflexivity | cbn; lia].
  - destruct l as [|hp [|wp [|? ?]]].
    + split; [reflexivity|]. right. exists [].
      split; [reflexivity|]. left. cbn; lia.
    + split; [reflexivity|]. right. eexists.
      split; [reflexivity|]. left. cbn; lia.
    + destruct hp as [|t [|b [|? ?]]];
        try (split; [reflexivity|]; right; eexists; split; [reflexivity|];
             right; eexists; split; [left; reflexivity | cbn; lia]).
      destruct wp as [|lf [|rt [|? ?]]];
        try (split; [reflexivity|]; right; eexists; split; [reflexivity|];
             right; eexists; split; [right; left; reflexivity | cbn; lia]).
      cbn. repeat split.
      intros q [<- | [<- | []]]; reflexivity.
    + split; [reflexivity|]. right. eexists.
      split; [reflexivity|]. left. cbn; lia.
  - split; reflexivity.
Qed.

(** The indices of the three loops, against the axes they index. *)
Lemma gather_indices_within_the_axes (H W : nat) (p : Z) :
  let n := Z.to_nat p in
  ((forall i, In i (rightIndex (Z.of_nat W) p) ->
              (0 <= i < Z.of_nat W)%Z) /\
   (forall i, In i (leftTopIndex p) ->
              (0 <= i < Z.of_nat W)%Z /\ (0 <= i < Z.of_nat H)%Z)
   <-> n <= Nat.min H W) /\
  (forall i, In i (bottomIndex (Z.of_nat H) p) ->
             (0 <= i < Z.of_nat (H + n))%Z).
Proof.
  intros n. split; [split|].
  - intros (_ & Hl).
    destruct (Nat.le_gt_cases n (Nat.min H W)) as [Hle | Hgt]; [exact Hle|].
    assert (Hin : In (p - 1 - Z.of_nat 0)%Z (leftTopIndex p)).
    { rewrite <- (@nth_leftTopIndex p 0) by (fold n; lia).
      apply nth_In. rewrite leftTopIndex_length. fold n. lia. }
    apply Hl in Hin. subst n. lia.
  - intros Hle. split; intros i Hin.
    + unfold rightIndex in Hin. apply in_map_iff in Hin.
      destruct Hin as (j & <- & Hj). apply In_count_from in Hj.
      fold n in Hj. lia.
    + unfold leftTopIndex in Hin. apply in_rev, In_count_from in Hin.
      fold n in Hin. lia.
  - intros i Hin. unfold bottomIndex in Hin. apply in_map_iff in Hin.
    destruct Hin as (j & <- & Hj). apply In_count_from in Hj.
    fold n in Hj. subst n. lia.
Qed.

Section Pad.
Context {A : Type}.

(** X2: the index lists [reflection2dPadding] hands to [gather] lie
    within the axes they are used on exactly when the margin
    [padding[0][0]] (a negative one counting as 0) is at most [min H W];
    the bottom indices always do.  For such a margin every [gather] reads
    inside its input and the padding returns a tensor of shape
    [B, H + 2n, W + 2n, C].  For a larger margin [n] the left and top
    indices hold [n - 1], which is no index of the shorter of the two
    axes. *)
Theorem gather_reads_inside_the_input_iff_the_margin_fits
    (x : Tensor A) (B H W C : nat) (pad : Padding) :
  let p := fst (fst pad) in
  let n := Z.to_nat p in
  shape x = [B; H; W; C] ->
  ((forall i, In i (rightIndex (Z.of_nat (nth 2 (shape x) 0)) p) ->
              (0 <= i < Z.of_nat W)%Z) /\
   (forall i, In i (leftTopIndex p) ->
              (0 <= i < Z.of_nat W)%Z /\ (0 <= i < Z.of_nat H)%Z)
   <-> n <= Nat.min H W) /\
  (forall i, In i (bottomIndex (Z.of_nat (nth 1 (shape x) 0)) p) ->
             (0 <= i < Z.of_nat (H + n))%Z) /\
  (Nat.min H W < n ->
   In (Z.of_nat n - 1)%Z (leftTopIndex p) /\
   (Z.of_nat (Nat.min H W) <= Z.of_nat n - 1)%Z) /\
  (n <= Nat.min H W ->
   exists r, reflection2dPadding x pad = Ok r /\
             shape r = [B; H + 2 * n; W + 2 * n; C]).
Proof.
  intros p n Hs. rewrite Hs. cbn [nth].
  destruct (gather_indices_within_the_axes H W p) as (Hiff & Hbottom).
  split; [exact Hiff|]. split; [exact Hbottom|]. split.
  - intros Hgt. split; [|lia].
    replace (Z.of_nat n - 1)%Z with (p - 1 - Z.of_nat 0)%Z
      by (subst n; lia).
    rewrite <- (@nth_leftTopIndex p 0) by (fold n; lia).
    apply nth_In. rewrite leftTopIndex_length. fold n. lia.
  - intros Hle.
    destruct (@pad_general A x B H W C pad Hs) as (r & Hr & Hshape & _);
      try (fold p; fold n; lia).
    exists r. split; [exact Hr | exact Hshape].
Qed.

(** X3: the padded tensor holds the input unchanged in its middle: with
    the margin [n] that fits, the output element at row [n + i], column
    [n + j] is the input element at row [i], column [j], so cropping [n]
    elements from every side gives the input back. *)
Theorem padding_keeps_the_input_in_the_middle
    (x : Tensor A) (B H W C : nat) (pad : Padding) :
  let n := Z.to_nat (fst (fst pad)) in
  shape x = [B; H; W; C] ->
  n <= Nat.min H W ->
  exists r,
    reflection2dPadding x pad = Ok r /\
    forall b i j c, b < B -> i < H -> j < W -> c < C ->
      get r [b; n + i; n + j; c] = get x [b; i; j; c].
Proof.
  intros n Hs Hn.
  destruct (@pad_general A x B H W C pad Hs) as (r & Hr & Hshape & Hget);
    try (fold n; lia).
  fold n in Hshape, Hget.
  exists r. split; [exact Hr|].
  intros b i j c Hb Hi Hj Hc.
  rewrite Hget by (rewrite Hshape; cbn; lia).
  replace (src_index mirror (n + i) (Z.of_nat n) H) with i by idx.
  replace (src_index mirror (n + j) (Z.of_nat n) W) with j by idx.
  reflexivity.
Qed.

(** X4: for a layer whose top margin fits the input, the shape the forward
    call returns is the one [computeOutputShape] announces if and only if
    the bottom margin equals the top margin and the left and right margins
    add up to twice the top margin. *)
Theorem call_and_computeOutputShape_agree_iff
    (l : ReflectionPadding2D) (x : Tensor A) (B H W C : nat) :
  let top := fst (fst (padding l)) in
  let bottom := snd (fst (padding l)) in
  let left := fst (snd (padding l)) in
  let right := snd (snd (padding l)) in
  shape x = [B; H; W; C] ->
  (0 <= top <= Z.of_nat (Nat.min H W))%Z ->
  exists r,
    call l x = Ok r /\
    (known (shape r) = computeOutputShape l (known (shape x)) <->
     bottom = top /\ (left + right = 2 * top)%Z).
Proof.
  intros top bottom left right Hs Hp.
  destruct (@pad_explicit A x B H W C top (padding l) Hs eq_refl)
    as (r & Hr & Hshape & _); try lia.
  exists r. split; [exact Hr|].
  rewrite Hshape, Hs. unfold computeOutputShape, known.
  cbn [map nth].
  replace (0 <=? Z.of_nat H)%Z with true by (symmetry; apply Z.leb_le; lia).
  replace (0 <=? Z.of_nat W)%Z with true by (symmetry; apply Z.leb_le; lia).
  fold top bottom left right.
  split.
  - intros E. injection E as E1 E2. lia.
  - intros (E1 & E2). repeat (f_equal; try lia).
Qed.

(** X25: the padded tensor is symmetric about each of the four borders of
    the input: with the margin [n] the code applies, row [n-1-k] repeats
    row [n+k] and row [n+H+k] repeats row [n+H-1-k], and the same holds for
    the columns, for every [k < n]. *)
Theorem padding_mirrors_about_every_border
    (x : Tensor A) (B H W C : nat) (pad : Padding) :
  let n := Z.to_nat (fst (fst pad)) in
  shape x = [B; H; W; C] ->
  n <= Nat.min H W ->
  exists r,
    reflection2dPadding x pad = Ok r /\
    forall b i j c k,
      b < B -> c < C -> k < n -> i < H + 2 * n -> j < W + 2 * n ->
      get r [b; n - 1 - k; j; c] = get r [b; n + k; j; c] /\
      get r [b; n + H + k; j; c] = get r [b; n + H - 1 - k; j; c] /\
      get r [b; i; n - 1 - k; c] = get r [b; i; n + k; c] /\
      get r [b; i; n + W + k; c] = get r [b; i; n + W - 1 - k; c].
Proof.
  intros n Hs Hn.
  destruct (@pad_general A x B H W C pad Hs) as (r & Hr & Hshape & Hget);
    try (fold n; lia).
  fold n in Hshape, Hget.
  exists r. split; [exact Hr|].
  intros b i j c k Hb Hc Hk Hi Hj.
  rewrite !Hget by (rewrite Hshape; cbn; lia).
  repeat split.
  - replace (src_index mirror (n - 1 - k) (Z.of_nat n) H)
      with (src_index mirror (n + k) (Z.of_nat n) H) by idx.
    reflexivity.
  - replace (src_index mirror (n + H + k) (Z.of_nat n) H)
      with (src_index mirror (n + H - 1 - k) (Z.of_nat n) H) by idx.
    reflexivity.
  - replace (src_index mirror (n - 1 - k) (Z.of_nat n) W)
      with (src_index mirror (n + k) (Z.of_nat n) W) by idx.
    reflexivity.
  - replace (src_index mirror (n + W + k) (Z.of_nat n) W)
      with (src_index mirror (n + W - 1 - k) (Z.of_nat n) W) by idx.
    reflexivity.
Qed.

End Pad.

Lemma padding_mirrors_about_every_border_witness :
  exists r,
    reflection2dPadding x33 ((2, 2), (2, 2))%Z = Ok r /\
    get r [0; 2 - 1 - 1; 3; 0] = get r [0; 2 + 1; 3; 0] /\
    get r [0; 3; 2 + 3 + 1; 0] = get r [0; 3; 2 + 3 - 1 - 1; 0].
Proof.
  destruct (@padding_mirrors_about_every_border Z x33 1 3 3 1
              ((2, 2), (2, 2))%Z eq_refl) as (r & Hr & Hsym);
    [cbn; lia|].
  exists r. split; [exact Hr|].
  assert (H1 : 0 < 1) by lia. assert (H2 : 1 < 2) by lia.
  assert (H3 : 3 < 3 + 2 * 2) by lia.
  destruct (Hsym 0 3 3 0 1 H1 H1 H2 H3 H3) as (Hrow & _ & _ & Hcol).
  split; [exact Hrow | exact Hcol].
Defined.

Lemma gather_reads_inside_the_input_iff_the_margin_fits_witness :
  (In 2%Z (leftTopIndex 3) /\ (2 <= 2)%Z) /\
  exists r, reflection2dPadding x23 ((2, 2), (2, 2))%Z = Ok r /\
            shape r = [1; 6; 7; 1].
Proof.
  split.
  - apply (proj1 (proj2 (proj2
             (@gather_reads_inside_the_input_iff_the_margin_fits Z x23
                1 2 3 1 ((3, 3), (3, 3))%Z eq_refl)))).
    cbn. lia.
  - apply (proj2 (proj2 (proj2
             (@gather_reads_inside_the_input_iff_the_margin_fits Z x23
                1 2 3 1 ((2, 2), (2, 2))%Z eq_refl)))).
    cbn. lia.
Defined.

Lemma padding_keeps_the_input_in_the_middle_witness :
  exists r,
    reflection2dPadding x23 ((1, 1), (1, 1))%Z = Ok r /\
    forall b i j c, b < 1 -> i < 2 -> j < 3 -> c < 1 ->
      get r [b; 1 + i; 1 + j; c] = get x23 [b; i; j; c].
Proof.
  apply (@padding_keeps_the_input_in_the_middle Z x23 1 2 3 1
           ((1, 1), (1, 1))%Z).
  - reflexivity.
  - cbn. lia.
Defined.

Lemma call_and_computeOutputShape_agree_iff_witness :
  exists r,
    call pad_by_1 x44 = Ok r /\
    (known (shape r) = computeOutputShape pad_by_1 (known (shape x44)) <->
     1%Z = 1%Z /\ (1 + 1 = 2 * 1)%Z).
Proof.
  apply (@call_and_computeOutputShape_agree_iff Z pad_by_1 x44 1 4 4 1).
  - reflexivity.
  - cbn. lia.
Defined.

End PaddingLayerFacts.

(** ** [temporalPadding] *)

Module TemporalPaddingFacts.

Import ReflectionPadding.
Import Examples.

Section Temporal.
Context {F : Type} `{tfc.Arith F}.

(** X5: [temporalPadding] refuses every tensor whose rank is not 3 and,
    for a rank-3 tensor, every padding that does not hold two numbers, both
    with a [ValueError]; a missing padding stands for [1, 1]. *)
Theorem temporalPadding_refuses_other_ranks_and_lengths (x : Tensor F) :
  (rank x <> 3 ->
   forall padding, temporalPadding x padding = Err ValueError) /\
  (forall l, length l <> 2 ->
             temporalPadding x (Some l) = Err ValueError) /\
  temporalPadding x None = temporalPadding x (Some [1; 1]%Z).
Proof.
  split; [|split].
  - intros Hr padding. unfold temporalPadding.
    destruct (Nat.eqb_spec (rank x) 3); [contradiction | reflexivity].
  - intros l Hl. unfold temporalPadding.
    destruct (negb (rank x =? 3)); [reflexivity|].
    destruct l as [|p0 [|p1 [|? ?]]]; cbn in Hl; try reflexivity; lia.
  - reflexivity.
Qed.

(** X6: for a rank-3 tensor of shape [B, T, C] and amounts [p], [q] that
    are not negative, [temporalPadding] returns a tensor of shape
    [B, p + T + q, C] that holds 0 in the first [p] and the last [q]
    positions of the middle dimension and the input, moved by [p], in
    between; the first and the last dimension are not padded. *)
Theorem temporalPadding_puts_zeros_around_the_middle_dimension
    (x : Tensor F) (B T C : nat) (p q : Z) :
  shape x = [B; T; C] -> (0 <= p)%Z -> (0 <= q)%Z ->
  exists r,
    temporalPadding x (Some [p; q]) = Ok r /\
    shape r = [B; Z.to_nat p + T + Z.to_nat q; C] /\
    forall b t c, b < B -> c < C ->
      (t < Z.to_nat p -> get r [b; t; c] = tfc.fzero) /\
      (t < T -> get r [b; Z.to_nat p + t; c] = get x [b; t; c]) /\
      (Z.to_nat p + T <= t -> get r [b; t; c] = tfc.fzero).
Proof.
  intros Hs Hp Hq.
  unfold temporalPadding, tfc.pad, rank. rewrite Hs.
  cbn [length Nat.eqb negb forallb fst snd andb].
  replace (0 <=? 0)%Z with true by reflexivity.
  replace (0 <=? p)%Z with true by (symmetry; apply Z.leb_le; lia).
  replace (0 <=? q)%Z with true by (symmetry; apply Z.leb_le; lia).
  cbn [andb].
  eexists. split; [reflexivity|]. split.
  - cbn [shape tfc.pad_shape]. change (Z.to_nat 0) with 0.
    cbn [Nat.add]. rewrite !Nat.add_0_r. reflexivity.
  - intros b t c Hb Hc. cbn [get tfc.pad_source].
    change (Z.to_nat 0) with 0. cbn [Nat.leb Nat.add].
    replace (b <? B) with true by (symmetry; apply Nat.ltb_lt; lia).
    replace (c <? C) with true by (symmetry; apply Nat.ltb_lt; lia).
    cbn [andb].
    repeat split.
    + intros Ht.
      replace (Z.to_nat p <=? t) with false
        by (symmetry; apply Nat.leb_gt; lia).
      reflexivity.
    + intros Ht.
      replace (Z.to_nat p <=? Z.to_nat p + t) with true
        by (symmetry; apply Nat.leb_le; lia).
      replace (Z.to_nat p + t <? Z.to_nat p + T) with true
        by (symmetry; apply Nat.ltb_lt; lia).
      cbn [andb option_map].
      replace (Z.to_nat p + t - Z.to_nat p) with t by lia.
      rewrite !Nat.sub_0_r. reflexivity.
    + intros Ht.
      replace (t <? Z.to_nat p + T) with false
        by (symmetry; apply Nat.ltb_ge; lia).
      rewrite andb_false_r. reflexivity.
Qed.

End Temporal.

Lemma temporalPadding_puts_zeros_around_the_middle_dimension_witness :
  exists r,
    temporalPadding steps (Some [1; 2]%Z) = Ok r /\
    shape r = [1; 5; 1] /\
    get r [0; 0; 0] = tfc.fzero /\ get r [0; 1; 0] = 3%R /\
    get r [0; 2; 0] = 4%R /\ get r [0; 4; 0] = tfc.fzero.
Proof.
  destruct (@temporalPadding_puts_zeros_around_the_middle_dimension
              R _ steps 1 2 1 1%Z 2%Z)
    as (r & Hr & Hshape & Hget); [reflexivity | lia | lia |].
  exists r. split; [exact Hr|]. split; [exact Hshape|].
  split; [apply (proj1 (Hget 0 0 0 (le_n 1) (le_n 1))); cbn; lia|].
  split; [apply (proj1 (proj2 (Hget 0 0 0 (le_n 1) (le_n 1)))); lia|].
  split; [apply (proj1 (proj2 (Hget 0 1 0 (le_n 1) (le_n 1)))); lia|].
  apply (proj2 (proj2 (Hget 0 4 0 (le_n 1) (le_n 1)))). cbn; lia.
Defined.

End TemporalPaddingFacts.

(** ** Reflection padding on nested arrays *)

Module ArrayPaddingFacts.

Import ReflectionPadding.
Import ReflectionPadding_part_000.
Import ReflectionPaddingFacts.
Import Examples.

Section Arrays.
Context {X : Type}.

(** The loop puts the first entries of the original array, last one
    first, in front of the array and its last entries, last one first,
    behind it. *)
Lemma push_unshift_closed (orig : list X) (len : Z) :
  forall rounds j item,
    push_unshift orig len (Z.of_nat j) rounds item =
    map (fun k => js_index orig (Z.of_nat k)) (rev (seq j rounds))
    ++ item
    ++ map (fun k => js_index orig (len - (Z.of_nat k + 1))%Z)
           (seq j rounds).
Proof.
  induction rounds as [|rounds IH]; intros j item.
  - cbn. rewrite app_nil_r. reflexivity.
  - cbn [push_unshift]. rewrite Z.add_0_l.
    replace (push_unshift orig len (Z.of_nat j + 1))
      with (push_unshift orig len (Z.of_nat (S j))) by (f_equal; lia).
    rewrite IH. cbn [seq rev map]. rewrite map_app. cbn [map].
    rewrite <- !app_assoc. cbn [app]. rewrite <- !app_assoc. cbn [app].
    reflexivity.
Qed.

Lemma length_mirror_array (num : Z) (item : list X) :
  length (mirror_array num item) = length item + 2 * Z.to_nat num.
Proof.
  unfold mirror_array. rewrite (push_unshift_closed item _ _ 0).
  rewrite !length_app, !length_map, length_rev, length_seq. lia.
Qed.

Lemma map_rev_seq {Y} (f : nat -> Y) (n : nat) :
  map f (rev (seq 0 n)) = map (fun k => f (n - 1 - k)) (seq 0 n).
Proof.
  apply nth_error_ext. intros k.
  rewrite !nth_error_map, nth_error_rev, length_seq, !nth_error_seq.
  destruct (Nat.ltb_spec k n) as [Hk | Hk]; [|reflexivity].
  destruct (Nat.ltb_spec (n - S k) n) as [Hk' | Hk']; [|lia].
  cbn. f_equal. f_equal. lia.
Qed.

Lemma map_seq_from {Y} (f : nat -> Y) (a n : nat) :
  map f (seq a n) = map (fun k => f (a + k)) (seq 0 n).
Proof.
  apply nth_error_ext. intros k.
  rewrite !nth_error_map, !nth_error_seq.
  destruct (k <? n); reflexivity.
Qed.

(** With a margin that fits, entry [k] of the mirrored array is the
    entry of the original array at the mirrored index. *)
Lemma mirror_array_map_seq (f : nat -> X) (W : nat) (num : Z) :
  let n := Z.to_nat num in
  n <= W ->
  mirror_array num (map f (seq 0 W)) =
  map (fun k => Some (f (src_index mirror k (Z.of_nat n) W)))
      (seq 0 (W + 2 * n)).
Proof.
  intros n Hn. unfold mirror_array.
  rewrite (push_unshift_closed _ _ _ 0). fold n.
  rewrite length_map, length_seq.
  replace (W + 2 * n) with (n + (W + n)) by lia.
  rewrite seq_app, map_app. cbn [Nat.add].
  rewrite seq_app, map_app.
  f_equal; [|f_equal].
  - rewrite map_rev_seq. apply map_ext_in. intros k Hk. apply in_seq in Hk.
    unfold js_index.
    replace (Z.of_nat (n - 1 - k) <? 0)%Z with false
      by (symmetry; apply Z.ltb_ge; lia).
    rewrite Nat2Z.id, nth_error_map, nth_error_seq.
    replace (n - 1 - k <? W) with true by (symmetry; apply Nat.ltb_lt; lia).
    cbn. f_equal. f_equal. idx.
  - rewrite map_map.
    rewrite (map_seq_from _ n W).
    apply map_ext_in. intros k Hk. apply in_seq in Hk.
    f_equal. f_equal. idx.
  - rewrite (map_seq_from _ (n + W) n).
    apply map_ext_in. intros k Hk. apply in_seq in Hk.
    unfold js_index.
    replace (Z.of_nat W - (Z.of_nat k + 1) <? 0)%Z with false
      by (symmetry; apply Z.ltb_ge; lia).
    rewrite nth_error_map, nth_error_seq.
    replace (Z.to_nat (Z.of_nat W - (Z.of_nat k + 1)) <? W) with true
      by (symmetry; apply Nat.ltb_lt; lia).
    cbn. f_equal. f_equal. idx.
Qed.

(** X7: the [push]/[unshift] loop never fails: on an array of [len]
    entries and a margin [num] it leaves an array of [len + 2 max(num, 0)]
    entries, and that array holds an [undefined] entry exactly when the
    margin exceeds [len]. *)
Theorem mirror_array_length_and_holes (num : Z) (item : list X) :
  length (mirror_array num item) = length item + 2 * Z.to_nat num /\
  (In None (mirror_array num item) <-> length item < Z.to_nat num).
Proof.
  split; [apply length_mirror_array|].
  unfold mirror_array. rewrite (push_unshift_closed item _ _ 0).
  rewrite !in_app_iff, !in_map_iff. split.
  - intros [(k & Hk & Hin) | [(v & Hv & _) | (k & Hk & Hin)]].
    + apply in_rev, in_seq in Hin. unfold js_index in Hk.
      replace (Z.of_nat k <? 0)%Z with false in Hk
        by (symmetry; apply Z.ltb_ge; lia).
      apply nth_error_None in Hk. lia.
    + discriminate Hv.
    + apply in_seq in Hin. unfold js_index in Hk.
      destruct (Z.ltb_spec (Z.of_nat (length item) - (Z.of_nat k + 1)) 0)
        as [Hneg | Hpos]; [lia|].
      apply nth_error_None in Hk. lia.
  - intros Hlt. left. exists (length item). split.
    + unfold js_index.
      replace (Z.of_nat (length item) <? 0)%Z with false
        by (symmetry; apply Z.ltb_ge; lia).
      apply nth_error_None. lia.
    + apply -> in_rev. apply in_seq. lia.
Qed.

End Arrays.

Section Pad.
Context {A : Type}.

Lemma sizeFromShape4 (B H W C : nat) :
  sizeFromShape [B; H; W; C] = B * (H * (W * C)).
Proof. unfold sizeFromShape. cbn. lia. Qed.

(** X8: on one image that is not empty and with a margin that fits, the
    two definitions of [reflection2dPadding] agree: the array the second
    one hands to [tfc.tensor4d] is the nested array of the tensor the
    first one returns, without any hole. *)
Theorem both_definitions_agree_on_one_image
    (x : Tensor A) (H W C : nat) (pad : Padding) :
  shape x = [1; H; W; C] ->
  0 < H -> 0 < W -> 0 < C ->
  Z.to_nat (fst (fst pad)) <= Nat.min H W ->
  exists r arr,
    ReflectionPadding.reflection2dPadding x pad = Ok r /\
    arraySync r = Some arr /\
    ReflectionPadding_part_000.reflection2dPadding x pad
      = Ok (map full_image arr).
Proof.
  intros Hs HH HW HC Hn.
  destruct (@pad_general A x 1 H W C pad Hs) as (r & Hr & Hshape & Hget);
    try lia.
  set (n := Z.to_nat (fst (fst pad))) in *.
  exists r. eexists. split; [exact Hr|].
  unfold ReflectionPadding_part_000.reflection2dPadding, arraySync.
  rewrite Hshape, Hs, !sizeFromShape4.
  destruct (Nat.eqb_spec (1 * ((H + 2 * n) * ((W + 2 * n) * C))) 0) as [E|_];
    [nia|].
  destruct (Nat.eqb_spec (1 * (H * (W * C))) 0) as [E|_]; [nia|].
  split; [reflexivity|].
  cbn [seq map]. f_equal. f_equal.
  rewrite map_map.
  erewrite map_ext
    by (intros i; apply (mirror_array_map_seq
                           (fun j => map (fun c => get x [0; i; j; c])
                                         (seq 0 C)));
        fold n; lia).
  fold n.
  rewrite (mirror_array_map_seq
             (fun i => map (fun k => Some (map (fun c =>
                        get x [0; i; src_index mirror k (Z.of_nat n) W; c])
                        (seq 0 C))) (seq 0 (W + 2 * n)))) by (fold n; lia).
  fold n. unfold full_image. rewrite map_map.
  apply map_ext_in. intros i Hi. apply in_seq in Hi.
  f_equal. rewrite map_map.
  apply map_ext_in. intros j Hj. apply in_seq in Hj.
  f_equal.
  apply map_ext_in. intros c Hc. apply in_seq in Hc.
  symmetry. apply Hget. rewrite Hshape. cbn. lia.
Qed.

(** X9: the second definition pads the first sample of a batch only: of a
    batch of [B + 1] images that are not empty, the first image comes out
    with [H + 2 max(num, 0)] rows and every other image as it went in, with
    its H rows. *)
Theorem only_the_first_sample_is_padded
    (x : Tensor A) (B H W C : nat) (pad : Padding) :
  shape x = [S B; H; W; C] ->
  0 < H -> 0 < W -> 0 < C ->
  exists first rest first',
    arraySync x = Some (first :: rest) /\
    ReflectionPadding_part_000.reflection2dPadding x pad
      = Ok (first' :: map full_image rest) /\
    length rest = B /\
    length first' = H + 2 * Z.to_nat (fst (fst pad)) /\
    (forall img, In img (map full_image rest) -> length img = H).
Proof.
  intros Hs HH HW HC.
  unfold ReflectionPadding_part_000.reflection2dPadding, arraySync.
  rewrite Hs, sizeFromShape4.
  destruct (Nat.eqb_spec (S B * (H * (W * C))) 0) as [E|_]; [nia|].
  cbn [seq map].
  eexists. eexists. eexists. split; [reflexivity|].
  split; [reflexivity|]. split; [|split].
  - rewrite length_map, length_seq. reflexivity.
  - rewrite length_mirror_array, !length_map, length_seq. reflexivity.
  - intros img Himg. apply in_map_iff in Himg.
    destruct Himg as (i & <- & Hi). apply in_map_iff in Hi.
    destruct Hi as (b & <- & _).
    unfold full_image. rewrite !length_map, length_seq. reflexivity.
Qed.

(** X10: on a rank-4 tensor without elements the second definition fails
    with a [TypeError], whatever the margin, where the first definition
    returns a tensor for every margin that fits. *)
Theorem the_array_version_fails_on_a_tensor_without_elements
    (x : Tensor A) (B H W C : nat) (pad : Padding) :
  shape x = [B; H; W; C] ->
  B = 0 \/ H = 0 \/ W = 0 \/ C = 0 ->
  ReflectionPadding_part_000.reflection2dPadding x pad = Err TypeError /\
  (Z.to_nat (fst (fst pad)) <= Nat.min H W ->
   exists r, ReflectionPadding.reflection2dPadding x pad = Ok r).
Proof.
  intros Hs Hz. split.
  - unfold ReflectionPadding_part_000.reflection2dPadding, arraySync.
    rewrite Hs, sizeFromShape4.
    destruct (Nat.eqb_spec (B * (H * (W * C))) 0) as [_|E]; [reflexivity|].
    exfalso. apply E. destruct Hz as [-> | [-> | [-> | ->]]]; lia.
  - intros Hn.
    destruct (@pad_general A x B H W C pad Hs) as (r & Hr & _); try lia.
    exists r. exact Hr.
Qed.

End Pad.

Lemma both_definitions_agree_on_one_image_witness :
  exists r arr,
    ReflectionPadding.reflection2dPadding x23 ((1, 1), (1, 1))%Z = Ok r /\
    arraySync r = Some arr /\
    ReflectionPadding_part_000.reflection2dPadding x23 ((1, 1), (1, 1))%Z
      = Ok (map full_image arr).
Proof.
  apply (@both_definitions_agree_on_one_image Z x23 2 3 1
           ((1, 1), (1, 1))%Z).
  - reflexivity.
  - lia.
  - lia.
  - lia.
  - cbn. lia.
Defined.

Lemma only_the_first_sample_is_padded_witness :
  exists first rest first',
    arraySync batch_a = Some (first :: rest) /\
    ReflectionPadding_part_000.reflection2dPadding batch_a
      ((1, 1), (1, 1))%Z = Ok (first' :: map full_image rest) /\
    length rest = 1 /\
    length first' = 3 /\
    (forall img, In img (map full_image rest) -> length img = 1).
Proof.
  apply (@only_the_first_sample_is_padded R batch_a 1 1 1 1
           ((1, 1), (1, 1))%Z).
  - reflexivity.
  - lia.
  - lia.
  - lia.
Defined.

Lemma the_array_version_fails_on_a_tensor_without_elements_witness :
  ReflectionPadding_part_000.reflection2dPadding no_sample
    ((1, 1), (1, 1))%Z = Err TypeError /\
  exists r,
    ReflectionPadding.reflection2dPadding no_sample ((1, 1), (1, 1))%Z
    = Ok r.
Proof.
  destruct (@the_array_version_fails_on_a_tensor_without_elements Z
              no_sample 0 2 3 1 ((1, 1), (1, 1))%Z eq_refl
              (or_introl eq_refl)) as (Hfail & Hok).
  split; [exact Hfail|]. apply Hok. cbn. lia.
Defined.

End ArrayPaddingFacts.

(** ** The normalization layers: build, call and what the output depends on *)

Module LayerLifecycleFacts.

Import Statistics.
Import TensorFacts.
Import NormalizationFacts.
Import Examples.

Lemma known_snoc (s : list nat) (C : nat) :
  known (s ++ [C]) = known s ++ [Some (Z.of_nat C)].
Proof. unfold known. rewrite map_app. reflexivity. Qed.

Lemma length_known (s : list nat) : length (known s) = length s.
Proof. unfold known. apply length_map. Qed.

Lemma in_bounds_size_pos (loc : list nat) :
  forall s, in_bounds loc s -> 0 < sizeFromShape s.
Proof.
  induction loc as [|i loc IH]; intros [|d s] Hin; cbn in Hin; try tauto.
  - cbn. lia.
  - destruct Hin as (Hi & Hin). apply IH in Hin.
    unfold sizeFromShape in *. cbn [fold_right]. nia.
Qed.

Section Generic.
Context {F : Type} `{tfc.Arith F}.

Lemma axis_values_snoc (x : Tensor F) (s : list nat) (C c : nat) :
  shape x = s ++ [C] ->
  axis_values x (length s) c = map (fun rest => get x (rest ++ [c])) (locs s).
Proof.
  intros Hs. unfold axis_values. rewrite Hs, remove_nth_last.
  apply map_ext_in. intros rest Hin.
  apply in_locs, in_bounds_length in Hin. rewrite <- Hin, insert_nth_last.
  reflexivity.
Qed.

(** *** The plain layer *)

Lemma plain_build_channel_last (l : @InstanceNormalization.Layer F)
    (s : list nat) (C : nat) :
  InstanceNormalization.axis l = (-1)%Z \/
  InstanceNormalization.axis l = Z.of_nat (length s) ->
  InstanceNormalization.build l (known (s ++ [C])) =
  Ok (InstanceNormalization.mkLayer
        (InstanceNormalization.axis l) (InstanceNormalization.epsilon l)
        (InstanceNormalization.center l) (InstanceNormalization.scale l)
        (if truthy (InstanceNormalization.scale l)
         then Some (tfc.ones [C]) else None)
        (if truthy (InstanceNormalization.center l)
         then Some (tfc.zeros [C]) else None)).
Proof.
  intros Hax.
  unfold InstanceNormalization.build, InstanceNormalization.resolve_axis.
  cbv zeta. rewrite length_known, (@resolve_last_axis _ s C Hax).
  replace (Z.of_nat (length s) <? 0)%Z with false
    by (symmetry; apply Z.ltb_ge; lia).
  rewrite Nat2Z.id, known_snoc, <- (length_known s), nth_shape_last.
  rewrite Nat2Z.id. reflexivity.
Qed.

(** X11: [build] of the plain layer fails only with a [ValueError], and
    exactly when the resolved channel axis lies outside the input shape or
    the shape holds [null] there.  When it succeeds it leaves axis, epsilon
    and the two options as they were and creates [gamma], all ones, if and
    only if [scale] is enabled and [beta], all zeros, if and only if
    [center] is enabled, each of the length of the channel dimension. *)
Theorem build_needs_a_known_channel_dimension
    (l : @InstanceNormalization.Layer F) (inputShape : Shape) :
  let a := InstanceNormalization.resolve_axis l (length inputShape) in
  match InstanceNormalization.build l inputShape with
  | Err e =>
      e = ValueError /\
      ((a < 0)%Z \/ (Z.of_nat (length inputShape) <= a)%Z \/
       nth_error inputShape (Z.to_nat a) = Some None)
  | Ok l' =>
      exists d,
        (0 <= a < Z.of_nat (length inputShape))%Z /\
        nth_error inputShape (Z.to_nat a) = Some (Some d) /\
        InstanceNormalization.axis l' = InstanceNormalization.axis l /\
        InstanceNormalization.epsilon l' = InstanceNormalization.epsilon l /\
        InstanceNormalization.center l' = InstanceNormalization.center l /\
        InstanceNormalization.scale l' = InstanceNormalization.scale l /\
        InstanceNormalization.gamma l' =
          (if truthy (InstanceNormalization.scale l)
           then Some (tfc.ones [Z.to_nat d]) else None) /\
        InstanceNormalization.beta l' =
          (if truthy (InstanceNormalization.center l)
           then Some (tfc.zeros [Z.to_nat d]) else None)
  end.
Proof.
  intros a. unfold InstanceNormalization.build. cbv zeta. fold a.
  destruct (Z.ltb_spec a 0) as [Hneg | Hpos].
  - split; [reflexivity|]. left. exact Hneg.
  - destruct (nth_error inputShape (Z.to_nat a)) as [od|] eqn:E.
    + rewrite (nth_error_nth _ _ None E).
      assert (Hlt : Z.to_nat a < length inputShape)
        by (apply nth_error_Some; congruence).
      destruct od as [d|].
      * exists d. repeat split; try reflexivity; lia.
      * split; [reflexivity|]. right. right. reflexivity.
    + apply nth_error_None in E.
      rewrite nth_overflow by exact E.
      split; [reflexivity|]. right. left. lia.
Qed.

(** X12: the forward pass of a plain layer that was not built (it has no
    weights), on an input whose channel axis is the last one: with [scale]
    or [center] enabled it fails with a [TypeError], the weight it reads
    being [null]; with both disabled it needs no weight and returns the
    standardized input, of the shape of the input. *)
Theorem call_before_build_needs_no_weights_or_fails
    (l : @InstanceNormalization.Layer F) (x : Tensor F)
    (s : list nat) (C : nat) :
  shape x = s ++ [C] ->
  InstanceNormalization.axis l = (-1)%Z \/
  InstanceNormalization.axis l = Z.of_nat (length s) ->
  InstanceNormalization.gamma l = None ->
  InstanceNormalization.beta l = None ->
  (truthy (InstanceNormalization.scale l) = true \/
   truthy (InstanceNormalization.center l) = true ->
   InstanceNormalization.call l x = Err TypeError) /\
  (truthy (InstanceNormalization.scale l) = false ->
   truthy (InstanceNormalization.center l) = false ->
   exists r,
     InstanceNormalization.call l x = Ok r /\ shape r = shape x /\
     forall pre c, in_bounds (pre ++ [c]) (shape x) ->
       get r (pre ++ [c]) =
       standardized x (length s) (InstanceNormalization.epsilon l)
                    (pre ++ [c])).
Proof.
  intros Hs Hax Hg Hb. split.
  - intros Hon. unfold InstanceNormalization.call.
    unfold InstanceNormalization.resolve_axis. cbv zeta.
    rewrite Hs, (@resolve_last_axis _ s C Hax).
    replace (Z.of_nat (length s) <? 0)%Z with false
      by (symmetry; apply Z.ltb_ge; lia).
    rewrite Nat2Z.id, nth_error_last, Hg, Hb.
    destruct (truthy (InstanceNormalization.center l)); [reflexivity|].
    destruct (truthy (InstanceNormalization.scale l)); [reflexivity|].
    destruct Hon; discriminate.
  - intros Hsc Hce.
    destruct (@call_last_axis F _ l x s C Hs Hax) as (r & Hr & Hsr & Hget).
    + rewrite Hsc. discriminate.
    + rewrite Hce. discriminate.
    + exists r. split; [exact Hr|]. split; [exact Hsr|].
      intros pre c Hin. rewrite (Hget pre c Hin), Hsc, Hce. reflexivity.
Qed.

(** X13: the channels are normalized apart: for two inputs of the same
    shape, channel axis last, that hold the same values in channel [c], the
    outputs of the plain layer hold the same values in channel [c],
    whatever the other channels hold. *)
Theorem channels_do_not_mix
    (l : @InstanceNormalization.Layer F) (x x' : Tensor F)
    (s : list nat) (C c : nat) :
  shape x = s ++ [C] -> shape x' = s ++ [C] -> c < C ->
  InstanceNormalization.axis l = (-1)%Z \/
  InstanceNormalization.axis l = Z.of_nat (length s) ->
  (truthy (InstanceNormalization.scale l) = true ->
   exists g, InstanceNormalization.gamma l = Some g /\ shape g = [C]) ->
  (truthy (InstanceNormalization.center l) = true ->
   exists b, InstanceNormalization.beta l = Some b /\ shape b = [C]) ->
  (forall pre, in_bounds pre s -> get x (pre ++ [c]) = get x' (pre ++ [c])) ->
  exists r r',
    InstanceNormalization.call l x = Ok r /\
    InstanceNormalization.call l x' = Ok r' /\
    forall pre, in_bounds pre s -> get r (pre ++ [c]) = get r' (pre ++ [c]).
Proof.
  intros Hs Hs' Hc Hax Hg Hb Hsame.
  destruct (@call_last_axis F _ l x s C Hs Hax Hg Hb) as (r & Hr & _ & Hget).
  destruct (@call_last_axis F _ l x' s C Hs' Hax Hg Hb)
    as (r' & Hr' & _ & Hget').
  exists r, r'. split; [exact Hr|]. split; [exact Hr'|].
  intros pre Hpre.
  assert (Hin : in_bounds (pre ++ [c]) (s ++ [C])).
  { apply in_bounds_app; [apply in_bounds_length; exact Hpre|].
    split; [exact Hpre | cbn; auto]. }
  rewrite Hget by (rewrite Hs; exact Hin).
  rewrite Hget' by (rewrite Hs'; exact Hin).
  f_equal. unfold standardized.
  rewrite <- (in_bounds_length _ _ Hpre), nth_last, (in_bounds_length _ _ Hpre).
  unfold axis_mean, axis_variance.
  rewrite (@axis_values_snoc x s C c Hs), (@axis_values_snoc x' s C c Hs').
  rewrite (Hsame pre Hpre).
  replace (map (fun rest => get x (rest ++ [c])) (locs s))
    with (map (fun rest => get x' (rest ++ [c])) (locs s)); [reflexivity|].
  apply map_ext_in. intros rest Hrest. apply in_locs in Hrest.
  symmetry. apply Hsame. exact Hrest.
Qed.

Lemma no_broadcast_off_the_last_axis (s : list nat) (L Ca : nat) :
  L <> 1 -> Ca <> 1 -> L <> Ca ->
  tfc.assertAndGetBroadcastShape (s ++ [L]) [Ca] = None.
Proof.
  intros HL HCa Hne. unfold tfc.assertAndGetBroadcastShape.
  rewrite rev_app_distr. cbn [rev app tfc.broadcast_rev].
  rewrite broadcast_rev_nil_r.
  destruct (Nat.eqb_spec L 1); [contradiction|].
  destruct (Nat.eqb_spec Ca 1); [contradiction|].
  destruct (Nat.eqb_spec L Ca); [contradiction|]. reflexivity.
Qed.

(** X14: the channel axis has to be the last one.  When it is another
    axis, of a size that is neither 1 nor the size [L] of the last axis,
    and [L] is not 1, the moments (a vector, one entry per channel) do not
    broadcast against the input: the forward pass of the plain layer fails
    and the one of the conditional layer fails at [input.sub(mean)]. *)
Theorem the_channel_axis_has_to_be_the_last_one
    (pl : @InstanceNormalization.Layer F)
    (cl : @ConditionalInstanceNormalization.Layer F)
    (x : Tensor F) (s : list nat) (L a : nat) :
  shape x = s ++ [L] -> a < length s ->
  InstanceNormalization.resolve_axis pl (length (shape x)) = Z.of_nat a ->
  ConditionalInstanceNormalization.resolve_axis cl (length (shape x))
    = Z.of_nat a ->
  L <> 1 -> nth a s 0 <> 1 -> L <> nth a s 0 ->
  (exists e, InstanceNormalization.call pl x = Err e) /\
  ConditionalInstanceNormalization.call cl x = Err ShapeMismatch.
Proof.
  intros Hs Ha Hpl Hcl HL HCa Hne.
  assert (Hrank : a < rank x)
    by (unfold rank; rewrite Hs, length_app; cbn; lia).
  pose proof (@moments_all_but _ _ x a Hrank) as Hm.
  unfold rank in Hm. cbv zeta in Hm.
  destruct Hm as (Hsm & _).
  assert (Hnth : nth a (shape x) 0 = nth a s 0)
    by (rewrite Hs; apply app_nth1; exact Ha).
  rewrite Hnth in Hsm.
  assert (Hsub : tfc.sub x
            (fst (tfc.moments x
                    (splice1 (Z.of_nat a) (range 0 (length (shape x))))))
          = Err ShapeMismatch).
  { unfold tfc.sub, tfc.binop. rewrite Hsm, Hs.
    rewrite no_broadcast_off_the_last_axis by assumption. reflexivity. }
  assert (Hd : exists d, nth_error (shape x) a = Some d).
  { destruct (nth_error (shape x) a) eqn:E; [eauto|].
    apply nth_error_None in E. unfold rank in Hrank. lia. }
  destruct Hd as (d & Hd).
  split.
  - unfold InstanceNormalization.call, InstanceNormalization.reductionAxes.
    cbv zeta. rewrite Hpl.
    replace (Z.of_nat a <? 0)%Z with false
      by (symmetry; apply Z.ltb_ge; lia).
    rewrite Nat2Z.id, Hd.
    destruct (if truthy (InstanceNormalization.center pl) then _ else _)
      as [bb | e]; [|eexists; reflexivity].
    cbn [bind].
    destruct (if truthy (InstanceNormalization.scale pl) then _ else _)
      as [bg | e]; [|eexists; reflexivity].
    cbn [bind]. rewrite Hsub. eexists. reflexivity.
  - unfold ConditionalInstanceNormalization.call,
      ConditionalInstanceNormalization.reductionAxes.
    cbv zeta. rewrite Hcl.
    replace (Z.of_nat a <? 0)%Z with false
      by (symmetry; apply Z.ltb_ge; lia).
    rewrite Nat2Z.id, Hd, Hsub. reflexivity.
Qed.

(** *** The conditional layer *)

(** X15: [build] of a conditional layer with [n >= 0] styles fails only
    with a [ValueError], and exactly when the channel dimension is not
    known.  When it succeeds the layer has a selector and both tables,
    whether [scale] and [center] are enabled or not: the selector is
    one-hot at 0 and has [max(1, n)] entries, the tables are [n x dim],
    all ones for gamma and all zeros for beta. *)
Theorem conditional_build_always_makes_a_selector_and_two_tables
    (l : @ConditionalInstanceNormalization.Layer F) (inputShape : Shape)
    (n : Z) :
  ConditionalInstanceNormalization.style_num l = Some n -> (0 <= n)%Z ->
  let a := ConditionalInstanceNormalization.resolve_axis l
             (length inputShape) in
  match ConditionalInstanceNormalization.build l inputShape with
  | Err e =>
      e = ValueError /\
      ((a < 0)%Z \/ (Z.of_nat (length inputShape) <= a)%Z \/
       nth_error inputShape (Z.to_nat a) = Some None)
  | Ok l' =>
      exists d,
        (0 <= a < Z.of_nat (length inputShape))%Z /\
        nth_error inputShape (Z.to_nat a) = Some (Some d) /\
        ConditionalInstanceNormalization.sw l'
          = Some (one_hot 0 (Nat.max 1 (Z.to_nat n))) /\
        ConditionalInstanceNormalization.gamma l'
          = Some (tfc.ones [Z.to_nat n; Z.to_nat d]) /\
        ConditionalInstanceNormalization.beta l'
          = Some (tfc.zeros [Z.to_nat n; Z.to_nat d]) /\
        ConditionalInstanceNormalization.axis l'
          = ConditionalInstanceNormalization.axis l /\
        ConditionalInstanceNormalization.epsilon l'
          = ConditionalInstanceNormalization.epsilon l /\
        ConditionalInstanceNormalization.center l'
          = ConditionalInstanceNormalization.center l /\
        ConditionalInstanceNormalization.scale l'
          = ConditionalInstanceNormalization.scale l
  end.
Proof.
  intros Hn Hn0 a. unfold ConditionalInstanceNormalization.build.
  cbv zeta. fold a. rewrite Hn.
  replace (0 <=? n)%Z with true by (symmetry; apply Z.leb_le; lia).
  destruct (Z.ltb_spec a 0) as [Hneg | Hpos].
  - split; [reflexivity|]. left. exact Hneg.
  - destruct (nth_error inputShape (Z.to_nat a)) as [od|] eqn:E.
    + rewrite (nth_error_nth _ _ None E).
      assert (Hlt : Z.to_nat a < length inputShape)
        by (apply nth_error_Some; congruence).
      destruct od as [d|].
      * exists d. cbn [ConditionalInstanceNormalization.sw].
        rewrite initial_sw_one_hot.
        repeat split; try reflexivity; lia.
      * split; [reflexivity|]. right. right. reflexivity.
    + apply nth_error_None in E.
      rewrite nth_overflow by exact E.
      split; [reflexivity|]. right. left. lia.
Qed.

(** X16: the forward pass of a conditional layer whose selector does not
    have as many entries as its beta table has rows fails on every input:
    the product of the selector with the table is not defined.  This is
    the state [build] leaves a layer with no style ([styleNum: 0]) in: a
    selector of one entry and tables without rows. *)
Theorem selector_and_table_of_different_lengths_fail
    (l : @ConditionalInstanceNormalization.Layer F) (x : Tensor F)
    (sel : list F) (bt : Tensor F) (rows cols : nat) :
  ConditionalInstanceNormalization.sw l = Some sel ->
  ConditionalInstanceNormalization.beta l = Some bt ->
  shape bt = [rows; cols] -> length sel <> rows ->
  exists e, ConditionalInstanceNormalization.call l x = Err e.
Proof.
  intros Hsw Hbt Hsb Hne. unfold ConditionalInstanceNormalization.call.
  cbv zeta.
  destruct (if (_ <? 0)%Z then None else _) as [d|];
    [|eexists; reflexivity].
  destruct (tfc.sub _ _) as [centred | e]; [|eexists; reflexivity].
  cbn [bind].
  destruct (tfc.div _ _) as [normed | e]; [|eexists; reflexivity].
  cbn [bind]. rewrite Hsw.
  unfold ConditionalInstanceNormalization.read_dot at 1.
  rewrite Hbt. unfold tfc.dot at 1. rewrite Hsb.
  destruct (Nat.eqb_spec (length sel) rows); [contradiction|].
  eexists. reflexivity.
Qed.

End Generic.

Section Real.
Local Open Scope R_scope.

Lemma conditional_build_channel_last
    (l : @ConditionalInstanceNormalization.Layer R)
    (s : list nat) (C : nat) (n : Z) :
  ConditionalInstanceNormalization.axis l = (-1)%Z \/
  ConditionalInstanceNormalization.axis l = Z.of_nat (length s) ->
  ConditionalInstanceNormalization.style_num l = Some n -> (0 <= n)%Z ->
  ConditionalInstanceNormalization.build l (known (s ++ [C])) =
  Ok (ConditionalInstanceNormalization.mkLayer
        (ConditionalInstanceNormalization.axis l)
        (ConditionalInstanceNormalization.epsilon l)
        (ConditionalInstanceNormalization.center l)
        (ConditionalInstanceNormalization.scale l)
        (Some n)
        (Some (tfc.ones [Z.to_nat n; C]))
        (Some (tfc.zeros [Z.to_nat n; C]))
        (Some (one_hot 0 (Nat.max 1 (Z.to_nat n))))).
Proof.
  intros Hax Hn Hn0.
  unfold ConditionalInstanceNormalization.build,
    ConditionalInstanceNormalization.resolve_axis.
  cbv zeta. rewrite length_known, (@resolve_last_axis _ s C Hax).
  replace (Z.of_nat (length s) <? 0)%Z with false
    by (symmetry; apply Z.ltb_ge; lia).
  rewrite Nat2Z.id, known_snoc, <- (length_known s), nth_shape_last.
  rewrite Hn.
  replace (0 <=? n)%Z with true by (symmetry; apply Z.leb_le; lia).
  rewrite Nat2Z.id, initial_sw_one_hot. reflexivity.
Qed.

(** X17: freshly built layers standardize and do nothing else.  For an
    input whose channel axis is the last one, a plain layer and a
    conditional layer with at least one style, both with the default axis:
    [build] on the shape of the input succeeds, the forward pass succeeds
    and returns the shape [computeOutputShape] announces, and every output
    element is [(x - mean) / (sqrt(variance) + epsilon)], whatever the
    [scale] and [center] options are, the initial weights being 1 and 0. *)
Theorem fresh_layers_standardize_whatever_the_options
    (pa : @InstanceNormalization.InstanceNormalizationLayerArgs R)
    (ca : @ConditionalInstanceNormalization.ConditionalInstanceNormalizationLayerArgs R)
    (x : Tensor R) (s : list nat) (C : nat) (n : Z) :
  shape x = s ++ [C] ->
  InstanceNormalization.args_axis pa = None ->
  ConditionalInstanceNormalization.args_axis ca = None ->
  ConditionalInstanceNormalization.args_styleNum ca = Some n ->
  (1 <= n)%Z ->
  exists pl cl pr cr,
    InstanceNormalization.build
      (InstanceNormalization.constructor (Some pa)) (known (shape x))
      = Ok pl /\
    ConditionalInstanceNormalization.build
      (ConditionalInstanceNormalization.constructor (Some ca))
      (known (shape x)) = Ok cl /\
    InstanceNormalization.call pl x = Ok pr /\
    ConditionalInstanceNormalization.call cl x = Ok cr /\
    known (shape pr)
      = InstanceNormalization.computeOutputShape pl (known (shape x)) /\
    known (shape cr)
      = ConditionalInstanceNormalization.computeOutputShape cl
          (known (shape x)) /\
    forall pre c, in_bounds (pre ++ [c]) (shape x) ->
      get pr (pre ++ [c]) =
        standardized x (length s) (InstanceNormalization.epsilon pl)
                     (pre ++ [c]) /\
      get cr (pre ++ [c]) =
        standardized x (length s)
                     (ConditionalInstanceNormalization.epsilon cl)
                     (pre ++ [c]).
Proof.
  intros Hs Hpa Hca Hn Hn1.
  rewrite Hs.
  rewrite plain_build_channel_last
    by (left; cbn; rewrite Hpa; reflexivity).
  rewrite (@conditional_build_channel_last _ s C n)
    by (try (left; cbn; rewrite Hca; reflexivity);
        try (cbn; exact Hn); lia).
  set (pl := InstanceNormalization.mkLayer _ _ _ _ _ _).
  set (cl := ConditionalInstanceNormalization.mkLayer _ _ _ _ _ _ _ _).
  destruct (@call_last_axis R _ pl x s C Hs) as (pr & Hpr & Hspr & Hgpr).
  { left. subst pl. cbn. rewrite Hpa. reflexivity. }
  { subst pl. cbn [InstanceNormalization.scale InstanceNormalization.gamma].
    intros ->. eexists. split; reflexivity. }
  { subst pl. cbn [InstanceNormalization.center InstanceNormalization.beta].
    intros ->. eexists. split; reflexivity. }
  assert (Hlen : length (one_hot (F:=R) 0 (Nat.max 1 (Z.to_nat n)))
                 = Z.to_nat n)
    by (rewrite length_one_hot; lia).
  destruct (@cond_call_last_axis R _ cl x s C
              (one_hot 0 (Nat.max 1 (Z.to_nat n)))
              (tfc.ones [Z.to_nat n; C]) (tfc.zeros [Z.to_nat n; C]) Hs)
    as (cr & Hcr & Hscr & Hgcr);
    try reflexivity;
    try (cbn [shape tfc.ones tfc.zeros]; rewrite Hlen; reflexivity).
  { left. subst cl. cbn. rewrite Hca. reflexivity. }
  exists pl, cl, pr, cr.
  repeat (split; [reflexivity|]).
  split; [exact Hpr|]. split; [exact Hcr|].
  split; [rewrite Hspr, Hs; reflexivity|].
  split; [rewrite Hscr, Hs; reflexivity|].
  intros pre c Hin. rewrite <- Hs in Hin. split.
  - rewrite (Hgpr pre c Hin). unfold affine. subst pl.
    cbn [InstanceNormalization.scale InstanceNormalization.center
         InstanceNormalization.gamma InstanceNormalization.beta].
    destruct (truthy (InstanceNormalization.scale _));
      destruct (truthy (InstanceNormalization.center _));
      cbn; lra.
  - rewrite (Hgcr pre c Hin).
    replace (Nat.max 1 (Z.to_nat n)) with (Z.to_nat n) by lia.
    rewrite !selected_one_hot by lia.
    cbn. lra.
Qed.

Lemma Rsum_map_add (k : R) (l : list R) :
  Rsum (map (fun t => t + k) l) = Rsum l + INR (length l) * k.
Proof.
  induction l as [|a l IH]; [cbn; lra|].
  cbn [map length]. unfold Rsum in *. cbn [fold_right].
  rewrite IH, S_INR. lra.
Qed.

Lemma list_mean_shift (k : R) (l : list R) :
  l <> [] -> list_mean (map (fun t => t + k) l) = list_mean l + k.
Proof.
  intros Hl. rewrite !list_mean_R, length_map, Rsum_map_add.
  assert (Hn : INR (length l) <> 0).
  { apply not_0_INR. destruct l; [contradiction | discriminate]. }
  field. exact Hn.
Qed.

Lemma list_variance_shift (k : R) (l : list R) :
  l <> [] -> list_variance (map (fun t => t + k) l) = list_variance l.
Proof.
  intros Hl. rewrite !list_variance_R, length_map, list_mean_shift by exact Hl.
  rewrite map_map. f_equal. f_equal.
  apply map_ext. intros t. ring.
Qed.

(** X18: the plain layer removes a constant offset: adding the same
    number [k] to every element of an input whose channel axis is the last
    one changes no element of the output. *)
Theorem a_constant_shift_of_the_input_is_removed
    (l : @InstanceNormalization.Layer R) (x : Tensor R)
    (s : list nat) (C : nat) (k : R) :
  shape x = s ++ [C] ->
  InstanceNormalization.axis l = (-1)%Z \/
  InstanceNormalization.axis l = Z.of_nat (length s) ->
  (truthy (InstanceNormalization.scale l) = true ->
   exists g, InstanceNormalization.gamma l = Some g /\ shape g = [C]) ->
  (truthy (InstanceNormalization.center l) = true ->
   exists b, InstanceNormalization.beta l = Some b /\ shape b = [C]) ->
  exists r r',
    InstanceNormalization.call l x = Ok r /\
    InstanceNormalization.call l (tfc.addScalar x k) = Ok r' /\
    shape r' = shape r /\
    forall pre c, in_bounds (pre ++ [c]) (shape x) ->
      get r' (pre ++ [c]) = get r (pre ++ [c]).
Proof.
  intros Hs Hax Hg Hb.
  assert (Hs' : shape (tfc.addScalar x k) = s ++ [C]) by exact Hs.
  destruct (@call_last_axis R _ l x s C Hs Hax Hg Hb)
    as (r & Hr & Hsr & Hget).
  destruct (@call_last_axis R _ l (tfc.addScalar x k) s C Hs' Hax Hg Hb)
    as (r' & Hr' & Hsr' & Hget').
  exists r, r'. split; [exact Hr|]. split; [exact Hr'|].
  split; [rewrite Hsr, Hsr'; reflexivity|].
  intros pre c Hin.
  rewrite (Hget pre c Hin), (Hget' pre c Hin).
  f_equal. unfold standardized.
  rewrite Hs in Hin. pose proof Hin as Hin'.
  apply in_bounds_snoc in Hin'. destruct Hin' as (Hlen & Hc).
  rewrite <- Hlen, nth_last, Hlen.
  unfold axis_mean, axis_variance.
  rewrite (@axis_values_snoc R x s C c Hs).
  rewrite (@axis_values_snoc R (tfc.addScalar x k) s C c Hs').
  assert (Hne : map (fun rest => get x (rest ++ [c])) (locs s) <> []).
  { intros E. apply (f_equal (@length R)) in E.
    rewrite length_map, length_locs in E. cbn in E.
    apply in_bounds_app in Hin; [|exact Hlen].
    destruct Hin as (Hpre & _). apply in_bounds_size_pos in Hpre. lia. }
  replace (map (fun rest => get (tfc.addScalar x k) (rest ++ [c])) (locs s))
    with (map (fun t => t + k)
              (map (fun rest => get x (rest ++ [c])) (locs s)))
    by (rewrite map_map; reflexivity).
  rewrite list_mean_shift, list_variance_shift by exact Hne.
  cbn. f_equal. lra.
Qed.

Lemma list_mean_scale (k : R) (l : list R) :
  list_mean (map (fun t => t * k) l) = list_mean l * k.
Proof.
  rewrite !list_mean_R, length_map.
  rewrite (Rsum_map_scale k (fun t => t)), map_id.
  unfold Rdiv. ring.
Qed.

Lemma list_variance_scale (k : R) (l : list R) :
  list_variance (map (fun t => t * k) l) = list_variance l * (k * k).
Proof.
  rewrite !list_variance_R, length_map, list_mean_scale, map_map.
  replace (map (fun t => (t * k - list_mean l * k)
                         * (t * k - list_mean l * k)) l)
    with (map (fun t => (t - list_mean l) * (t - list_mean l) * (k * k)) l)
    by (apply map_ext; intros t; ring).
  rewrite (Rsum_map_scale (k * k)
             (fun t => (t - list_mean l) * (t - list_mean l))).
  unfold Rdiv. ring.
Qed.

Lemma list_variance_nonneg (l : list R) : 0 <= list_variance l.
Proof.
  rewrite list_variance_R.
  apply Rmult_le_pos;
    [apply Rsum_squares_nonneg with (f := fun t => t - list_mean l)|].
  destruct (length l); [cbn; rewrite Rinv_0; lra|].
  left. apply Rinv_0_lt_compat, lt_0_INR. lia.
Qed.

(** X19: the plain layer is homogeneous: for [k > 0] and [epsilon > 0],
    multiplying every element of the input by [k] and epsilon by [k] as
    well changes no element of the output (channel axis last). *)
Theorem scaling_input_and_epsilon_together_changes_nothing
    (l : @InstanceNormalization.Layer R) (x : Tensor R)
    (s : list nat) (C : nat) (k : R) :
  shape x = s ++ [C] ->
  InstanceNormalization.axis l = (-1)%Z \/
  InstanceNormalization.axis l = Z.of_nat (length s) ->
  (truthy (InstanceNormalization.scale l) = true ->
   exists g, InstanceNormalization.gamma l = Some g /\ shape g = [C]) ->
  (truthy (InstanceNormalization.center l) = true ->
   exists b, InstanceNormalization.beta l = Some b /\ shape b = [C]) ->
  0 < k -> 0 < InstanceNormalization.epsilon l ->
  let l' := InstanceNormalization.mkLayer
              (InstanceNormalization.axis l)
              (InstanceNormalization.epsilon l * k)
              (InstanceNormalization.center l)
              (InstanceNormalization.scale l)
              (InstanceNormalization.gamma l)
              (InstanceNormalization.beta l) in
  exists r r',
    InstanceNormalization.call l x = Ok r /\
    InstanceNormalization.call l' (tfc.mulScalar x k) = Ok r' /\
    shape r' = shape r /\
    forall pre c, in_bounds (pre ++ [c]) (shape x) ->
      get r' (pre ++ [c]) = get r (pre ++ [c]).
Proof.
  intros Hs Hax Hg Hb Hk Heps l'.
  assert (Hs' : shape (tfc.mulScalar x k) = s ++ [C]) by exact Hs.
  destruct (@call_last_axis R _ l x s C Hs Hax Hg Hb)
    as (r & Hr & Hsr & Hget).
  destruct (@call_last_axis R _ l' (tfc.mulScalar x k) s C Hs' Hax Hg Hb)
    as (r' & Hr' & Hsr' & Hget').
  exists r, r'. split; [exact Hr|]. split; [exact Hr'|].
  split; [rewrite Hsr, Hsr'; reflexivity|].
  intros pre c Hin.
  rewrite (Hget pre c Hin), (Hget' pre c Hin).
  subst l'.
  cbn [InstanceNormalization.scale InstanceNormalization.center
       InstanceNormalization.gamma InstanceNormalization.beta
       InstanceNormalization.epsilon].
  f_equal. unfold standardized.
  rewrite Hs in Hin. pose proof Hin as Hin'.
  apply in_bounds_snoc in Hin'. destruct Hin' as (Hlen & Hc).
  rewrite <- Hlen, nth_last, Hlen.
  unfold axis_mean, axis_variance.
  rewrite (@axis_values_snoc R x s C c Hs).
  rewrite (@axis_values_snoc R (tfc.mulScalar x k) s C c Hs').
  set (vals := map (fun rest => get x (rest ++ [c])) (locs s)).
  replace (map (fun rest => get (tfc.mulScalar x k) (rest ++ [c])) (locs s))
    with (map (fun t => t * k) vals)
    by (subst vals; rewrite map_map; reflexivity).
  rewrite list_mean_scale, list_variance_scale.
  cbn [tfc.fdiv tfc.fsub tfc.fadd tfc.fsqrt RArith tfc.mulScalar
       tfc.map_tensor get tfc.fmul].
  rewrite sqrt_mult_alt by apply list_variance_nonneg.
  rewrite sqrt_square by lra.
  pose proof (sqrt_pos (list_variance vals)) as Hsq.
  field. split; nra.
Qed.

End Real.

Lemma call_before_build_needs_no_weights_or_fails_witness :
  InstanceNormalization.call
    (InstanceNormalization.constructor (Some affine_args)) batch_a
  = Err TypeError.
Proof.
  apply (proj1 (@call_before_build_needs_no_weights_or_fails R _
                  (InstanceNormalization.constructor (Some affine_args))
                  batch_a [2; 1; 1] 1 eq_refl (or_introl eq_refl)
                  eq_refl eq_refl)).
  left. reflexivity.
Defined.

Lemma channels_do_not_mix_witness :
  exists r r',
    InstanceNormalization.call bare_eps0 two_channels = Ok r /\
    InstanceNormalization.call bare_eps0 two_channels_changed = Ok r' /\
    forall pre, in_bounds pre [1; 1; 2] ->
                get r (pre ++ [0]) = get r' (pre ++ [0]).
Proof.
  apply (@channels_do_not_mix R _ bare_eps0 two_channels
           two_channels_changed [1; 1; 2] 2 0).
  - reflexivity.
  - reflexivity.
  - lia.
  - left. reflexivity.
  - intros Hon. discriminate Hon.
  - intros Hon. discriminate Hon.
  - intros pre Hin.
    destruct pre as [|b [|i [|j [|? ?]]]]; cbn in Hin; try tauto.
    destruct Hin as (Hb & Hi & Hj & _).
    destruct b as [|b]; [|lia]. destruct i as [|i]; [|lia].
    destruct j as [|[|j]]; [reflexivity | reflexivity | lia].
Defined.

Lemma the_channel_axis_has_to_be_the_last_one_witness :
  (exists e, InstanceNormalization.call channels_first wide = Err e) /\
  ConditionalInstanceNormalization.call conditional_channels_first wide
  = Err ShapeMismatch.
Proof.
  apply (@the_channel_axis_has_to_be_the_last_one R _ channels_first
           conditional_channels_first wide [1; 2; 1] 3 1).
  - reflexivity.
  - cbn. lia.
  - reflexivity.
  - reflexivity.
  - lia.
  - cbn. lia.
  - cbn. lia.
Defined.

Lemma conditional_build_always_makes_a_selector_and_two_tables_witness :
  exists l',
    ConditionalInstanceNormalization.build
      (ConditionalInstanceNormalization.constructor (Some two_styles_args))
      (known (shape batch_a)) = Ok l' /\
    ConditionalInstanceNormalization.sw l' = Some (one_hot 0 2) /\
    ConditionalInstanceNormalization.gamma l' = Some (tfc.ones [2; 1]) /\
    ConditionalInstanceNormalization.beta l' = Some (tfc.zeros [2; 1]).
Proof.
  pose proof (@conditional_build_always_makes_a_selector_and_two_tables
                R _
                (ConditionalInstanceNormalization.constructor
                   (Some two_styles_args))
                (known (shape batch_a)) 2%Z eq_refl) as Hw.
  assert (H0 : (0 <= 2)%Z) by lia. specialize (Hw H0). cbv zeta in Hw.
  change (ConditionalInstanceNormalization.build
            (ConditionalInstanceNormalization.constructor
               (Some two_styles_args)) (known (shape batch_a)))
    with (Ok two_styles_built) in Hw.
  destruct Hw as (d & _ & Hd & Hsw & Hg & Hb & _).
  assert (Ed : d = 1%Z) by (cbn in Hd; vm_compute in Hd; congruence).
  subst d.
  exists two_styles_built. repeat split; assumption.
Defined.

Lemma selector_and_table_of_different_lengths_fail_witness :
  ConditionalInstanceNormalization.build
    (ConditionalInstanceNormalization.constructor (Some no_style_args))
    (known (shape batch_a)) = Ok no_style_built /\
  exists e, ConditionalInstanceNormalization.call no_style_built batch_a
            = Err e.
Proof.
  split; [reflexivity|].
  apply (@selector_and_table_of_different_lengths_fail R _ no_style_built
           batch_a [tfc.fone] (tfc.zeros [0; 1]) 0 1).
  - reflexivity.
  - reflexivity.
  - reflexivity.
  - cbn. lia.
Defined.

Lemma fresh_layers_standardize_whatever_the_options_witness :
  exists pl cl pr cr,
    InstanceNormalization.build
      (InstanceNormalization.constructor (Some affine_args))
      (known (shape batch_a)) = Ok pl /\
    ConditionalInstanceNormalization.build
      (ConditionalInstanceNormalization.constructor (Some two_styles_args))
      (known (shape batch_a)) = Ok cl /\
    InstanceNormalization.call pl batch_a = Ok pr /\
    ConditionalInstanceNormalization.call cl batch_a = Ok cr /\
    known (shape pr)
      = InstanceNormalization.computeOutputShape pl (known (shape batch_a)) /\
    known (shape cr)
      = ConditionalInstanceNormalization.computeOutputShape cl
          (known (shape batch_a)) /\
    forall pre c, in_bounds (pre ++ [c]) (shape batch_a) ->
      get pr (pre ++ [c]) =
        standardized batch_a 3 (InstanceNormalization.epsilon pl)
                     (pre ++ [c]) /\
      get cr (pre ++ [c]) =
        standardized batch_a 3
                     (ConditionalInstanceNormalization.epsilon cl)
                     (pre ++ [c]).
Proof.
  apply (@fresh_layers_standardize_whatever_the_options affine_args
           two_styles_args batch_a [2; 1; 1] 1 2%Z).
  - reflexivity.
  - reflexivity.
  - reflexivity.
  - reflexivity.
  - lia.
Defined.

Lemma a_constant_shift_of_the_input_is_removed_witness :
  exists r r',
    InstanceNormalization.call affine_built batch_a = Ok r /\
    InstanceNormalization.call affine_built (tfc.addScalar batch_a 5%R)
      = Ok r' /\
    shape r' = shape r /\
    forall pre c, in_bounds (pre ++ [c]) (shape batch_a) ->
      get r' (pre ++ [c]) = get r (pre ++ [c]).
Proof.
  apply (@a_constant_shift_of_the_input_is_removed affine_built batch_a
           [2; 1; 1] 1 5%R).
  - reflexivity.
  - left. reflexivity.
  - intros _. eexists. split; reflexivity.
  - intros _. eexists. split; reflexivity.
Defined.

Lemma scaling_input_and_epsilon_together_changes_nothing_witness :
  exists r r',
    InstanceNormalization.call affine_built batch_a = Ok r /\
    InstanceNormalization.call
      (InstanceNormalization.mkLayer (-1) (1 / 1000 * 2)%R
         (Some true) (Some true)
         (Some (tfc.ones [1])) (Some (tfc.zeros [1])))
      (tfc.mulScalar batch_a 2%R) = Ok r' /\
    shape r' = shape r /\
    forall pre c, in_bounds (pre ++ [c]) (shape batch_a) ->
      get r' (pre ++ [c]) = get r (pre ++ [c]).
Proof.
  apply (@scaling_input_and_epsilon_together_changes_nothing affine_built
           batch_a [2; 1; 1] 1 2%R).
  - reflexivity.
  - left. reflexivity.
  - intros _. eexists. split; reflexivity.
  - intros _. eexists. split; reflexivity.
  - lra.
  - cbn. lra.
Defined.

End LayerLifecycleFacts.

(** ** Configurations: what [getConfig] keeps of a layer *)

Module SerializationFacts.

Import serialization.
Import Examples.

Section Dict.
Context {F : Type}.

Lemma lookup_assign_key (k k' : string) (v : ConfigValue F)
    (d : ConfigDict F) :
  lookup k (assign_key k' v d) = if String.eqb k' k then v else lookup k d.
Proof.
  induction d as [|[k0 v0] rest IH]; [reflexivity|].
  cbn [assign_key lookup].
  destruct (String.eqb_spec k0 k') as [-> | Hne]; cbn [lookup].
  - destruct (String.eqb k' k); reflexivity.
  - rewrite IH.
    destruct (String.eqb_spec k0 k) as [-> | Hne']; [|reflexivity].
    destruct (String.eqb_spec k' k) as [-> | _]; [contradiction|].
    reflexivity.
Qed.

(** [Object.assign] leaves the keys its source does not have as they
    are. *)
Lemma lookup_assign (k : string) (source : ConfigDict F) :
  has_key k source = false ->
  forall target, lookup k (assign target source) = lookup k target.
Proof.
  unfold assign.
  induction source as [|[k0 v0] rest IH]; intros Hk target; [reflexivity|].
  cbn [has_key existsb fst] in Hk. apply orb_false_iff in Hk.
  destruct Hk as (Hk0 & Hrest).
  cbn [fold_left fst snd]. rewrite (IH Hrest), lookup_assign_key, Hk0.
  reflexivity.
Qed.

Lemma lookup_missing (k : string) (d : ConfigDict F) :
  has_key k d = false -> lookup k d = Undefined.
Proof.
  induction d as [|[k0 v0] rest IH]; intros Hk; [reflexivity|].
  cbn [has_key existsb fst] in Hk. apply orb_false_iff in Hk.
  destruct Hk as (Hk0 & Hrest). cbn [lookup]. rewrite Hk0.
  apply IH. exact Hrest.
Qed.

Lemma as_bool_of_bool (b : option bool) : as_bool (F:=F) (of_bool b) = b.
Proof. destruct b; reflexivity. Qed.

(** X20: a reflection-padding layer made again from its own configuration
    has the four margins of the original; [dim_ordering] is not part of the
    configuration and comes back as "default" (the base class entries
    holding neither key). *)
Theorem reflection_padding_config_keeps_the_padding_alone
    (baseConfig : ConfigDict F) (l : ReflectionPadding.ReflectionPadding2D) :
  has_key "padding" baseConfig = false ->
  has_key "dim_ordering" baseConfig = false ->
  ReflectionPadding.fromConfig (ReflectionPadding.getConfig baseConfig l)
  = Ok (ReflectionPadding.mkLayer "default" (ReflectionPadding.padding l)).
Proof.
  intros Hp Hd.
  unfold ReflectionPadding.fromConfig, ReflectionPadding.args_of_config,
    ReflectionPadding.getConfig.
  rewrite !lookup_assign by assumption. cbn.
  destruct (ReflectionPadding.padding l) as [[t b] [lf rt]]. reflexivity.
Qed.

Section Normalization.
Context `{tfc.Arith F}.
Variables beta_regularizer gamma_regularizer : ConfigValue F.
Variables beta_constraint gamma_constraint : ConfigValue F.
Variable baseConfig : ConfigDict F.

(** X21: a plain normalization layer made again from its own
    configuration has the axis, the epsilon and the [center] and [scale]
    options of the original, and no weights: the configuration does not
    hold them (the base class entries holding none of the four keys). *)
Theorem instance_normalization_config_keeps_the_options
    (l : @InstanceNormalization.Layer F) :
  has_key "axis" baseConfig = false ->
  has_key "epsilon" baseConfig = false ->
  has_key "center" baseConfig = false ->
  has_key "scale" baseConfig = false ->
  InstanceNormalization.fromConfig
    (InstanceNormalization.getConfig
       beta_regularizer gamma_regularizer beta_constraint gamma_constraint
       baseConfig l)
  = InstanceNormalization.mkLayer
      (InstanceNormalization.axis l) (InstanceNormalization.epsilon l)
      (InstanceNormalization.center l) (InstanceNormalization.scale l)
      None None.
Proof.
  intros Ha He Hc Hs.
  unfold InstanceNormalization.fromConfig,
    InstanceNormalization.args_of_config, InstanceNormalization.getConfig.
  rewrite !lookup_assign by assumption.
  cbn. rewrite !as_bool_of_bool. reflexivity.
Qed.

(** X22: the configuration of a conditional layer holds the number of
    styles under the key [style_num], and the constructor reads
    [styleNum]: a layer made again from its own configuration has the
    axis, epsilon and options of the original and no number of styles
    (the base class entries holding none of the keys). *)
Theorem conditional_config_loses_the_number_of_styles
    (l : @ConditionalInstanceNormalization.Layer F) :
  has_key "axis" baseConfig = false ->
  has_key "epsilon" baseConfig = false ->
  has_key "center" baseConfig = false ->
  has_key "scale" baseConfig = false ->
  has_key "styleNum" baseConfig = false ->
  has_key "style_num" baseConfig = false ->
  let config :=
    ConditionalInstanceNormalization.getConfig
      beta_regularizer gamma_regularizer beta_constraint gamma_constraint
      baseConfig l in
  lookup "style_num" config
    = match ConditionalInstanceNormalization.style_num l with
      | Some n => Int n
      | None => Undefined
      end /\
  lookup "styleNum" config = Undefined /\
  ConditionalInstanceNormalization.fromConfig config
  = ConditionalInstanceNormalization.mkLayer
      (ConditionalInstanceNormalization.axis l)
      (ConditionalInstanceNormalization.epsilon l)
      (ConditionalInstanceNormalization.center l)
      (ConditionalInstanceNormalization.scale l)
      None None None None.
Proof.
  intros Ha He Hc Hs Hcamel Hsnake config. subst config.
  unfold ConditionalInstanceNormalization.fromConfig,
    ConditionalInstanceNormalization.args_of_config,
    ConditionalInstanceNormalization.getConfig.
  rewrite !lookup_assign by assumption.
  cbn. rewrite !as_bool_of_bool. repeat split.
Qed.

(** X23: the configuration of a deprocessing layer is the one of the base
    class and does not hold the mode.  A layer made again from the
    configuration of any layer, one in mode "tanh" included, multiplies by
    255 (second definition) and has the mode "sigmoid" (first definition),
    the base class entries holding no [activation]. *)
Theorem deprocess_config_forgets_the_mode
    (l : DeprocessStylizedImage_part_001.Layer)
    (l0 : DeprocessStylizedImage.Layer) (x : Tensor F) :
  has_key "activation" baseConfig = false ->
  DeprocessStylizedImage_part_001.call
    (DeprocessStylizedImage_part_001.fromConfig
       (DeprocessStylizedImage_part_001.getConfig baseConfig l)) x
  = tfc.mulScalar x (tfc.fnum 255 1) /\
  DeprocessStylizedImage.activation
    (DeprocessStylizedImage.fromConfig
       (DeprocessStylizedImage.getConfig baseConfig l0))
  = "sigmoid"%string.
Proof.
  intros Hact.
  unfold DeprocessStylizedImage_part_001.fromConfig,
    DeprocessStylizedImage_part_001.getConfig,
    DeprocessStylizedImage.fromConfig, DeprocessStylizedImage.getConfig.
  rewrite (lookup_missing _ _ Hact). split; reflexivity.
Qed.

End Normalization.

End Dict.

Lemma reflection_padding_config_keeps_the_padding_alone_witness :
  ReflectionPadding.fromConfig
    (ReflectionPadding.getConfig base_config
       (ReflectionPadding.mkLayer "channelsFirst" ((1, 2), (3, 4))%Z))
  = Ok (ReflectionPadding.mkLayer "default" ((1, 2), (3, 4))%Z).
Proof.
  apply (@reflection_padding_config_keeps_the_padding_alone R base_config
           (ReflectionPadding.mkLayer "channelsFirst" ((1, 2), (3, 4))%Z)).
  - reflexivity.
  - reflexivity.
Defined.

Lemma instance_normalization_config_keeps_the_options_witness :
  InstanceNormalization.fromConfig
    (InstanceNormalization.getConfig Null Null Null Null base_config
       affine_built)
  = InstanceNormalization.mkLayer (-1) (1 / 1000)%R (Some true) (Some true)
      None None.
Proof.
  apply (@instance_normalization_config_keeps_the_options R _
           Null Null Null Null base_config affine_built);
    reflexivity.
Defined.

Lemma conditional_config_loses_the_number_of_styles_witness :
  ConditionalInstanceNormalization.style_num two_styles_built = Some 2%Z /\
  ConditionalInstanceNormalization.style_num
    (ConditionalInstanceNormalization.fromConfig
       (ConditionalInstanceNormalization.getConfig Null Null Null Null
          base_config two_styles_built))
  = None.
Proof.
  split; [reflexivity|].
  destruct (@conditional_config_loses_the_number_of_styles R _
              Null Null Null Null base_config two_styles_built
              eq_refl eq_refl eq_refl eq_refl eq_refl eq_refl)
    as (_ & _ & Hfrom).
  rewrite Hfrom. reflexivity.
Defined.

Lemma deprocess_config_forgets_the_mode_witness :
  DeprocessStylizedImage_part_001.call tanh_layer one_pixel
    = tfc.mulScalar (tfc.addScalar one_pixel (tfc.fnum 1 1))
                    (tfc.fnum 255 2) /\
  DeprocessStylizedImage_part_001.call
    (DeprocessStylizedImage_part_001.fromConfig
       (DeprocessStylizedImage_part_001.getConfig base_config tanh_layer))
    one_pixel
  = tfc.mulScalar one_pixel (tfc.fnum 255 1).
Proof.
  split; [reflexivity|].
  apply (proj1 (@deprocess_config_forgets_the_mode R _ base_config
                  tanh_layer (DeprocessStylizedImage.constructor None)
                  one_pixel eq_refl)).
Defined.

End SerializationFacts.

(** ** The range of the deprocessing layer *)

Module DeprocessRangeFacts.

Import DeprocessStylizedImage_part_001.
Import Examples.

Section Range.
Local Open Scope R_scope.

(** X24: the deprocessing layer of the second definition maps
    activations onto pixel values and keeps their order: in mode "tanh" an
    element between -1 and 1 comes out between 0 and 255, in every other mode
    an element between 0 and 1 does, and in both a larger element never
    comes out smaller. *)
Theorem deprocess_maps_activations_onto_the_pixel_range
    (l : Layer) (x : Tensor R) :
  (activation l = Some "tanh"%string ->
   (forall loc, -1 <= get x loc <= 1 -> 0 <= get (call l x) loc <= 255) /\
   (forall loc loc', get x loc <= get x loc' ->
                     get (call l x) loc <= get (call l x) loc')) /\
  (activation l <> Some "tanh"%string ->
   (forall loc, 0 <= get x loc <= 1 -> 0 <= get (call l x) loc <= 255) /\
   (forall loc loc', get x loc <= get x loc' ->
                     get (call l x) loc <= get (call l x) loc')).
Proof.
  split; intros Hact.
  - unfold call. rewrite Hact.
    cbn [strict_equal String.eqb Ascii.eqb Bool.eqb].
    split; intros; cbn in *; lra.
  - assert (Hne : strict_equal (activation l) "tanh" = false).
    { unfold strict_equal. destruct (activation l) as [a|]; [|reflexivity].
      destruct (String.eqb_spec a "tanh"); [subst; congruence | reflexivity]. }
    unfold call. rewrite Hne.
    split; intros; cbn in *; lra.
Qed.

Lemma deprocess_maps_activations_onto_the_pixel_range_witness :
  0 <= get (call tanh_layer one_pixel) [0%nat] <= 255.
Proof.
  apply (proj1 (proj1 (@deprocess_maps_activations_onto_the_pixel_range
                         tanh_layer one_pixel) eq_refl)).
  cbn. lra.
Defined.

End Range.

End DeprocessRangeFacts.
